(** * ethpm-types: source maps, ABI selectors, signatures, topics, ABI lists and AST search

    A shallow embedding of the parts of [ethpm_types] (sourcemap.py, abi.py,
    utils.py, contract_type.py, ast.py) that decode compact source maps, compute
    canonical types and selectors, parse display signatures, encode event topics,
    look up ABI entries and search AST nodes by byte range.

    Python strings are modelled as Stdlib [string] (ASCII text); Python
    exceptions as the constructors of [PyError] in a small error monad. *)

From Stdlib Require Import String Ascii List ZArith Bool Lia Permutation.
#[export] Set Warnings "-register-all".
Import ListNotations.
Open Scope string_scope.

(** ** Python runtime pieces *)

Inductive PyError : Type :=
| KeyError
| ValueError
| IndexError
| TypeError
| ParseError
| EncodingError.

Inductive result (A : Type) : Type :=
| Ok (a : A)
| Err (e : PyError).
Arguments Ok {A} a.
Arguments Err {A} e.

Definition bind {A B : Type} (m : result A) (k : A -> result B) : result B :=
  match m with
  | Ok a => k a
  | Err e => Err e
  end.

Notation "x <- m ;; k" := (bind m (fun x => k))
  (at level 61, m at next level, right associativity).

(** [[f(x) for x in l]], raising what the first failing [f(x)] raises. *)
Fixpoint map_result {A B : Type} (f : A -> result B) (l : list A) : result (list B) :=
  match l with
  | [] => Ok []
  | x :: xs => y <- f x ;; ys <- map_result f xs ;; Ok (y :: ys)
  end.

(** A Python value of the kinds the modelled code meets: [None], [int],
    [str], [bytes], [bool] and [list]/[tuple]. *)
Inductive PyVal : Type :=
| VNone
| VInt (z : Z)
| VStr (s : string)
| VBytes (b : list Byte.byte)
| VBool (b : bool)
| VList (l : list PyVal).

(** Python truthiness. *)
Definition truthy (v : PyVal) : bool :=
  match v with
  | VNone => false
  | VInt z => negb (Z.eqb z 0)
  | VStr s => negb (String.eqb s "")
  | VBytes b => match b with [] => false | _ => true end
  | VBool b => b
  | VList l => match l with [] => false | _ => true end
  end.

(** [a or b] *)
Definition py_or (a b : PyVal) : PyVal := if truthy a then a else b.

Definition opt_int (o : option Z) : PyVal :=
  match o with Some z => VInt z | None => VNone end.

Module PyStr.

Definition is_digit (c : ascii) : bool :=
  let n := nat_of_ascii c in (48 <=? n)%nat && (n <=? 57)%nat.

(** [str.isspace] on one ASCII character: \t \n \v \f \r, \x1c-\x1f and space. *)
Definition is_space (c : ascii) : bool :=
  let n := nat_of_ascii c in
  ((9 <=? n)%nat && (n <=? 13)%nat) || ((28 <=? n)%nat && (n <=? 32)%nat).

Fixpoint all_chars (p : ascii -> bool) (s : string) : bool :=
  match s with
  | EmptyString => true
  | String c r => p c && all_chars p r
  end.

Fixpoint any_char (p : ascii -> bool) (s : string) : bool :=
  match s with
  | EmptyString => false
  | String c r => p c || any_char p r
  end.

(** [str.isnumeric] (ASCII): non-empty and all decimal digits. *)
Definition isnumeric (s : string) : bool :=
  match s with
  | EmptyString => false
  | _ => all_chars is_digit s
  end.

Fixpoint lstrip_by (p : ascii -> bool) (s : string) : string :=
  match s with
  | String c r => if p c then lstrip_by p r else s
  | EmptyString => EmptyString
  end.

Fixpoint rev_str (s : string) : string :=
  match s with
  | EmptyString => EmptyString
  | String c r => rev_str r ++ String c EmptyString
  end.

Definition rstrip_by (p : ascii -> bool) (s : string) : string :=
  rev_str (lstrip_by p (rev_str s)).

(** [str.strip()] and [str.strip(chars)] *)
Definition strip_by (p : ascii -> bool) (s : string) : string :=
  rstrip_by p (lstrip_by p s).
Definition strip (s : string) : string := strip_by is_space s.

(** [c in s] for a one-character needle. *)
Definition contains_char (c : ascii) (s : string) : bool :=
  any_char (fun d => Ascii.eqb c d) s.

(** [s.split(c)] for a one-character separator. *)
Fixpoint split_char (c : ascii) (s : string) : list string :=
  match s with
  | EmptyString => [EmptyString]
  | String d r =>
      let rest := split_char c r in
      if Ascii.eqb c d then EmptyString :: rest
      else match rest with
           | w :: ws => String d w :: ws
           | [] => [String d EmptyString]
           end
  end.

Fixpoint join (sep : string) (l : list string) : string :=
  match l with
  | [] => EmptyString
  | [x] => x
  | x :: xs => x ++ sep ++ join sep xs
  end.

Definition digit_val (c : ascii) : Z := Z.of_nat (nat_of_ascii c - 48).

(** The digits of a Python integer literal, single underscores allowed
    between digits; [acc] is the value read so far, [after_digit] whether
    the previous character was a digit. *)
Fixpoint digits_val (s : string) (acc : Z) (after_digit : bool) : option Z :=
  match s with
  | EmptyString => if after_digit then Some acc else None
  | String c r =>
      if is_digit c then digits_val r (acc * 10 + digit_val c)%Z true
      else if Ascii.eqb c "_"%char then
        if after_digit then
          match r with
          | String d _ => if is_digit d then digits_val r acc false else None
          | EmptyString => None
          end
        else None
      else None
  end.

(** [int(s)] on a string: surrounding whitespace, an optional sign and
    the digits; anything else raises [ValueError]. *)
Definition py_int_of_str (s : string) : result Z :=
  let t := strip s in
  let r :=
    match t with
    | String c u =>
        if Ascii.eqb c "-"%char then option_map Z.opp (digits_val u 0 false)
        else if Ascii.eqb c "+"%char then digits_val u 0 false
        else digits_val t 0 false
    | EmptyString => None
    end in
  match r with Some z => Ok z | None => Err ValueError end.

(** [s[n:]] for [n >= 0] *)
Fixpoint drop (n : nat) (s : string) : string :=
  match n, s with
  | O, _ => s
  | S n', String _ r => drop n' r
  | S _, EmptyString => EmptyString
  end.

(** Index of the first occurrence of [sub] in [s]. *)
Fixpoint find_sub (sub s : string) : option nat :=
  if String.prefix sub s then Some O
  else match s with
       | EmptyString => None
       | String _ r => option_map S (find_sub sub r)
       end.

(** [s.find(sub)]: the index, or [-1]. *)
Definition py_find (sub s : string) : Z :=
  match find_sub sub s with Some n => Z.of_nat n | None => (-1)%Z end.

(** [sub in s] *)
Definition contains_sub (sub s : string) : bool :=
  match find_sub sub s with Some _ => true | None => false end.

(** [s.startswith(p)] *)
Definition startswith (s p : string) : bool := String.prefix p s.

(** Python's normalisation of a slice bound against a length. *)
Definition slice_bound (len i : Z) : nat :=
  Z.to_nat (if (i <? 0)%Z then Z.max 0 (i + len) else Z.min i len).

(** [s[i:j]], either bound possibly omitted ([None]) or negative. *)
Definition py_slice (s : string) (i j : option Z) : string :=
  let n := Z.of_nat (String.length s) in
  let a := match i with None => O | Some i => slice_bound n i end in
  let b := match j with None => String.length s | Some j => slice_bound n j end in
  substring a (b - a) s.

(** [s.split(sep)] for a non-empty separator: each round cuts at the first
    occurrence and removes at least one character, so [length s + 1]
    rounds reach the end. *)
Fixpoint split_sub_fuel (fuel : nat) (sep s : string) : list string :=
  match fuel with
  | O => [s]
  | S f =>
      match find_sub sep s with
      | None => [s]
      | Some i => substring 0 i s :: split_sub_fuel f sep (drop (i + String.length sep) s)
      end
  end.
Definition split_sub (sep s : string) : list string :=
  split_sub_fuel (S (String.length s)) sep s.

End PyStr.

(** [int(v)] *)
Definition py_int (v : PyVal) : result Z :=
  match v with
  | VInt z => Ok z
  | VBool b => Ok (if b then 1 else 0)%Z
  | VStr s => PyStr.py_int_of_str s
  | VNone => Err TypeError
  | _ => Err TypeError
  end.

(** ** sourcemap.py *)
Module SourceMap.

(** [SourceMapItem]; [jump_code] keeps whatever the row held ([int] when
    the field was numeric), since [model_construct] does not validate. *)
Record SourceMapItem : Type := mkItem {
  start : option Z;
  length : option Z;
  contract_id : option Z;
  jump_code : PyVal
}.

(** [SourceMapItem._extract_value] *)
Definition _extract_value (row : list PyVal) (item_idx : nat) (previous : PyVal) : PyVal :=
  match nth_error row item_idx with
  | Some (VStr EmptyString) => previous
  | Some v => v
  | None => previous
  end.

(** The row: [int(i) if i.isnumeric() else i for i in src_str.split(":")] *)
Definition row_of (src_str : string) : list PyVal :=
  map (fun i => if PyStr.isnumeric i then
                  match PyStr.py_int_of_str i with Ok z => VInt z | Err _ => VStr i end
                else VStr i)
      (PyStr.split_char ":"%char src_str).

(** [x if x != -1 else None] *)
Definition unset_neg1 (z : Z) : option Z := if Z.eqb z (-1) then None else Some z.

(** [SourceMapItem.parse_str] *)
Definition parse_str (src_str : string) (previous : option SourceMapItem) : result SourceMapItem :=
  let row := row_of src_str in
  match previous with
  | None =>
      st <- py_int (py_or (_extract_value row 0 VNone) (VInt (-1))) ;;
      ln <- py_int (py_or (_extract_value row 1 VNone) (VInt (-1))) ;;
      ci <- py_int (py_or (_extract_value row 2 VNone) (VInt (-1))) ;;
      let jc := py_or (_extract_value row 3 VNone) (VStr "") in
      Ok (mkItem (unset_neg1 st) (unset_neg1 ln) (unset_neg1 ci) jc)
  | Some p =>
      st <- py_int (_extract_value row 0 (py_or (opt_int (start p)) (VInt (-1)))) ;;
      ln <- py_int (_extract_value row 1 (py_or (opt_int (length p)) (VInt (-1)))) ;;
      ci <- py_int (_extract_value row 2 (py_or (opt_int (contract_id p)) (VInt (-1)))) ;;
      let jc := _extract_value row 3 (py_or (jump_code p) (VStr "")) in
      Ok (mkItem (unset_neg1 st) (unset_neg1 ln) (unset_neg1 ci) jc)
  end.

(** The steps of [SourceMap.parse], each item fed as [previous] to the next;
    [list(SourceMap(root).parse())] raises as soon as one step raises. *)
Fixpoint parse_rows (rows : list string) (item : option SourceMapItem) : result (list SourceMapItem) :=
  match rows with
  | [] => Ok []
  | row :: rest =>
      it <- parse_str row item ;;
      its <- parse_rows rest (Some it) ;;
      Ok (it :: its)
  end.

(** [list(SourceMap(root).parse())] *)
Definition parse (root : string) : result (list SourceMapItem) :=
  parse_rows (PyStr.split_char ";"%char (PyStr.strip root)) None.

(** The steps [SourceMap.parse] iterates over. *)
Definition steps (root : string) : list string :=
  PyStr.split_char ";"%char (PyStr.strip root).

(** A numeric field the decoder accepts: empty (copy), digits, or the
    sentinel [-1]. *)
Definition field_ok (f : string) : bool :=
  String.eqb f "" || PyStr.isnumeric f || String.eqb f "-1".

(** Every step's start, length and source-id fields are [field_ok]. *)
Definition steps_ok (root : string) : bool :=
  forallb (fun step => forallb field_ok (firstn 3 (PyStr.split_char ":"%char step)))
          (steps root).

(** Field [k] of [step] is elided: absent or empty. *)
Definition elided (k : nat) (step : string) : bool :=
  match nth_error (PyStr.split_char ":"%char step) k with
  | None => true
  | Some f => String.eqb f ""
  end.

End SourceMap.


(** ** utils.py: [parse_signature] *)
Module Utils.

Definition triple : Type := (string * string * string)%type.

Inductive WorkingOn : Type := WType | WName.

(** [while characters[0] == " ": characters.pop(0)] *)
Fixpoint skip_spaces (chars : string) : result string :=
  match chars with
  | EmptyString => Err IndexError
  | String c r => if Ascii.eqb c " "%char then skip_spaces r else Ok chars
  end.

(** [while end_tuple != ")": end_tuple = characters.pop(0); type_ += end_tuple] *)
Fixpoint read_tuple (chars acc : string) : result (string * string) :=
  match chars with
  | EmptyString => Err IndexError
  | String c r =>
      let acc' := acc ++ String c EmptyString in
      if Ascii.eqb c ")"%char then Ok (acc', r) else read_tuple r acc'
  end.

(** The [while characters:] loop of [_parse_signature_inputs], state
    [(result, type_, indexed, name, working_on, characters)]. Every round
    pops at least one character, so [length characters + 1] rounds of fuel
    always reach the end of the input; [Err IndexError] on empty fuel is
    never produced from [_parse_signature_inputs]. *)
Fixpoint loop (fuel : nat) (res : list triple) (type_ indexed name : string)
    (working_on : WorkingOn) (chars : string) : result (list triple) :=
  match fuel with
  | O => Err IndexError
  | S f =>
      match chars with
      | EmptyString =>
          (* Add the last input. *)
          Ok (if String.eqb type_ EmptyString then res else (res ++ [(type_, indexed, name)])%list)
      | String c r =>
          if Ascii.eqb c ","%char then
            r' <- skip_spaces r ;;
            loop f (res ++ [(type_, indexed, name)])%list EmptyString EmptyString EmptyString WType r'
          else if Ascii.eqb c " "%char then
            if String.prefix "indexed " r then
              loop f res type_ "indexed" name WName (PyStr.drop 8 r)
            else loop f res type_ indexed name WName r
          else if Ascii.eqb c "("%char then
            p <- read_tuple r "(" ;;
            loop f res (fst p) indexed name working_on (snd p)
          else
            match working_on with
            | WType => loop f res (type_ ++ String c EmptyString) indexed name working_on r
            | WName => loop f res type_ indexed (name ++ String c EmptyString) working_on r
            end
      end
  end.

(** [_parse_signature_inputs] *)
Definition _parse_signature_inputs (abi_str : string) : result (list triple) :=
  if String.eqb abi_str EmptyString then Ok []
  else loop (S (String.length abi_str)) [] EmptyString EmptyString EmptyString WType abi_str.

Definition is_paren (c : ascii) : bool :=
  Ascii.eqb c "("%char || Ascii.eqb c ")"%char.

(** [parse_signature]: [(name, inputs, outputs)] *)
Definition parse_signature (sig : string) : result (string * list triple * list string) :=
  let outsplit := PyStr.split_sub " -> " sig in
  let std_sig := hd EmptyString outsplit in
  let outputs_maybe := match outsplit with _ :: o :: _ => o | _ => EmptyString end in
  let index := PyStr.py_find "(" std_sig in
  let name := PyStr.strip (PyStr.py_slice std_sig None (Some index)) in
  let remainder :=
    PyStr.py_slice (PyStr.strip (PyStr.py_slice std_sig (Some index) None)) (Some 1%Z) (Some (-1)%Z) in
  inputs <- _parse_signature_inputs remainder ;;
  let outputs :=
    if String.eqb outputs_maybe EmptyString then []
    else map PyStr.strip (PyStr.split_char ","%char (PyStr.strip_by is_paren outputs_maybe)) in
  Ok (name, inputs, outputs).

End Utils.

(** ** abi.py: types, canonical types, selectors and signatures *)

(** [ABIType] and [EventABIType] in one: [indexed] is [False] and unused for a
    plain [ABIType]. [type] is a string or a nested [ABIType]; the unused
    [internal_type] is left out. *)
Inductive ABIType : Type :=
| mkABIType (name : option string) (type : TypeField)
            (components : option (list ABIType)) (indexed : bool)
with TypeField : Type :=
| TStr (s : string)
| TNested (t : ABIType).

Module ABITypeM.

Definition name (t : ABIType) : option string :=
  match t with mkABIType n _ _ _ => n end.
Definition type (t : ABIType) : TypeField :=
  match t with mkABIType _ ty _ _ => ty end.
Definition components (t : ABIType) : option (list ABIType) :=
  match t with mkABIType _ _ c _ => c end.
Definition indexed (t : ABIType) : bool :=
  match t with mkABIType _ _ _ i => i end.

(** [sub in self.type]: a substring test on a string; on a nested model
    the test iterates its [(field, value)] pairs and is [False]. *)
Definition type_contains (sub : string) (ty : TypeField) : bool :=
  match ty with
  | TStr s => PyStr.contains_sub sub s
  | TNested _ => false
  end.

Definition type_str (ty : TypeField) : string :=
  match ty with TStr s => s | TNested _ => EmptyString end.

(** Truthiness of [self.components]. *)
Definition comps_truthy (c : option (list ABIType)) : bool :=
  match c with Some (_ :: _) => true | _ => false end.

(** [ABIType.canonical_type] *)
Fixpoint canonical_type (t : ABIType) : string :=
  match t with
  | mkABIType _ ty comps _ =>
      let fix canon_list (l : list ABIType) : list string :=
        match l with
        | [] => []
        | x :: xs => canonical_type x :: canon_list xs
        end in
      let comp_types := match comps with Some l => canon_list l | None => [] end in
      if type_contains "tuple" ty && comps_truthy comps then
        let value := "(" ++ PyStr.join "," comp_types ++ ")" in
        if type_contains "[" ty then
          value ++ "[" ++ List.last (PyStr.split_char "["%char (type_str ty)) EmptyString
        else value
      else
        match ty with
        | TStr s => s
        | TNested t' => canonical_type t'
        end
  end.

(** [if self.name] *)
Definition name_truthy (n : option string) : option string :=
  match n with
  | Some s => if String.eqb s "" then None else Some s
  | None => None
  end.

(** [ABIType.signature] *)
Definition signature (t : ABIType) : string :=
  match name_truthy (name t) with
  | Some n => canonical_type t ++ " " ++ n
  | None => canonical_type t
  end.

(** [EventABIType.signature] *)
Definition event_signature (t : ABIType) : string :=
  let sig := canonical_type t in
  let sig := if indexed t then sig ++ " indexed" else sig in
  match name_truthy (name t) with
  | Some n => sig ++ " " ++ n
  | None => sig
  end.

End ABITypeM.

Module MethodABI.
Record t : Type := mk {
  name : string;
  stateMutability : string;
  inputs : list ABIType;
  outputs : list ABIType
}.

(** [MethodABI.selector] *)
Definition selector (m : t) : string :=
  name m ++ "(" ++ PyStr.join "," (map ABITypeM.canonical_type (inputs m)) ++ ")".

(** [MethodABI.signature] *)
Definition signature (m : t) : string :=
  let input_args := PyStr.join ", " (map ABITypeM.signature (inputs m)) in
  let output_args :=
    match outputs m with
    | [] => EmptyString
    | [o] => " -> " ++ ABITypeM.canonical_type o
    | os => " -> " ++ ("(" ++ PyStr.join ", " (map ABITypeM.canonical_type os) ++ ")")
    end in
  name m ++ "(" ++ input_args ++ ")" ++ output_args.

(** [MethodABI.from_signature]: [ABIType(name=name, type=type_)] per input,
    [ABIType(type=type_)] per output, the default state mutability. *)
Definition from_signature (sig : string) : result t :=
  p <- Utils.parse_signature sig ;;
  let '(nm, ins, outs) := p in
  Ok (mk nm "nonpayable"
         (map (fun '(ty, _, n) => mkABIType (Some n) (TStr ty) None false) ins)
         (map (fun ty => mkABIType None (TStr ty) None false) outs)).

(** [MethodABI.is_payable] *)
Definition is_payable (m : t) : bool := String.eqb (stateMutability m) "payable".
End MethodABI.

Module EventABI.
Record t : Type := mk {
  name : string;
  inputs : list ABIType;
  anonymous : bool
}.

(** [EventABI.selector] *)
Definition selector (e : t) : string :=
  name e ++ "(" ++ PyStr.join "," (map ABITypeM.canonical_type (inputs e)) ++ ")".

(** [EventABI.signature] *)
Definition signature (e : t) : string :=
  name e ++ "(" ++ PyStr.join ", " (map ABITypeM.event_signature (inputs e)) ++ ")".

(** [EventABI.from_signature]: [EventABIType(name=name,
    indexed=(indexed == "indexed"), type=type_)] per input. *)
Definition from_signature (sig : string) : result t :=
  p <- Utils.parse_signature sig ;;
  let '(nm, ins, _) := p in
  Ok (mk nm (map (fun '(ty, idx, n) =>
                    mkABIType (Some n) (TStr ty) None (String.eqb idx "indexed")) ins)
         false).
End EventABI.

Module ErrorABI.
Record t : Type := mk {
  name : string;
  inputs : list ABIType
}.

(** [ErrorABI.selector] *)
Definition selector (e : t) : string :=
  name e ++ "(" ++ PyStr.join "," (map ABITypeM.canonical_type (inputs e)) ++ ")".

(** [ErrorABI.signature] *)
Definition signature (e : t) : string :=
  name e ++ "(" ++ PyStr.join ", " (map ABITypeM.signature (inputs e)) ++ ")".
End ErrorABI.

(** [ConstructorABI], by its [inputs]. *)
Module ConstructorABI.
(** [ConstructorABI.signature] *)
Definition signature (inputs : list ABIType) : string :=
  "constructor(" ++ PyStr.join ", " (map ABITypeM.signature inputs) ++ ")".

(** [ConstructorABI.selector] *)
Definition selector (inputs : list ABIType) : string :=
  "constructor(" ++ PyStr.join "," (map ABITypeM.canonical_type inputs) ++ ")".
End ConstructorABI.

(** [StructABI], by its [name] and [members]. *)
Module StructABI.
(** [StructABI.selector] *)
Definition selector (name : string) (members : list ABIType) : string :=
  name ++ "(" ++ PyStr.join "," (map ABITypeM.canonical_type members) ++ ")".

(** [StructABI.signature] *)
Definition signature (name : string) (members : list ABIType) : string :=
  name ++ "(" ++ PyStr.join ", " (map ABITypeM.signature members) ++ ")".
End StructABI.

(** An input with its [indexed] flag replaced. *)
Definition with_indexed (fl : bool) (t : ABIType) : ABIType :=
  match t with mkABIType n ty c _ => mkABIType n ty c fl end.

(** Conditions under which a display signature reads back: characters that
    never start a token of the signature grammar. *)
Definition plain_char (c : ascii) : bool :=
  negb (PyStr.is_space c) && negb (Ascii.eqb c ","%char) && negb (Ascii.eqb c "("%char)
  && negb (Ascii.eqb c ")"%char) && negb (Ascii.eqb c ">"%char).
Definition plain (s : string) : bool := PyStr.all_chars plain_char s.

(** The text between a leading ["("] and the first [")"]: [Some] suffix
    after that [")"], provided no [">"] comes before it. *)
Fixpoint after_close (r : string) : option string :=
  match r with
  | EmptyString => None
  | String c r' =>
      if Ascii.eqb c ")"%char then Some r'
      else if Ascii.eqb c ">"%char then None
      else after_close r'
  end.

(** A tuple type with no nested tuple: ["(" inner ")" suffix]. *)
Definition tuple_ok (t : string) : bool :=
  match t with
  | String c r =>
      Ascii.eqb c "("%char &&
      match after_close r with Some suf => plain suf | None => false end
  | EmptyString => false
  end.

Definition simple_type (t : string) : bool :=
  (negb (String.eqb t EmptyString) && plain t) || tuple_ok t.

Definition name_ok (n : option string) : bool :=
  match n with None => true | Some s => plain s end.

Definition name_or_empty (t : ABIType) : string :=
  match ABITypeM.name_truthy (ABITypeM.name t) with Some n => n | None => EmptyString end.

Definition input_ok (i : ABIType) : bool :=
  simple_type (ABITypeM.canonical_type i) && name_ok (ABITypeM.name i).

Definition output_ok (o : ABIType) : bool :=
  negb (String.eqb (ABITypeM.canonical_type o) EmptyString) && plain (ABITypeM.canonical_type o).

Definition method_ok (m : MethodABI.t) : bool :=
  plain (MethodABI.name m) && forallb input_ok (MethodABI.inputs m)
  && forallb output_ok (MethodABI.outputs m).

(** An event input reads back when it is [input_ok] and, if indexed, named. *)
Definition event_input_ok (i : ABIType) : bool :=
  input_ok i &&
  (negb (ABITypeM.indexed i) ||
   match ABITypeM.name_truthy (ABITypeM.name i) with Some _ => true | None => false end).

Definition event_ok (e : EventABI.t) : bool :=
  plain (EventABI.name e) && forallb event_input_ok (EventABI.inputs e).

(** What [from_signature] is expected to rebuild from one input / output. *)
Definition recon_input (i : ABIType) : ABIType :=
  mkABIType (Some (name_or_empty i)) (TStr (ABITypeM.canonical_type i)) None false.
Definition recon_event_input (i : ABIType) : ABIType :=
  mkABIType (Some (name_or_empty i)) (TStr (ABITypeM.canonical_type i)) None (ABITypeM.indexed i).
Definition recon_output (o : ABIType) : ABIType :=
  mkABIType None (TStr (ABITypeM.canonical_type o)) None false.

(** Helper notions for reading a display signature back. *)
Module SigDefs.
Import PyStr Utils.

Definition no_gt (s : string) : bool := all_chars (fun c => negb (Ascii.eqb c ">"%char)) s.
Definition no_paren (s : string) : bool := all_chars (fun c => negb (Ascii.eqb c "("%char)) s.

(** First character of a string satisfies [q]. *)
Definition first_char (q : ascii -> bool) (s : string) : bool :=
  match s with String c _ => q c | EmptyString => false end.

Definition tail_ok (rest : string) : Prop :=
  rest = EmptyString \/ exists r, rest = String ","%char r.

Definition inner_chars (inner : string) : bool :=
  all_chars (fun c => negb (Ascii.eqb c ")"%char) && negb (Ascii.eqb c ">"%char)) inner.

Definition out_ok (T : string) : bool := negb (String.eqb T EmptyString) && plain T.

Definition trip_m (i : ABIType) : triple :=
  (ABITypeM.canonical_type i, EmptyString, name_or_empty i).
Definition trip_e (i : ABIType) : triple :=
  (ABITypeM.canonical_type i, if ABITypeM.indexed i then "indexed" else EmptyString, name_or_empty i).

End SigDefs.

(** [int(v)] succeeds. *)
Definition int_ok (v : PyVal) : Prop := exists z, py_int v = Ok z.

Definition uint256_t : ABIType := mkABIType None (TStr "uint256") None false.
Definition address_t : ABIType := mkABIType None (TStr "address") None false.

(** Sample entries: a method with a named address input, an unnamed tuple
    array input and two outputs; an event with an indexed input; the ERC-20
    [transfer] method with its [bool] output. *)
Definition swap_m : MethodABI.t :=
  MethodABI.mk "swap" "payable"
    [mkABIType (Some "to") (TStr "address") None false;
     mkABIType None (TStr "tuple[]") (Some [uint256_t; address_t]) false]
    [uint256_t; address_t].

Definition transfer_e : EventABI.t :=
  EventABI.mk "Transfer"
    [mkABIType (Some "from") (TStr "address") None true;
     mkABIType (Some "value") (TStr "uint256") None false] false.

Definition transfer_m : MethodABI.t :=
  MethodABI.mk "transfer" "nonpayable"
    [mkABIType (Some "to") (TStr "address") None false;
     mkABIType (Some "value") (TStr "uint256") None false]
    [mkABIType None (TStr "bool") None false].

(** ** abi.py: event topics *)

(** What [encode_topics] and [encode_topic_value] call from eth-utils,
    eth-abi and eth-pydantic-types, as one interface.
    - [keccak_hex b]: the 0x-hex text of [keccak(b)]; [to_hex(HexBytes(...))]
      and [encode_hex] agree on it.
    - [encode_packed t v]: [encode_packed([t], [v])].
    - [is_dynamic t]: [grammar.parse(t).is_dynamic]; parsing may raise.
    - [to_hex v]: eth-utils' [to_hex].
    - [hashstr32 v]: [HashStr32.__eth_pydantic_validate__(v)].
    - [model_str t]: [str(t)] of a nested type model. *)
Record EthLib : Type := mkEthLib {
  keccak_hex : list Byte.byte -> string;
  encode_packed : string -> PyVal -> result (list Byte.byte);
  is_dynamic : string -> result bool;
  to_hex : PyVal -> result string;
  hashstr32 : PyVal -> result string;
  model_str : ABIType -> string
}.

Module Topics.

(** A topic: [Union[Optional[str], list[...]]]. *)
Inductive Topic : Type :=
| TNone
| THex (s : string)
| TList (l : list Topic).

(** A [dict[str, Any]] with distinct keys, as an association list. *)
Definition PyDict : Type := list (string * PyVal).

(** [d[k]] if [k in d] *)
Fixpoint dict_get (d : PyDict) (k : string) : option PyVal :=
  match d with
  | [] => None
  | (k', v) :: d' => if String.eqb k' k then Some v else dict_get d' k
  end.

Section Encode.
Variable L : EthLib.

(** [str(abi_type)] *)
Definition abi_type_str (abi_type : TypeField) : string :=
  match abi_type with TStr s => s | TNested t => model_str L t end.

(** [abi_type == "string"]: a nested model never equals a string. *)
Definition is_string_type (abi_type : TypeField) : bool :=
  match abi_type with TStr s => String.eqb s "string" | TNested _ => false end.

(** [isinstance(value, str)] *)
Definition is_str (v : PyVal) : bool :=
  match v with VStr _ => true | _ => false end.

(** [keccak(text=s)] hashes the UTF-8 bytes of [s]; for ASCII text these
    are its characters. *)
Definition text_bytes (s : string) : list Byte.byte := list_byte_of_string s.

(** [encode_topic_value] *)
Fixpoint encode_topic_value (abi_type : TypeField) (value : PyVal) : result Topic :=
  match value with
  | VNone => Ok TNone
  | VList l =>
      let fix each (l : list PyVal) : result (list Topic) :=
        match l with
        | [] => Ok []
        | v :: vs =>
            t <- encode_topic_value abi_type v ;;
            ts <- each vs ;;
            Ok (t :: ts)
        end in
      ts <- each l ;; Ok (TList ts)
  | _ =>
      dyn <- is_dynamic L (abi_type_str abi_type) ;;
      if dyn then
        v <- (if is_string_type abi_type && negb (is_str value)
              then h <- to_hex L value ;; Ok (VStr h)
              else Ok value) ;;
        b <- encode_packed L (abi_type_str abi_type) v ;;
        Ok (THex (keccak_hex L b))
      else
        h <- hashstr32 L value ;; Ok (THex h)
  end.

(** A value that is neither [None] nor a [list] or [tuple]. *)
Definition scalar (v : PyVal) : bool :=
  match v with VNone | VList _ => false | _ => true end.

(** The topic one indexed input adds: its encoded value when
    [name and name in inputs], a wildcard otherwise. *)
Definition topic_for (inputs : PyDict) (ipt : ABIType) : result Topic :=
  match ABITypeM.name_truthy (ABITypeM.name ipt) with
  | Some n =>
      match dict_get inputs n with
      | Some v => encode_topic_value (ABITypeM.type ipt) v
      | None => Ok TNone
      end
  | None => Ok TNone
  end.

(** The [for ipt in self.inputs] loop of [encode_topics]. *)
Fixpoint collect_topics (inputs : PyDict) (topics : list Topic) (ipts : list ABIType)
  : result (list Topic) :=
  match ipts with
  | [] => Ok topics
  | ipt :: rest =>
      if negb (ABITypeM.indexed ipt) then collect_topics inputs topics rest
      else
        t <- topic_for inputs ipt ;;
        collect_topics inputs (topics ++ [t])%list rest
  end.

(** [while topics[-1] is None: topics.pop()], on the list read from its
    end; [topics[-1]] of an empty list raises [IndexError]. *)
Fixpoint pop_trailing_rev (r : list Topic) : result (list Topic) :=
  match r with
  | [] => Err IndexError
  | TNone :: r' => pop_trailing_rev r'
  | _ :: _ => Ok (rev r)
  end.

Definition pop_trailing (topics : list Topic) : result (list Topic) :=
  pop_trailing_rev (rev topics).

(** [EventABI.encode_topics] *)
Definition encode_topics (e : EventABI.t) (inputs : PyDict) : result (list Topic) :=
  let topics := [THex (keccak_hex L (text_bytes (EventABI.selector e)))] in
  topics <- collect_topics inputs topics (EventABI.inputs e) ;;
  pop_trailing topics.

End Encode.

(** A stand-in for the libraries, only to evaluate the encoders on samples:
    the "hash" prints the bytes, [string], [bytes] and types with a [[]]
    dimension are dynamic, and only text and bytes pack. *)
Definition lib0 : EthLib :=
  mkEthLib
    (fun b => "0x" ++ string_of_list_byte b)
    (fun _ v => match v with
                | VStr s => Ok (list_byte_of_string s)
                | VBytes b => Ok b
                | _ => Err EncodingError
                end)
    (fun t => Ok (String.eqb t "string" || String.eqb t "bytes" || PyStr.contains_sub "[]" t))
    (fun _ => Ok "0x7b")
    (fun _ => Ok "0x01")
    (fun _ => EmptyString).

End Topics.

(** ** contract_type.py: [ABIList] lookup by string and bytes *)
Module ABIList.

(** [is_0x_prefixed] (eth-utils): [value.startswith(("0x", "0X"))]. *)
Definition is_0x_prefixed (s : string) : bool :=
  PyStr.startswith s "0x" || PyStr.startswith s "0X".

(** The value of a hex digit, as [binascii.unhexlify] reads it. *)
Definition hex_digit (c : ascii) : option N :=
  let n := N.of_nat (nat_of_ascii c) in
  if (48 <=? n)%N && (n <=? 57)%N then Some (n - 48)%N
  else if (97 <=? n)%N && (n <=? 102)%N then Some (n - 87)%N
  else if (65 <=? n)%N && (n <=? 70)%N then Some (n - 55)%N
  else None.

Definition is_hex (c : ascii) : bool :=
  match hex_digit c with Some _ => true | None => false end.

(** Text made of hex digits only. *)
Definition hex_text (s : string) : bool := PyStr.all_chars is_hex s.

(** [binascii.unhexlify]: its [binascii.Error] is a [ValueError]. *)
Fixpoint unhexlify (s : string) : result (list Byte.byte) :=
  match s with
  | EmptyString => Ok []
  | String _ EmptyString => Err ValueError
  | String hi (String lo rest) =>
      match hex_digit hi, hex_digit lo with
      | Some h, Some l =>
          match Byte.of_N (16 * h + l) with
          | Some b => tl <- unhexlify rest ;; Ok (b :: tl)
          | None => Err ValueError
          end
      | _, _ => Err ValueError
      end
  end.

(** [HexBytes(s)] for a string (hexbytes' [hexstr_to_bytes]): drop a
    0x/0X prefix, pad with a leading "0" when [len(s)] is odd, unhexlify. *)
Definition hexstr_to_bytes (hexstr : string) : result (list Byte.byte) :=
  let non_prefixed := if is_0x_prefixed hexstr then PyStr.drop 2 hexstr else hexstr in
  let padded := if Nat.odd (String.length hexstr) then String "0"%char non_prefixed
                else non_prefixed in
  unhexlify padded.

(** [b[:n]] *)
Definition py_take {A : Type} (n : Z) (l : list A) : list A :=
  if (0 <=? n)%Z then firstn (Z.to_nat n) l
  else firstn (Z.to_nat (Z.of_nat (List.length l) + n)) l.

(** [a == b] on bytes *)
Definition bytes_eqb (a b : list Byte.byte) : bool :=
  if list_eq_dec Byte.byte_eq_dec a b then true else false.

Section Lookup.
Context {A : Type}.
Variable abi_name : A -> string.
Variable abi_selector : A -> string.

(** An [ABIList]: its entries, [_selector_id_size] and [_selector_hash_fn]. *)
Record t : Type := mk {
  items : list A;
  selector_id_size : Z;
  selector_hash_fn : option (string -> list Byte.byte)
}.

(** [next(...)], with its [StopIteration] turned into [KeyError]. *)
Definition or_key_error (o : option A) : result A :=
  match o with Some a => Ok a | None => Err KeyError end.

(** [ABIList.__getitem_bytes] *)
Definition getitem_bytes (self : t) (selector : list Byte.byte) : result A :=
  match selector_hash_fn self with
  | Some hash_fn =>
      or_key_error
        (find (fun abi => bytes_eqb (py_take (selector_id_size self) (hash_fn (abi_selector abi)))
                                    (py_take (selector_id_size self) selector))
              (items self))
  | None => Err KeyError
  end.

(** [ABIList.__getitem_str] *)
Definition getitem_str (self : t) (selector : string) : result A :=
  if PyStr.contains_sub "(" selector then
    or_key_error (find (fun abi => String.eqb (abi_selector abi) selector) (items self))
  else if is_0x_prefixed selector then
    b <- hexstr_to_bytes selector ;;
    getitem_bytes self b
  else
    or_key_error (find (fun abi => String.eqb (abi_name abi) selector) (items self)).

(** [a] is the first entry of [l] that satisfies [p]. *)
Definition first_match (p : A -> bool) (l : list A) (a : A) : Prop :=
  exists pre post, l = (pre ++ a :: post)%list /\ p a = true /\ forallb (fun x => negb (p x)) pre = true.

(** [r] is what a first-match search of [l] for [p] returns: the first
    match, or [KeyError] when no entry matches. *)
Definition lookup_spec (p : A -> bool) (l : list A) (r : result A) : Prop :=
  match r with
  | Ok a => first_match p l a
  | Err e => e = KeyError /\ forallb (fun x => negb (p x)) l = true
  end.

End Lookup.

(** A method list as [ContractType] builds it: 4-byte ids; the hash function
    is a stand-in that returns the selector's bytes. *)
Definition methods0 : t :=
  mk [transfer_m; swap_m] 4 (Some list_byte_of_string).

End ABIList.

(** ** ast.py: [ASTNode.get_node] *)
Module AST.
Import SourceMap.

(** An AST node: its [src] item (as [_validate_src] returns it) and the
    nodes [find_children] meets first below it. *)
Inductive ASTNode : Type :=
| mkNode (src : SourceMapItem) (kids : list ASTNode).

Definition node_src (n : ASTNode) : SourceMapItem :=
  match n with mkNode s _ => s end.

(** [ASTNode.children]: [find_children] yields each node it meets and then,
    through [child.children], everything below that node. *)
Fixpoint children (n : ASTNode) : list ASTNode :=
  match n with
  | mkNode _ ks =>
      (fix go (ks : list ASTNode) : list ASTNode :=
         match ks with
         | [] => []
         | k :: ks' => ((k :: children k) ++ go ks')%list
         end) ks
  end.

(** [x or 0] for an optional int *)
Definition or0 (o : option Z) : Z :=
  match o with Some z => z | None => 0%Z end.

Definition opt_Z_eqb (a b : option Z) : bool :=
  match a, b with
  | Some x, Some y => Z.eqb x y
  | None, None => true
  | _, _ => false
  end.

(** [self.src.start == src.start and (self.src.length or 0) == (src.length or 0)] *)
Definition src_matches (self_src src : SourceMapItem) : bool :=
  opt_Z_eqb (start self_src) (start src) && Z.eqb (or0 (length self_src)) (or0 (length src)).

(** [for c in cs: if node := g(c): return node]; [return None] *)
Fixpoint first_some {X Y : Type} (g : X -> option Y) (cs : list X) : option Y :=
  match cs with
  | [] => None
  | c :: cs' => match g c with Some y => Some y | None => first_some g cs' end
  end.

(** [ASTNode.get_node], with [fuel] bounding the depth of the recursion. *)
Fixpoint get_node_fuel (fuel : nat) (self : ASTNode) (src : SourceMapItem) : option ASTNode :=
  match fuel with
  | O => None
  | S f =>
      if src_matches (node_src self) src then Some self
      else first_some (fun child => get_node_fuel f child src) (children self)
  end.

(** Levels of the tree: a leaf has height 1. *)
Fixpoint height (n : ASTNode) : nat :=
  match n with
  | mkNode _ ks =>
      S ((fix go (ks : list ASTNode) : nat :=
            match ks with
            | [] => 0
            | k :: ks' => Nat.max (height k) (go ks')
            end) ks)
  end.

(** [ASTNode.get_node]: every call recurses into a strictly lower node, so
    [height self] levels of fuel are enough. *)
Definition get_node (self : ASTNode) (src : SourceMapItem) : option ASTNode :=
  get_node_fuel (height self) self src.

(** The node [self] and everything below it, in pre-order ([iter_nodes]). *)
Definition iter_nodes (self : ASTNode) : list ASTNode := self :: children self.

(** A query: a [SourceMapItem] with only a start and a length. *)
Definition range (st : Z) (ln : option Z) : SourceMapItem :=
  mkItem (Some st) ln None (VStr EmptyString).

(** A sample tree: a contract at 0..200 holding a function at 10..60 with a
    statement at 20..25, and a function at 104..112. *)
Definition stmt_n : ASTNode := mkNode (range 20 (Some 5%Z)) [].
Definition fn1_n : ASTNode := mkNode (range 10 (Some 50%Z)) [stmt_n].
Definition fn2_n : ASTNode := mkNode (range 104 (Some 8%Z)) [].
Definition contract_n : ASTNode := mkNode (range 0 (Some 200%Z)) [fn1_n; fn2_n].

End AST.

(** ** contract_type.py: membership, [get] and lookups by ABI object on an [ABIList] *)
Module ABIListOps.
Import ABIList.

Section Ops.
Context {A : Type}.
Variable abi_name : A -> string.
Variable abi_selector : A -> string.

(** [ABIList._contains]: [True] when [self[selector]] succeeds, [False] when
    it raises [KeyError] or [IndexError]; any other error propagates. *)
Definition contains_of (lookup : result A) : result bool :=
  match lookup with
  | Ok _ => Ok true
  | Err KeyError => Ok false
  | Err IndexError => Ok false
  | Err e => Err e
  end.

(** [ABIList.__contains_str] *)
Definition contains_str (self : @t A) (selector : string) : result bool :=
  contains_of (getitem_str abi_name abi_selector self selector).

(** [ABIList.__contains_bytes] *)
Definition contains_bytes (self : @t A) (selector : list Byte.byte) : result bool :=
  contains_of (getitem_bytes abi_selector self selector).

(** [ABIList.get] for a [str] item: [self[item] if item in self else default]. *)
Definition get_str (self : @t A) (item : string) (default : option A) : result (option A) :=
  c <- contains_str self item ;;
  if c then (a <- getitem_str abi_name abi_selector self item ;; Ok (Some a))
  else Ok default.

(** [ABIList.__getitem_method_abi] and [__getitem_event_abi]:
    [self.__getitem__(selector.selector)]. *)
Definition getitem_method (self : @t A) (m : MethodABI.t) : result A :=
  getitem_str abi_name abi_selector self (MethodABI.selector m).
Definition getitem_event (self : @t A) (e : EventABI.t) : result A :=
  getitem_str abi_name abi_selector self (EventABI.selector e).

(** [ABIList.__contains_method_abi] and [__contains_event_abi]:
    [self._contains(selector)], whose [self[selector]] dispatches as above. *)
Definition contains_method (self : @t A) (m : MethodABI.t) : result bool :=
  contains_of (getitem_method self m).
Definition contains_event (self : @t A) (e : EventABI.t) : result bool :=
  contains_of (getitem_event self e).

End Ops.
End ABIListOps.

(** ** contract_type.py: [ContractType]'s method, event and error lists *)
Module Contract.

(** An entry of [ContractType.abi], one constructor per class of the [ABI]
    union: a constructor's [stateMutability] and [inputs], a fallback's and a
    receive's [stateMutability], a struct's [name] and [members], an
    [UnprocessedABI]'s [type]. *)
Inductive ABI : Type :=
| AConstructor (stateMutability : string) (inputs : list ABIType)
| AFallback (stateMutability : string)
| AReceive (stateMutability : string)
| AMethod (m : MethodABI.t)
| AEvent (e : EventABI.t)
| AError (e : ErrorABI.t)
| AStruct (name : string) (members : list ABIType)
| AUnprocessed (type : string).

(** [MethodABI.is_stateful]: [self.stateMutability not in ("view", "pure")] *)
Definition is_stateful (m : MethodABI.t) : bool :=
  negb (String.eqb (MethodABI.stateMutability m) "view"
        || String.eqb (MethodABI.stateMutability m) "pure").

(** [[abi for abi in l if filter_fn(abi)]], where [sel] is the filter and the
    [isinstance] narrowing in one: [sel abi = Some y] keeps [abi] as [y]. *)
Fixpoint select {X Y : Type} (sel : X -> option Y) (l : list X) : list Y :=
  match l with
  | [] => []
  | x :: xs => match sel x with
               | Some y => y :: select sel xs
               | None => select sel xs
               end
  end.

Section Views.
(** [ContractType._selector_hash_fn]: [keccak(text=selector)]. *)
Variable selector_hash_fn : string -> list Byte.byte.

(** [ContractType._get_abis] over [self.abi] *)
Definition _get_abis {X : Type} (selector_id_size : Z) (filter_fn : ABI -> option X)
    (abi : list ABI) : @ABIList.t X :=
  ABIList.mk (select filter_fn abi) selector_id_size (Some selector_hash_fn).

(** [ContractType.view_methods] *)
Definition view_methods (abi : list ABI) : @ABIList.t MethodABI.t :=
  _get_abis 4 (fun a => match a with
                        | AMethod m => if is_stateful m then None else Some m
                        | _ => None
                        end) abi.

(** [ContractType.mutable_methods] *)
Definition mutable_methods (abi : list ABI) : @ABIList.t MethodABI.t :=
  _get_abis 4 (fun a => match a with
                        | AMethod m => if is_stateful m then Some m else None
                        | _ => None
                        end) abi.

(** [ContractType.methods] *)
Definition methods (abi : list ABI) : @ABIList.t MethodABI.t :=
  _get_abis 4 (fun a => match a with AMethod m => Some m | _ => None end) abi.

(** [ContractType.events] *)
Definition events (abi : list ABI) : @ABIList.t EventABI.t :=
  _get_abis 32 (fun a => match a with AEvent e => Some e | _ => None end) abi.

(** [ContractType.errors] *)
Definition errors (abi : list ABI) : @ABIList.t ErrorABI.t :=
  _get_abis 4 (fun a => match a with AError e => Some e | _ => None end) abi.

End Views.

(** A sample ABI: a constructor, a view method, [transfer], an event and a
    pure method. *)
Definition balance_m : MethodABI.t :=
  MethodABI.mk "balanceOf" "view" [mkABIType (Some "owner") (TStr "address") None false] [uint256_t].
Definition add_m : MethodABI.t :=
  MethodABI.mk "add" "pure" [uint256_t; uint256_t] [uint256_t].
Definition abi0 : list ABI :=
  [AConstructor "nonpayable" []; AMethod balance_m; AMethod transfer_m;
   AEvent transfer_e; AMethod add_m].

End Contract.

(** ** sourcemap.py: [PCMapItem] and [PCMap] *)
Module PCMap.

(** A value stored under a pc: a dict, or any other value, which
    [__setitem__] stores as it is given. *)
Inductive RawVal : Type :=
| RDict (d : list (string * PyVal))
| RVal (v : PyVal).

(** A program counter as [__getitem__], [__setitem__] and [__contains__]
    accept it: [int] or [str]. *)
Inductive PC : Type :=
| PCInt (z : Z)
| PCStr (s : string).

(** [d.get(k)] on a dict kept as an association list with distinct keys. *)
Fixpoint assoc_get {K V : Type} (eqb : K -> K -> bool) (d : list (K * V)) (k : K) : option V :=
  match d with
  | [] => None
  | (k', v) :: d' => if eqb k' k then Some v else assoc_get eqb d' k
  end.

(** [d[k] = v]: a present key keeps its place, a new one goes last. *)
Fixpoint assoc_set {K V : Type} (eqb : K -> K -> bool) (d : list (K * V)) (k : K) (v : V)
    : list (K * V) :=
  match d with
  | [] => [(k, v)]
  | (k', v') :: d' => if eqb k' k then (k', v) :: d' else (k', v') :: assoc_set eqb d' k v
  end.

(** The decimal digits of [n], in front of [acc]; [fuel] bounds the digits. *)
Fixpoint digits_N (fuel : nat) (n : N) (acc : string) : string :=
  match fuel with
  | O => acc
  | S f =>
      let acc' := String (ascii_of_N (48 + N.modulo n 10)) acc in
      if N.eqb (N.div n 10) 0 then acc' else digits_N f (N.div n 10) acc'
  end.

(** [str(z)] for an int *)
Definition str_of_Z (z : Z) : string :=
  let n := Z.to_N (Z.abs z) in
  let ds := digits_N (S (N.size_nat n)) n EmptyString in
  if (z <? 0)%Z then "-" ++ ds else ds.

(** [str(pc)] *)
Definition pc_key (pc : PC) : string :=
  match pc with PCInt z => str_of_Z z | PCStr s => s end.

(** [PCMap.root] *)
Definition root_t : Type := list (string * RawVal).

(** [PCMap.__getitem__]: [self.root[str(pc)]] *)
Definition getitem (root : root_t) (pc : PC) : result RawVal :=
  match assoc_get String.eqb root (pc_key pc) with
  | Some v => Ok v
  | None => Err KeyError
  end.

(** [PCMap.__setitem__]: a list is wrapped as [{"location": value}]. *)
Definition setitem (root : root_t) (pc : PC) (value : RawVal) : root_t :=
  let value_dict := match value with
                    | RVal (VList l) => RDict [("location", VList l)]
                    | _ => value
                    end in
  assoc_set String.eqb root (pc_key pc) value_dict.

(** [PCMap.__contains__]: [str(pc) in self.root] *)
Definition contains (root : root_t) (pc : PC) : bool :=
  match assoc_get String.eqb root (pc_key pc) with Some _ => true | None => false end.

(** [PCMapItem] *)
Record PCMapItem : Type := mkPCMapItem {
  line_start : option Z;
  column_start : option Z;
  line_end : option Z;
  column_end : option Z;
  dev : option string
}.

(** [(x or -1)] for an optional int *)
Definition or_neg1 (o : option Z) : Z :=
  match o with
  | Some z => if Z.eqb z 0 then (-1)%Z else z
  | None => (-1)%Z
  end.

(** [PCMapItem.location] *)
Definition location (it : PCMapItem) : Z * Z * Z * Z :=
  (or_neg1 (line_start it), or_neg1 (column_start it),
   or_neg1 (line_end it), or_neg1 (column_end it)).

Section Parse.
(** [str(value)] of the Python runtime, for the [dev] field. *)
Variable py_str : PyVal -> string.

(** [value["location"]]: a missing key raises [KeyError]; a value that is
    not a dict cannot be subscripted by a string ([TypeError]). *)
Definition get_location (value : RawVal) : result PyVal :=
  match value with
  | RDict d =>
      match assoc_get String.eqb d "location" with
      | Some l => Ok l
      | None => Err KeyError
      end
  | RVal _ => Err TypeError
  end.

(** [v[i]] for [i >= 0] *)
Definition py_index (v : PyVal) (i : nat) : result PyVal :=
  match v with
  | VList l => match nth_error l i with Some x => Ok x | None => Err IndexError end
  | VStr s => match String.get i s with
              | Some c => Ok (VStr (String c EmptyString))
              | None => Err IndexError
              end
  | VBytes b => match nth_error b i with
                | Some x => Ok (VInt (Z.of_N (Byte.to_N x)))
                | None => Err IndexError
                end
  | _ => Err TypeError
  end.

(** [int(location[i]) if location[i] is not None else None] *)
Definition int_at (location : PyVal) (i : nat) : result (option Z) :=
  x <- py_index location i ;;
  match x with
  | VNone => Ok None
  | _ => z <- py_int x ;; Ok (Some z)
  end.

(** The item [PCMap.parse] builds from one value of the root. *)
Definition parse_value (value : RawVal) : result PCMapItem :=
  loc <- get_location value ;;
  let dev := match value with
             | RDict d =>
                 match assoc_get String.eqb d "dev" with
                 | None | Some VNone => None
                 | Some x => Some (py_str x)
                 end
             | RVal _ => None
             end in
  match loc with
  | VNone => Ok (mkPCMapItem None None None None dev)
  | _ =>
      a <- int_at loc 0 ;;
      b <- int_at loc 1 ;;
      c <- int_at loc 2 ;;
      e <- int_at loc 3 ;;
      Ok (mkPCMapItem a b c e dev)
  end.

(** The loop of [PCMap.parse]: [results[int(key)] = result] per entry, the
    right-hand side evaluated first. *)
Fixpoint parse_into (results : list (Z * PCMapItem)) (entries : root_t)
    : result (list (Z * PCMapItem)) :=
  match entries with
  | [] => Ok results
  | (key, value) :: rest =>
      item <- parse_value value ;;
      pc <- py_int (VStr key) ;;
      parse_into (assoc_set Z.eqb results pc item) rest
  end.

(** [PCMap.parse] *)
Definition parse (root : root_t) : result (list (Z * PCMapItem)) :=
  parse_into [] root.

End Parse.

(** [str(v)] on the values a pc map holds after validation. *)
Definition py_str0 (v : PyVal) : string :=
  match v with
  | VStr s => s
  | VInt z => str_of_Z z
  | VBool b => if b then "True" else "False"
  | VNone => "None"
  | _ => EmptyString
  end.

End PCMap.

(** [s.count(c)] for a one-character needle. *)
Fixpoint count_char (c : ascii) (s : string) : nat :=
  match s with
  | EmptyString => O
  | String d r => (if Ascii.eqb c d then 1 else 0) + count_char c r
  end.

(** ** ast.py: line numbers, [iter_nodes], [get_nodes_at_line] and
    [get_defining_function] *)
Module ASTLines.

(** An AST node as these methods see it: its [ast_type], the four fields
    [line_numbers] returns ([-1] when absent), and the nodes [find_children]
    meets first below it. *)
Inductive LNode : Type :=
| lnode (ast_type : string) (lineno col_offset end_lineno end_col_offset : Z)
        (kids : list LNode).

Definition ast_type (n : LNode) : string :=
  match n with lnode t _ _ _ _ _ => t end.

(** [ASTNode.line_numbers] *)
Definition line_numbers (n : LNode) : list Z :=
  match n with lnode _ a b c d _ => [a; b; c; d] end.

(** [ASTNode.children], as for [AST.children]. *)
Fixpoint children (n : LNode) : list LNode :=
  match n with
  | lnode _ _ _ _ _ ks =>
      (fix go (ks : list LNode) : list LNode :=
         match ks with
         | [] => []
         | k :: ks' => ((k :: children k) ++ go ks')%list
         end) ks
  end.

Fixpoint height (n : LNode) : nat :=
  match n with
  | lnode _ _ _ _ _ ks =>
      S ((fix go (ks : list LNode) : nat :=
            match ks with
            | [] => 0
            | k :: ks' => Nat.max (height k) (go ks')
            end) ks)
  end.

(** [all(x == y for x, y in zip(self.line_numbers, line_numbers))] *)
Definition line_match (self : LNode) (ln : list Z) : bool :=
  forallb (fun '(x, y) => Z.eqb x y) (combine (line_numbers self) ln).

(** [ASTNode.iter_nodes]: [self], then [node.iter_nodes()] for every node of
    [self.children]; [fuel] bounds the depth of the recursion. *)
Fixpoint iter_nodes_fuel (fuel : nat) (self : LNode) : list LNode :=
  match fuel with
  | O => []
  | S f => self :: flat_map (iter_nodes_fuel f) (children self)
  end.

(** Every call recurses into a strictly lower node, so [height self] levels
    of fuel are enough. *)
Definition iter_nodes (self : LNode) : list LNode := iter_nodes_fuel (height self) self.

(** [list(ASTNode.get_nodes_at_line(line_numbers))]: the length check runs
    before the first node is yielded. *)
Fixpoint get_nodes_at_line_fuel (fuel : nat) (self : LNode) (ln : list Z)
    : result (list LNode) :=
  if negb (Nat.eqb (List.length ln) 4) then Err ValueError
  else
    match fuel with
    | O => Ok []
    | S f =>
        rest <- map_result (fun child => get_nodes_at_line_fuel f child ln) (children self) ;;
        Ok ((if line_match self ln then [self] else []) ++ concat rest)%list
    end.

Definition get_nodes_at_line (self : LNode) (ln : list Z) : result (list LNode) :=
  get_nodes_at_line_fuel (height self) self ln.

(** [ASTNode.functions] *)
Definition functions (self : LNode) : list LNode :=
  filter (fun n => String.eqb (ast_type n) "FunctionDef") (children self).

(** The loop of [get_defining_function]: [next(gen, None)] is the first node
    the generator yields (a node is truthy) or [None]; the generator raises
    its [ValueError] at that first [next]. *)
Fixpoint first_defining (fs : list LNode) (ln : list Z) : result (option LNode) :=
  match fs with
  | [] => Ok None
  | f :: fs' =>
      gen <- get_nodes_at_line f ln ;;
      match gen with
      | _ :: _ => Ok (Some f)
      | [] => first_defining fs' ln
      end
  end.

(** [ASTNode.get_defining_function] *)
Definition get_defining_function (self : LNode) (ln : list Z) : result (option LNode) :=
  first_defining (functions self) ln.

(** A sample module: a function at lines 3-5 whose body statement at line 4
    holds an expression at line 4, and a function at lines 7-8. *)
Definition expr_l : LNode := lnode "Name" 4 8 4 9 [].
Definition stmt_l : LNode := lnode "Return" 4 4 4 9 [expr_l].
Definition f1_l : LNode := lnode "FunctionDef" 3 0 5 0 [stmt_l].
Definition f2_l : LNode := lnode "FunctionDef" 7 0 8 0 [].
Definition module_l : LNode := lnode "Module" 1 0 8 0 [f1_l; f2_l].

End ASTLines.

(** ** contract_type.py: the ids of a contract's ABI entries *)
Module ContractIds.
Import Contract.

(** [aitem.selector] of the entries that have one ([hasattr(x, "selector")]):
    constructors, methods, events, errors and structs; a fallback, a receive
    and an [UnprocessedABI] have no [selector]. *)
Definition selector_of (a : ABI) : option string :=
  match a with
  | AConstructor _ ins => Some (ConstructorABI.selector ins)
  | AMethod m => Some (MethodABI.selector m)
  | AEvent e => Some (EventABI.selector e)
  | AError e => Some (ErrorABI.selector e)
  | AStruct n ms => Some (StructABI.selector n ms)
  | AFallback _ | AReceive _ | AUnprocessed _ => None
  end.

(** A dict comprehension [{k: v for ...}] over the pairs in order: a repeated
    key keeps its first place and takes the last value. *)
Definition dict_of {V : Type} (pairs : list (string * V)) : list (string * V) :=
  fold_left (fun d '(k, v) => PCMap.assoc_set String.eqb d k v) pairs [].

Section Ids.
(** [ContractType._selector_hash_fn] *)
Variable selector_hash_fn : string -> list Byte.byte.
(** [HexBytes(b).hex()] *)
Variable hex : list Byte.byte -> string.

(** [get_id] of [_abi_identifiers] *)
Definition get_id (a : ABI) (selector : string) : string :=
  match a with
  | AMethod _ | AError _ => hex (firstn 4 (selector_hash_fn selector))
  | _ => hex (selector_hash_fn selector)
  end.

(** [ContractType._abi_identifiers] *)
Definition _abi_identifiers (abi : list ABI) : list (ABI * string) :=
  select (fun a => match selector_of a with
                   | Some s => Some (a, get_id a s)
                   | None => None
                   end) abi.

(** [ContractType.selector_identifiers]: [atype.selector] exists for every
    entry of [_abi_identifiers]. *)
Definition selector_identifiers (abi : list ABI) : list (string * string) :=
  dict_of (select (fun '(a, sig) => option_map (fun s => (s, sig)) (selector_of a))
                  (_abi_identifiers abi)).

(** [ContractType.identifier_lookup]: the test [sig is not None] holds for
    every id, a [str]. *)
Definition identifier_lookup (abi : list ABI) : list (string * ABI) :=
  dict_of (map (fun '(a, sig) => (sig, a)) (_abi_identifiers abi)).

(** [ContractType.method_identifiers]: [atype.type == "function"] holds
    for the [MethodABI] entries only. *)
Definition method_identifiers (abi : list ABI) : list (string * string) :=
  dict_of (select (fun '(a, sig) => match a with
                                    | AMethod m => Some (MethodABI.selector m, sig)
                                    | _ => None
                                    end) (_abi_identifiers abi)).
End Ids.

End ContractIds.

(** ** utils.py: [stringify_dict_for_hash] *)
Module JsonHash.

(** A JSON-able value: a dict with [str] keys (distinct, as in any dict), a
    list, a [str], or another scalar ([int], [float], [bool], [None]) by the
    text [json.dumps] writes for it. *)
Inductive JVal : Type :=
| JDict (items : list (string * JVal))
| JList (l : list JVal)
| JStr (s : string)
| JOther (text : string).

(** [sorted] on the items of a dict: Python orders [str] keys by code
    point, as [String.ltb] does; the keys are distinct, so ordering the
    [(key, value)] pairs by key is [sorted(value)] with each key's value. *)
Fixpoint insert_item {X : Type} (p : string * X) (l : list (string * X)) : list (string * X) :=
  match l with
  | [] => [p]
  | q :: l' => if String.ltb (fst q) (fst p) then q :: insert_item p l' else p :: l
  end.

Definition sort_items {X : Type} (l : list (string * X)) : list (string * X) :=
  fold_right insert_item [] l.

(** [_sort]: [{k: _sort(value[k]) for k in sorted(value)}] on a dict,
    [[_sort(item) for item in value]] on a list, the value itself otherwise. *)
Fixpoint _sort (v : JVal) : JVal :=
  match v with
  | JDict items => JDict (sort_items (map (fun '(k, x) => (k, _sort x)) items))
  | JList l => JList (map _sort l)
  | JStr s => JStr s
  | JOther t => JOther t
  end.

Section Dump.
(** [json.dumps] of a [str], quotes and escapes included. *)
Variable encode_str : string -> string.

(** [json.dumps(value, separators=(",", ":"), sort_keys=True)] *)
Fixpoint dumps (v : JVal) : string :=
  match v with
  | JDict items =>
      "{" ++ PyStr.join ","
                (map snd (sort_items (map (fun '(k, x) => (k, encode_str k ++ ":" ++ dumps x)) items)))
      ++ "}"
  | JList l => "[" ++ PyStr.join "," (map dumps l) ++ "]"
  | JStr s => encode_str s
  | JOther t => t
  end.

(** [stringify_dict_for_hash]: [if include:] and [if exclude:] skip an
    absent or empty list. *)
Definition stringify_dict_for_hash (data : list (string * JVal))
    (include exclude : option (list string)) : string :=
  let data := match include with
              | Some ((_ :: _) as inc) => filter (fun kv => existsb (String.eqb (fst kv)) inc) data
              | _ => data
              end in
  let data := match exclude with
              | Some ((_ :: _) as exc) => filter (fun kv => negb (existsb (String.eqb (fst kv)) exc)) data
              | _ => data
              end in
  dumps (_sort (JDict data)).
End Dump.

End JsonHash.

(** * Proofs *)

Module PyStrFacts.
Import PyStr.

Lemma str_app_nil_r : forall a, (a ++ "")%string = a.
Proof. induction a as [|c a IH]; simpl; [reflexivity | now rewrite IH]. Qed.

Lemma str_app_assoc : forall a b c, ((a ++ b) ++ c)%string = (a ++ (b ++ c))%string.
Proof. induction a as [|x a IH]; intros; simpl; [reflexivity | now rewrite IH]. Qed.

Lemma rev_str_app : forall a b, rev_str (a ++ b) = (rev_str b ++ rev_str a)%string.
Proof.
  induction a as [|c a IH]; intros b; simpl.
  - now rewrite str_app_nil_r.
  - now rewrite IH, str_app_assoc.
Qed.

Lemma rev_str_involutive : forall a, rev_str (rev_str a) = a.
Proof.
  induction a as [|c a IH]; simpl; [reflexivity|].
  rewrite rev_str_app, IH. reflexivity.
Qed.

Lemma all_chars_app : forall p a b,
  all_chars p (a ++ b) = all_chars p a && all_chars p b.
Proof.
  induction a as [|c a IH]; intros b; simpl; [reflexivity|].
  now rewrite IH, andb_assoc.
Qed.

Lemma all_chars_rev : forall p a, all_chars p (rev_str a) = all_chars p a.
Proof.
  induction a as [|c a IH]; simpl; [reflexivity|].
  rewrite all_chars_app, IH; simpl. now rewrite andb_true_r, andb_comm.
Qed.

Lemma lstrip_none : forall p s,
  all_chars (fun c => negb (p c)) s = true ->
  (s = EmptyString \/ exists c r, s = String c r /\ p c = false) ->
  lstrip_by p s = s.
Proof.
  intros p s _ [-> | (c & r & -> & Hc)]; simpl; [reflexivity|].
  now rewrite Hc.
Qed.

(** [strip] leaves a string with no whitespace unchanged. *)
Lemma strip_no_space : forall s,
  all_chars (fun c => negb (is_space c)) s = true -> strip s = s.
Proof.
  intros s H. unfold strip, strip_by, rstrip_by.
  assert (Hl : forall t, all_chars (fun c => negb (is_space c)) t = true ->
               lstrip_by is_space t = t).
  { intros [|c r] Ht; simpl; [reflexivity|].
    simpl in Ht. apply andb_prop in Ht as [Hc _].
    apply negb_true_iff in Hc. now rewrite Hc. }
  rewrite (Hl s H), (Hl (rev_str s)), rev_str_involutive; [reflexivity|].
  now rewrite all_chars_rev.
Qed.

Lemma digit_not_space : forall c, is_digit c = true -> is_space c = false.
Proof.
  intros c H. unfold is_digit, is_space in *.
  apply andb_prop in H as [H1 H2].
  apply Nat.leb_le in H1. apply Nat.leb_le in H2.
  apply orb_false_iff; split; apply andb_false_iff;
    right; apply Nat.leb_gt; lia.
Qed.

Lemma digits_val_digits : forall s acc b,
  all_chars is_digit s = true -> (s <> EmptyString \/ b = true) ->
  exists z, digits_val s acc b = Some z.
Proof.
  induction s as [|c r IH]; intros acc b H Hne; simpl.
  - destruct Hne as [Hne | ->]; [congruence | eauto].
  - simpl in H. apply andb_prop in H as [Hc Hr].
    rewrite Hc. apply IH; auto.
Qed.

(** [int(i)] succeeds on every [i] with [i.isnumeric()]. *)
Lemma isnumeric_int : forall s, isnumeric s = true ->
  exists z, py_int_of_str s = Ok z.
Proof.
  intros s H. destruct s as [|c r]; [discriminate|].
  unfold isnumeric in H.
  unfold py_int_of_str.
  rewrite strip_no_space.
  2:{ revert H. generalize (String c r) as t. induction t as [|d t IH]; simpl; [auto|].
      intros H. apply andb_prop in H as [Hd Ht].
      rewrite (digit_not_space d Hd); simpl. auto. }
  simpl in H. apply andb_prop in H as [Hc Hr].
  assert (Hm : Ascii.eqb c "-"%char = false).
  { destruct (Ascii.eqb_spec c "-"%char); [subst; discriminate | reflexivity]. }
  assert (Hp : Ascii.eqb c "+"%char = false).
  { destruct (Ascii.eqb_spec c "+"%char); [subst; discriminate | reflexivity]. }
  rewrite Hm, Hp.
  destruct (digits_val_digits (String c r) 0 false) as [z Hz].
  { simpl; now rewrite Hc, Hr. }
  { left; discriminate. }
  rewrite Hz. eauto.
Qed.

End PyStrFacts.

Module SourceMapFacts.
Import SourceMap PyStrFacts.


(** Field [k] of a row either falls back to [previous] or converts with [int]. *)
Lemma extract_value_cases : forall step k prev,
  forallb field_ok (firstn 3 (PyStr.split_char ":"%char step)) = true ->
  (k < 3)%nat ->
  _extract_value (row_of step) k prev = prev \/ int_ok (_extract_value (row_of step) k prev).
Proof.
  intros step k prev Hok Hk.
  unfold _extract_value, row_of. rewrite nth_error_map.
  destruct (nth_error (PyStr.split_char ":" step) k) as [f|] eqn:Hf; simpl; [|now left].
  assert (Hfo : field_ok f = true).
  { rewrite forallb_forall in Hok. apply Hok.
    apply nth_error_In with (n := k).
    rewrite nth_error_firstn. destruct (Nat.ltb_spec k 3); [exact Hf | lia]. }
  unfold field_ok in Hfo.
  destruct (String.eqb_spec f "") as [->|Hne]; [now left|].
  destruct (PyStr.isnumeric f) eqn:Hn.
  - destruct (isnumeric_int f) as [z Hz]; [exact Hn|].
    rewrite Hz. right. exists z. reflexivity.
  - simpl in Hfo. apply String.eqb_eq in Hfo. subst f.
    right. exists (-1)%Z. reflexivity.
Qed.

Lemma prev_int_ok : forall x, int_ok (py_or (opt_int x) (VInt (-1))).
Proof.
  intros [x|]; unfold py_or; simpl; [destruct (negb (x =? 0)%Z)|];
    eexists; reflexivity.
Qed.

Lemma first_int_ok : forall v, v = VNone \/ int_ok v -> int_ok (py_or v (VInt (-1))).
Proof.
  intros v [-> | Hv]; unfold py_or; simpl.
  - eexists; reflexivity.
  - destruct (truthy v); [exact Hv | eexists; reflexivity].
Qed.

Lemma parse_str_ok : forall step prev,
  forallb field_ok (firstn 3 (PyStr.split_char ":"%char step)) = true ->
  exists it, parse_str step prev = Ok it.
Proof.
  intros step prev Hok.
  assert (Hk : forall k pv, (k < 3)%nat -> pv = VNone \/ int_ok pv ->
               _extract_value (row_of step) k pv = VNone \/
               int_ok (_extract_value (row_of step) k pv)).
  { intros k pv Hk Hpv.
    destruct (extract_value_cases step k pv Hok Hk) as [-> | H]; auto. }
  unfold parse_str. destruct prev as [p|].
  - assert (He : forall k x, (k < 3)%nat ->
              int_ok (_extract_value (row_of step) k (py_or (opt_int x) (VInt (-1))))).
    { intros k x Hk3.
      destruct (extract_value_cases step k (py_or (opt_int x) (VInt (-1))) Hok Hk3) as [E | H];
        [rewrite E; apply prev_int_ok | exact H]. }
    destruct (He 0%nat (start p) ltac:(lia)) as [a Ha].
    destruct (He 1%nat (SourceMap.length p) ltac:(lia)) as [b Hb].
    destruct (He 2%nat (contract_id p) ltac:(lia)) as [c Hc].
    rewrite Ha; simpl. rewrite Hb; simpl. rewrite Hc; simpl.
    eexists; reflexivity.
  - destruct (first_int_ok _ (Hk 0%nat VNone ltac:(lia) (or_introl eq_refl))) as [a Ha].
    destruct (first_int_ok _ (Hk 1%nat VNone ltac:(lia) (or_introl eq_refl))) as [b Hb].
    destruct (first_int_ok _ (Hk 2%nat VNone ltac:(lia) (or_introl eq_refl))) as [c Hc].
    rewrite Ha; simpl. rewrite Hb; simpl. rewrite Hc; simpl.
    eexists; reflexivity.
Qed.

Lemma parse_rows_ok : forall rows prev,
  forallb (fun step => forallb field_ok (firstn 3 (PyStr.split_char ":"%char step))) rows = true ->
  exists l, parse_rows rows prev = Ok l /\ List.length l = List.length rows /\
    (forall it, hd_error l = Some it -> parse_str (hd EmptyString rows) prev = Ok it).
Proof.
  induction rows as [|row rows IH]; intros prev Hok; simpl.
  - exists []. split; [reflexivity|]. split; [reflexivity|]. discriminate.
  - cbn [forallb] in Hok. apply andb_prop in Hok as [Hrow Hrows].
    destruct (parse_str_ok row prev Hrow) as [it Hit].
    destruct (IH (Some it) Hrows) as (l & Hl & Hlen & _).
    rewrite Hit; simpl. rewrite Hl; simpl.
    exists (it :: l). split; [reflexivity|]. split; [simpl; now rewrite Hlen|].
    intros it' H. simpl in H. injection H as <-. reflexivity.
Qed.

Lemma elided_extract : forall k step prev,
  elided k step = true -> _extract_value (row_of step) k prev = prev.
Proof.
  intros k step prev H. unfold elided in H. unfold _extract_value, row_of.
  rewrite nth_error_map.
  destruct (nth_error (PyStr.split_char ":" step) k) as [f|]; [|reflexivity].
  apply String.eqb_eq in H. subst f. reflexivity.
Qed.

(** On the first step (no previous record) an elided field is unset. *)
Lemma first_step_elided : forall step it,
  parse_str step None = Ok it ->
  (elided 0 step = true -> start it = None) /\
  (elided 1 step = true -> SourceMap.length it = None) /\
  (elided 2 step = true -> contract_id it = None) /\
  (elided 3 step = true -> jump_code it = VStr "").
Proof.
  intros step it H. unfold parse_str in H.
  destruct (py_int (py_or (_extract_value (row_of step) 0 VNone) (VInt (-1)))) as [a|e] eqn:Ea;
    simpl in H; [|discriminate].
  destruct (py_int (py_or (_extract_value (row_of step) 1 VNone) (VInt (-1)))) as [b|e] eqn:Eb;
    simpl in H; [|discriminate].
  destruct (py_int (py_or (_extract_value (row_of step) 2 VNone) (VInt (-1)))) as [c|e] eqn:Ec;
    simpl in H; [|discriminate].
  injection H as <-. simpl.
  repeat split; intros He; rewrite elided_extract in * by exact He.
  - simpl in Ea. injection Ea as <-. reflexivity.
  - simpl in Eb. injection Eb as <-. reflexivity.
  - simpl in Ec. injection Ec as <-. reflexivity.
  - reflexivity.
Qed.

End SourceMapFacts.

Module SourceMapClaims.
Local Open Scope Z_scope.
Import SourceMap SourceMapFacts.

(** C1 (copy-forward): on ["4:5:6:-;;;"] the decoder yields four equal
    records [{start:4, length:5, source_id:6, jump_code:"-"}]; but on
    ["1:2:3:a;0:2:3:a;"] the third (empty) step does not copy the previous
    [start = 0]: [previous.start or -1] turns the falsy [0] into the [-1]
    sentinel, so the copied value is [None]. *)
Theorem parse_copy_forward_zero_lost :
  SourceMap.parse "4:5:6:-;;;" =
    Ok (repeat (mkItem (Some 4) (Some 5) (Some 6) (VStr "-")) 4%nat) /\
  SourceMap.parse "1:2:3:a;0:2:3:a;" =
    Ok [mkItem (Some 1) (Some 2) (Some 3) (VStr "a");
        mkItem (Some 0) (Some 2) (Some 3) (VStr "a");
        mkItem None (Some 2) (Some 3) (VStr "a")].
Proof. split; vm_compute; reflexivity. Qed.

(** C7 (counterexample): a first step that elides its start field does not
    fail; it decodes to a record whose start is unset. *)
Lemma parse_leading_elision_no_failure :
  SourceMap.parse ":5:6:-" = Ok [mkItem None (Some 5) (Some 6) (VStr "-")].
Proof. vm_compute. reflexivity. Qed.

(** C7 (amended): decoding never fails because a field is elided. When
    every start, length and source-id field of every step is empty, a run
    of decimal digits or [-1], the decoder returns one record per
    [;]-separated step, and on the first step (no previous record) an
    elided numeric field resolves to unset ([None]) and an elided
    jump code to [""]. *)
Theorem parse_elision_never_fails : forall root,
  steps_ok root = true ->
  exists l, SourceMap.parse root = Ok l /\
    List.length l = List.length (steps root) /\
    forall it, hd_error l = Some it ->
      let first := hd EmptyString (steps root) in
      (elided 0 first = true -> start it = None) /\
      (elided 1 first = true -> SourceMap.length it = None) /\
      (elided 2 first = true -> contract_id it = None) /\
      (elided 3 first = true -> jump_code it = VStr "").
Proof.
  intros root Hok.
  destruct (parse_rows_ok (steps root) None Hok) as (l & Hl & Hlen & Hhd).
  exists l. split; [exact Hl|]. split; [exact Hlen|].
  intros it Hit. apply first_step_elided. exact (Hhd it Hit).
Qed.

Lemma parse_elision_never_fails_witness :
  steps_ok ":5:6:-;;7" = true /\
  exists l, SourceMap.parse ":5:6:-;;7" = Ok l /\
    List.length l = List.length (steps ":5:6:-;;7") /\
    forall it, hd_error l = Some it ->
      let first := hd EmptyString (steps ":5:6:-;;7") in
      (elided 0 first = true -> start it = None) /\
      (elided 1 first = true -> SourceMap.length it = None) /\
      (elided 2 first = true -> contract_id it = None) /\
      (elided 3 first = true -> jump_code it = VStr "").
Proof.
  split; [vm_compute; reflexivity|].
  apply parse_elision_never_fails. vm_compute. reflexivity.
Defined.

End SourceMapClaims.


Module SelectorClaims.
Import ABITypeM.

Lemma canonical_with_indexed : forall fl t,
  canonical_type (with_indexed fl t) = canonical_type t.
Proof. intros fl [n ty c b]. reflexivity. Qed.

Lemma map_canonical_indexed : forall l l',
  Forall2 (fun a b => exists fl, b = with_indexed fl a) l l' ->
  map canonical_type l' = map canonical_type l.
Proof.
  intros l l' H. induction H as [|a b l l' [fl ->] _ IH]; simpl; [reflexivity|].
  now rewrite canonical_with_indexed, IH.
Qed.

(** C2: the selector of a method or an error is [name(t1,...,tn)] over the
    canonical types of its inputs joined by [","] (no spaces); an event's
    selector has the same form and does not change when only the inputs'
    [indexed] flags change; [transfer(address,uint256)] for the
    [transfer] method with inputs [address, uint256]. *)
Theorem selector_shape :
  (forall m : MethodABI.t, MethodABI.selector m =
     MethodABI.name m ++ "(" ++ PyStr.join "," (map canonical_type (MethodABI.inputs m)) ++ ")") /\
  (forall e : ErrorABI.t, ErrorABI.selector e =
     ErrorABI.name e ++ "(" ++ PyStr.join "," (map canonical_type (ErrorABI.inputs e)) ++ ")") /\
  (forall e : EventABI.t, EventABI.selector e =
     EventABI.name e ++ "(" ++ PyStr.join "," (map canonical_type (EventABI.inputs e)) ++ ")") /\
  (forall nm ins ins' anon anon',
     Forall2 (fun a b => exists fl, b = with_indexed fl a) ins ins' ->
     EventABI.selector (EventABI.mk nm ins' anon') = EventABI.selector (EventABI.mk nm ins anon)) /\
  MethodABI.selector
    (MethodABI.mk "transfer" "nonpayable"
       [mkABIType (Some "to") (TStr "address") None false;
        mkABIType (Some "value") (TStr "uint256") None false] [])
  = "transfer(address,uint256)".
Proof.
  split; [reflexivity|]. split; [reflexivity|]. split; [reflexivity|].
  split; [|reflexivity].
  intros nm ins ins' anon anon' H. unfold EventABI.selector; simpl.
  now rewrite (map_canonical_indexed ins ins' H).
Qed.

(** C3: for the type ["tuple[2][]"] with components [[uint256]] the
    canonical type keeps only the last array dimension: it is
    ["(uint256)[]"], not ["(uint256)[2][]"], because the suffix is rebuilt
    from [str(self.type).split('[')[-1]]. *)
Theorem canonical_tuple_suffix_last_dim_only :
  canonical_type (mkABIType None (TStr "tuple[2][]") (Some [uint256_t]) false) = "(uint256)[]" /\
  canonical_type (mkABIType None (TStr "tuple[2][]") (Some [uint256_t]) false) <> "(uint256)[2][]".
Proof. split; vm_compute; [reflexivity | discriminate]. Qed.

End SelectorClaims.


(** ** Reading a display signature back: [parse_signature] *)
Module SigFacts.
Import PyStr Utils PyStrFacts SigDefs.


Lemma str_length_app : forall a b,
  String.length (a ++ b) = String.length a + String.length b.
Proof. induction a as [|c a IH]; intros b; simpl; auto. Qed.

Lemma all_chars_impl : forall (p q : ascii -> bool) s,
  (forall c, p c = true -> q c = true) -> all_chars p s = true -> all_chars q s = true.
Proof.
  intros p q s Hpq. induction s as [|c s IH]; simpl; auto.
  intros H. apply andb_prop in H as [H1 H2]. now rewrite (Hpq c H1), IH.
Qed.

Lemma plain_char_facts : forall c, plain_char c = true ->
  is_space c = false /\ Ascii.eqb c ","%char = false /\ Ascii.eqb c "("%char = false /\
  Ascii.eqb c ")"%char = false /\ Ascii.eqb c ">"%char = false /\ Ascii.eqb c " "%char = false.
Proof.
  intros c H. unfold plain_char in H.
  rewrite !andb_true_iff in H. destruct H as [[[[H1 H2] H3] H4] H5].
  apply negb_true_iff in H1, H2, H3, H4, H5.
  repeat split; auto.
  destruct (Ascii.eqb_spec c " "%char); [subst; vm_compute in H1; discriminate | reflexivity].
Qed.

Lemma plain_no_gt : forall s, plain s = true -> no_gt s = true.
Proof.
  intros s. apply all_chars_impl. intros c Hc.
  destruct (plain_char_facts c Hc) as (_ & _ & _ & _ & H & _). now rewrite H.
Qed.

Lemma plain_no_paren : forall s, plain s = true -> no_paren s = true.
Proof.
  intros s. apply all_chars_impl. intros c Hc.
  destruct (plain_char_facts c Hc) as (_ & _ & H & _). now rewrite H.
Qed.

Lemma plain_no_space : forall s, plain s = true -> all_chars (fun c => negb (is_space c)) s = true.
Proof.
  intros s. apply all_chars_impl. intros c Hc.
  destruct (plain_char_facts c Hc) as (H & _). now rewrite H.
Qed.

Lemma plain_no_comma : forall s, plain s = true ->
  all_chars (fun d => negb (Ascii.eqb ","%char d)) s = true.
Proof.
  intros s. apply all_chars_impl. intros c Hc.
  destruct (plain_char_facts c Hc) as (_ & H & _).
  rewrite Ascii.eqb_sym. now rewrite H.
Qed.

Lemma first_char_app : forall q a b, first_char q a = true -> first_char q (a ++ b) = true.
Proof. intros q [|c a] b H; [discriminate | exact H]. Qed.

Lemma first_char_plain : forall s, plain s = true -> s <> EmptyString ->
  first_char plain_char s = true.
Proof.
  intros [|c s] H Hne; [congruence|]. simpl in *. now apply andb_prop in H as [H _].
Qed.

Lemma first_char_rev_plain : forall s, plain s = true -> s <> EmptyString ->
  first_char plain_char (rev_str s) = true.
Proof.
  intros s H Hne. apply first_char_plain.
  - unfold plain. now rewrite all_chars_rev.
  - intros Hr. apply Hne. rewrite <- (rev_str_involutive s), Hr. reflexivity.
Qed.

(** [s[:len(a)]] and [s[len(a):]] on [a ++ b] *)
Lemma substring_app_l : forall a b, substring 0 (String.length a) (a ++ b) = a.
Proof. induction a as [|c a IH]; intros b; simpl; [now destruct b | now rewrite IH]. Qed.

Lemma substring_shift : forall a b k m,
  substring (String.length a + k) m (a ++ b) = substring k m b.
Proof. induction a as [|c a IH]; intros; simpl; auto. Qed.

Lemma substring_all : forall b, substring 0 (String.length b) b = b.
Proof.
  intros b. pose proof (substring_app_l b EmptyString) as H.
  now rewrite str_app_nil_r in H.
Qed.

Lemma drop_app : forall a b k, drop (String.length a + k) (a ++ b) = drop k b.
Proof. induction a as [|c a IH]; intros; simpl; auto. Qed.

Lemma py_slice_prefix : forall a b,
  py_slice (a ++ b) None (Some (Z.of_nat (String.length a))) = a.
Proof.
  intros a b. unfold py_slice, slice_bound. rewrite str_length_app.
  replace (Z.of_nat (String.length a) <? 0)%Z with false by (symmetry; apply Z.ltb_ge; lia).
  replace (Z.to_nat (Z.min (Z.of_nat (String.length a)) (Z.of_nat (String.length a + String.length b))))
    with (String.length a) by lia.
  rewrite Nat.sub_0_r. apply substring_app_l.
Qed.

Lemma py_slice_suffix : forall a b,
  py_slice (a ++ b) (Some (Z.of_nat (String.length a))) None = b.
Proof.
  intros a b. unfold py_slice, slice_bound. rewrite str_length_app.
  replace (Z.of_nat (String.length a) <? 0)%Z with false by (symmetry; apply Z.ltb_ge; lia).
  replace (Z.to_nat (Z.min (Z.of_nat (String.length a)) (Z.of_nat (String.length a + String.length b))))
    with (String.length a) by lia.
  replace (String.length a + String.length b - String.length a) with (String.length b) by lia.
  rewrite <- (Nat.add_0_r (String.length a)) at 1.
  rewrite substring_shift. apply substring_all.
Qed.

(** [s.strip()[1:-1]] on ["(" ++ ins ++ ")"] *)
Lemma py_slice_inner : forall ins,
  py_slice (String "("%char (ins ++ ")")) (Some 1%Z) (Some (-1)%Z) = ins.
Proof.
  intros ins. unfold py_slice, slice_bound. cbn [String.length].
  rewrite str_length_app. cbn [String.length].
  replace (1 <? 0)%Z with false by reflexivity.
  replace (-1 <? 0)%Z with true by reflexivity.
  replace (Z.to_nat (Z.min 1 (Z.of_nat (S (String.length ins + 1))))) with 1 by lia.
  replace (Z.to_nat (Z.max 0 (-1 + Z.of_nat (S (String.length ins + 1))))) with (String.length ins + 1) by lia.
  replace (String.length ins + 1 - 1) with (String.length ins) by lia.
  cbn [substring]. apply substring_app_l.
Qed.

Lemma strip_by_fixed : forall p s,
  first_char (fun c => negb (p c)) s = true ->
  first_char (fun c => negb (p c)) (rev_str s) = true ->
  strip_by p s = s.
Proof.
  intros p s H1 H2. unfold strip_by, rstrip_by.
  assert (Hl : forall t, first_char (fun c => negb (p c)) t = true -> lstrip_by p t = t).
  { intros [|c t] Ht; [reflexivity|]. simpl in *. apply negb_true_iff in Ht. now rewrite Ht. }
  rewrite (Hl s H1), (Hl _ H2). apply rev_str_involutive.
Qed.

Lemma plain_not_paren : forall c, plain_char c = true -> negb (is_paren c) = true.
Proof.
  intros c Hc. destruct (plain_char_facts c Hc) as (_ & _ & H1 & H2 & _).
  unfold is_paren. now rewrite H1, H2.
Qed.

Lemma plain_not_space : forall c, plain_char c = true -> negb (is_space c) = true.
Proof. intros c Hc. destruct (plain_char_facts c Hc) as (H & _). now rewrite H. Qed.

Lemma first_char_impl : forall (p q : ascii -> bool) s,
  (forall c, p c = true -> q c = true) -> first_char p s = true -> first_char q s = true.
Proof. intros p q [|c s] H; simpl; auto. Qed.

(** A plain non-empty string is left alone by [strip()]. *)
Lemma strip_plain : forall s, plain s = true -> strip s = s.
Proof. intros s H. apply strip_no_space, plain_no_space, H. Qed.

(** [(" " + t).strip() == t] for plain non-empty [t] *)
Lemma strip_space_plain : forall t, plain t = true -> t <> EmptyString ->
  strip (String " "%char t) = t.
Proof.
  intros t H Hne. unfold strip, strip_by.
  change (lstrip_by is_space (String " "%char t)) with (lstrip_by is_space t).
  fold (strip_by is_space t). fold (strip t). now apply strip_plain.
Qed.

(** [s.find(sub)] when [sub] cannot occur in [s]. *)
Lemma prefix_app_decomp : forall p s, String.prefix p s = true -> exists t, s = p ++ t.
Proof.
  induction p as [|a p IH]; intros s H; [exists s; reflexivity|].
  destruct s as [|b s]; [discriminate|]. simpl in H.
  destruct (ascii_dec a b); [subst|discriminate].
  destruct (IH s H) as [t ->]. exists t. reflexivity.
Qed.

Lemma prefix_app : forall p t, String.prefix p (p ++ t) = true.
Proof.
  induction p as [|a p IH]; intros t; simpl; [now destruct t|].
  destruct (ascii_dec a a); [apply IH | congruence].
Qed.

Lemma find_sub_none : forall q sub s,
  all_chars q s = true -> all_chars q sub = false -> find_sub sub s = None.
Proof.
  intros q sub s. induction s as [|c s IH]; intros Hs Hsub;
    unfold find_sub; fold find_sub.
  - destruct sub; [discriminate | reflexivity].
  - destruct (String.prefix sub (String c s)) eqn:E.
    + destruct (prefix_app_decomp _ _ E) as [t Ht].
      rewrite Ht, all_chars_app, Hsub in Hs. discriminate.
    + simpl in Hs. apply andb_prop in Hs as [_ Hs]. now rewrite IH.
Qed.

(** No [" -> "] starts inside [x ++ ")"] when [x] has no [">"]. *)
Lemma arrow_not_prefix : forall x t, no_gt x = true ->
  String.prefix " -> " (x ++ ")" ++ t) = false.
Proof.
  intros x t H.
  destruct (String.prefix " -> " (x ++ ")" ++ t)) eqn:E; [|reflexivity].
  apply prefix_app_decomp in E as [u Hu]. exfalso.
  destruct x as [|c1 [|c2 [|c3 x]]]; simpl in Hu; inversion Hu; subst.
  unfold no_gt in H. simpl in H. discriminate.
Qed.

Lemma find_sub_cons : forall sub c r, find_sub sub (String c r) =
  if String.prefix sub (String c r) then Some O else option_map S (find_sub sub r).
Proof. reflexivity. Qed.

Lemma find_sub_prefix : forall sub s, String.prefix sub s = true -> find_sub sub s = Some O.
Proof.
  intros sub [|c r] H.
  - change (find_sub sub "") with (if String.prefix sub "" then Some O else None).
    now rewrite H.
  - now rewrite find_sub_cons, H.
Qed.

Lemma find_arrow : forall x b, no_gt x = true ->
  find_sub " -> " (x ++ ")" ++ " -> " ++ b) = Some (String.length x + 1).
Proof.
  induction x as [|c x IH]; intros b H.
  - change ("" ++ ")" ++ " -> " ++ b) with (String ")" (" -> " ++ b)).
    rewrite find_sub_cons.
    replace (String.prefix " -> " (String ")" (" -> " ++ b))) with false
      by (symmetry; exact (arrow_not_prefix "" (" -> " ++ b) eq_refl)).
    rewrite find_sub_prefix by apply prefix_app. reflexivity.
  - change (String c x ++ ")" ++ " -> " ++ b) with (String c (x ++ ")" ++ " -> " ++ b)).
    rewrite find_sub_cons.
    replace (String.prefix " -> " (String c (x ++ ")" ++ " -> " ++ b))) with false
      by (symmetry; exact (arrow_not_prefix (String c x) (" -> " ++ b) H)).
    unfold no_gt in H. simpl in H. apply andb_prop in H as [_ H].
    rewrite IH by exact H. reflexivity.
Qed.

Lemma find_paren : forall nm r, no_paren nm = true ->
  find_sub "(" (nm ++ "(" ++ r) = Some (String.length nm).
Proof.
  induction nm as [|c nm IH]; intros r H.
  - exact (find_sub_prefix _ _ (prefix_app "(" r)).
  - unfold no_paren in H. simpl in H. apply andb_prop in H as [Hc H].
    change (String c nm ++ "(" ++ r) with (String c (nm ++ "(" ++ r)).
    rewrite find_sub_cons.
    destruct (String.prefix "(" (String c (nm ++ "(" ++ r))) eqn:E.
    + apply prefix_app_decomp in E as [t Ht]. inversion Ht; subst. discriminate.
    + rewrite IH by exact H. reflexivity.
Qed.

(** [s.split(",")] *)
Lemma split_char_none : forall c s,
  all_chars (fun d => negb (Ascii.eqb c d)) s = true -> split_char c s = [s].
Proof.
  intros c. induction s as [|d s IH]; simpl; [reflexivity|].
  intros H. apply andb_prop in H as [Hd H]. apply negb_true_iff in Hd.
  rewrite Hd, IH by exact H. reflexivity.
Qed.

Lemma split_char_app : forall c a r,
  all_chars (fun d => negb (Ascii.eqb c d)) a = true ->
  split_char c (a ++ String c r) = a :: split_char c r.
Proof.
  intros c. induction a as [|d a IH]; intros r H; simpl.
  - now rewrite Ascii.eqb_refl.
  - apply andb_prop in H as [Hd H]. apply negb_true_iff in Hd.
    rewrite Hd, IH by exact H. reflexivity.
Qed.

Lemma split_char_cons_ne : forall c d r, Ascii.eqb c d = false ->
  split_char c (String d r) =
  match split_char c r with w :: ws => String d w :: ws | [] => [String d EmptyString] end.
Proof. intros c d r H. simpl. now rewrite H. Qed.

Lemma split_join : forall Ts T, plain T = true -> forallb plain Ts = true ->
  split_char ","%char (join ", " (T :: Ts)) = T :: map (String " "%char) Ts.
Proof.
  induction Ts as [|T' Ts IH]; intros T HT HTs.
  - simpl. apply split_char_none, plain_no_comma, HT.
  - simpl in HTs. apply andb_prop in HTs as [HT' HTs].
    change (join ", " (T :: T' :: Ts)) with (T ++ String ","%char (String " "%char (join ", " (T' :: Ts)))).
    rewrite split_char_app by (apply plain_no_comma, HT).
    rewrite split_char_cons_ne by reflexivity.
    rewrite (IH T' HT' HTs). reflexivity.
Qed.

Lemma join_first : forall sep T Ts, exists r, join sep (T :: Ts) = T ++ r.
Proof.
  intros sep T [|T' Ts]; [exists EmptyString; simpl; now rewrite str_app_nil_r|].
  eexists. reflexivity.
Qed.

Lemma join_last : forall sep Ts T, exists r, join sep (T :: Ts) = r ++ List.last (T :: Ts) EmptyString.
Proof.
  intros sep. induction Ts as [|T' Ts IH]; intros T.
  - exists EmptyString. reflexivity.
  - destruct (IH T') as [r Hr].
    exists (T ++ sep ++ r).
    change (join sep (T :: T' :: Ts)) with (T ++ sep ++ join sep (T' :: Ts)).
    rewrite Hr, !str_app_assoc. reflexivity.
Qed.

Lemma last_In : forall (l : list string) d, In (List.last (d :: l) EmptyString) (d :: l).
Proof.
  induction l as [|x l IH]; intros d; simpl; [auto|].
  destruct l as [|y l]; [auto|]. right. apply IH.
Qed.

End SigFacts.

(** ** The character loop of [_parse_signature_inputs], one input at a time *)
Module SigLoop.
Import PyStr Utils PyStrFacts SigFacts SigDefs.

Lemma loop_plain_type : forall T rest fuel res ty idx nm,
  plain T = true -> String.length (T ++ rest) < fuel ->
  loop fuel res ty idx nm WType (T ++ rest) =
  loop (fuel - String.length T) res (ty ++ T) idx nm WType rest.
Proof.
  induction T as [|c T IH]; intros rest fuel res ty idx nm HT Hf.
  - simpl. now rewrite Nat.sub_0_r, str_app_nil_r.
  - unfold plain in HT. simpl in HT. apply andb_prop in HT as [Hc HT].
    destruct (plain_char_facts c Hc) as (_ & H1 & H2 & _ & _ & H6).
    destruct fuel as [|f]; [simpl in Hf; lia|].
    change (String c T ++ rest) with (String c (T ++ rest)).
    cbn [loop]. rewrite H1, H6, H2.
    rewrite IH by (exact HT || (simpl in Hf; lia)).
    rewrite str_app_assoc. reflexivity.
Qed.

Lemma loop_plain_name : forall N rest fuel res ty idx nm,
  plain N = true -> String.length (N ++ rest) < fuel ->
  loop fuel res ty idx nm WName (N ++ rest) =
  loop (fuel - String.length N) res ty idx (nm ++ N) WName rest.
Proof.
  induction N as [|c N IH]; intros rest fuel res ty idx nm HN Hf.
  - simpl. now rewrite Nat.sub_0_r, str_app_nil_r.
  - unfold plain in HN. simpl in HN. apply andb_prop in HN as [Hc HN].
    destruct (plain_char_facts c Hc) as (_ & H1 & H2 & _ & _ & H6).
    destruct fuel as [|f]; [simpl in Hf; lia|].
    change (String c N ++ rest) with (String c (N ++ rest)).
    cbn [loop]. rewrite H1, H6, H2.
    rewrite IH by (exact HN || (simpl in Hf; lia)).
    rewrite str_app_assoc. reflexivity.
Qed.


Lemma after_close_decomp : forall r suf, after_close r = Some suf ->
  exists inner, r = inner ++ ")" ++ suf /\ inner_chars inner = true.
Proof.
  induction r as [|c r IH]; intros suf H; simpl in H; [discriminate|].
  destruct (Ascii.eqb c ")"%char) eqn:E1.
  - apply Ascii.eqb_eq in E1. subst. inversion H; subst.
    exists EmptyString. split; reflexivity.
  - destruct (Ascii.eqb c ">"%char) eqn:E2; [discriminate|].
    destruct (IH suf H) as (inner & -> & Hi).
    exists (String c inner). split; [reflexivity|].
    unfold inner_chars. simpl. rewrite E1, E2. exact Hi.
Qed.

Lemma tuple_ok_decomp : forall t, tuple_ok t = true ->
  exists inner suf, t = "(" ++ inner ++ ")" ++ suf /\ inner_chars inner = true /\ plain suf = true.
Proof.
  intros [|c r] H; [discriminate|]. simpl in H.
  apply andb_prop in H as [Hc H]. apply Ascii.eqb_eq in Hc. subst.
  destruct (after_close r) as [suf|] eqn:E; [|discriminate].
  destruct (after_close_decomp r suf E) as (inner & -> & Hi).
  exists inner, suf. auto.
Qed.

Lemma read_tuple_ok : forall inner rest acc, inner_chars inner = true ->
  read_tuple (inner ++ ")" ++ rest) acc = Ok (acc ++ inner ++ ")", rest).
Proof.
  induction inner as [|c inner IH]; intros rest acc H.
  - reflexivity.
  - unfold inner_chars in H. simpl in H.
    destruct (Ascii.eqb c ")"%char) eqn:E; [discriminate|].
    simpl in H. apply andb_prop in H as [_ H].
    change (String c inner ++ ")" ++ rest) with (String c (inner ++ ")" ++ rest)).
    cbn [read_tuple]. rewrite E. rewrite IH by exact H.
    rewrite str_app_assoc. reflexivity.
Qed.

Lemma loop_tuple : forall inner rest fuel res ty idx nm wo,
  inner_chars inner = true -> String.length ("(" ++ inner ++ ")" ++ rest) < fuel ->
  loop fuel res ty idx nm wo ("(" ++ inner ++ ")" ++ rest) =
  loop (fuel - 1) res ("(" ++ inner ++ ")") idx nm wo rest.
Proof.
  intros inner rest fuel res ty idx nm wo Hi Hf.
  destruct fuel as [|f]; [simpl in Hf; lia|].
  change ("(" ++ inner ++ ")" ++ rest) with (String "("%char (inner ++ ")" ++ rest)).
  cbn [loop]. rewrite (read_tuple_ok inner rest "(" Hi).
  simpl. now rewrite Nat.sub_0_r.
Qed.

Lemma simple_type_cases : forall t, simple_type t = true ->
  (t <> EmptyString /\ plain t = true) \/
  (exists inner suf, t = "(" ++ inner ++ ")" ++ suf /\ inner_chars inner = true /\ plain suf = true).
Proof.
  intros t H. unfold simple_type in H. apply orb_prop in H as [H|H].
  - left. apply andb_prop in H as [H1 H2]. split; [|exact H2].
    intros ->. discriminate.
  - right. now apply tuple_ok_decomp.
Qed.

(** The first character of a simple type is neither a space nor a comma. *)
Lemma simple_type_first : forall t, simple_type t = true ->
  exists c r, t = String c r /\ Ascii.eqb c " "%char = false.
Proof.
  intros t H. destruct (simple_type_cases t H) as [[Hne Hp] | (inner & suf & -> & _)].
  - destruct t as [|c r]; [congruence|]. exists c, r. split; [reflexivity|].
    unfold plain in Hp. simpl in Hp. apply andb_prop in Hp as [Hc _].
    now destruct (plain_char_facts c Hc) as (_ & _ & _ & _ & _ & H6).
  - eexists _, _. split; reflexivity.
Qed.

Lemma simple_type_no_gt : forall t, simple_type t = true -> no_gt t = true.
Proof.
  intros t H. destruct (simple_type_cases t H) as [[_ Hp] | (inner & suf & -> & Hi & Hs)].
  - now apply plain_no_gt.
  - pose proof (plain_no_gt suf Hs) as Hg1.
    assert (no_gt inner = true) as Hg.
    { unfold no_gt. revert Hi. apply all_chars_impl. intros c Hc.
      now apply andb_prop in Hc as [_ Hc]. }
    unfold no_gt in *. rewrite !all_chars_app. simpl.
    now rewrite Hg1, Hg.
Qed.

(** Reading a type: plain characters, or one tuple then plain characters. *)
Lemma loop_type : forall T rest fuel res idx nm,
  simple_type T = true -> String.length (T ++ rest) < fuel ->
  exists fuel', String.length rest < fuel' /\
    loop fuel res EmptyString idx nm WType (T ++ rest) = loop fuel' res T idx nm WType rest.
Proof.
  intros T rest fuel res idx nm HT Hf.
  destruct (simple_type_cases T HT) as [[_ Hp] | (inner & suf & -> & Hi & Hs)].
  - exists (fuel - String.length T). split.
    + rewrite str_length_app in Hf. lia.
    + now rewrite loop_plain_type.
  - rewrite !str_app_assoc in *.
    pose proof (loop_tuple inner (suf ++ rest) fuel res EmptyString idx nm WType Hi) as Ht.
    pose proof (loop_plain_type suf rest (fuel - 1) res ("(" ++ inner ++ ")") idx nm Hs) as Hp.
    cbn [append] in *.
    rewrite (Ht Hf).
    assert (Hlen : String.length (suf ++ rest) < fuel - 1).
    { simpl in Hf. rewrite !str_length_app in Hf. simpl in Hf.
      rewrite !str_length_app in Hf |- *. lia. }
    rewrite (Hp Hlen).
    exists (fuel - 1 - String.length suf). split.
    + rewrite str_length_app in Hlen. lia.
    + rewrite str_app_assoc. reflexivity.
Qed.

(** ["indexed "] never starts at a plain name followed by the end of the
    input or a comma. *)
Lemma prefix_plain_tail : forall N p rest,
  plain N = true -> tail_ok rest ->
  all_chars (fun c => negb (Ascii.eqb c ","%char)) p = true ->
  any_char is_space p = true ->
  String.prefix p (N ++ rest) = false.
Proof.
  induction N as [|c N IH]; intros p rest HN Hr Hp Hs.
  - destruct p as [|a p]; [discriminate|].
    destruct Hr as [-> | [r ->]]; [reflexivity|].
    simpl. simpl in Hp. apply andb_prop in Hp as [Ha _].
    destruct (ascii_dec a ","%char) as [->|]; [discriminate | reflexivity].
  - destruct p as [|a p]; [discriminate|].
    unfold plain in HN. simpl in HN. apply andb_prop in HN as [Hc HN].
    change (String c N ++ rest) with (String c (N ++ rest)). simpl.
    destruct (ascii_dec a c) as [->|]; [|reflexivity].
    simpl in Hp, Hs. apply andb_prop in Hp as [_ Hp].
    destruct (plain_char_facts c Hc) as (Hsp & _).
    rewrite Hsp in Hs. simpl in Hs.
    now apply IH.
Qed.

Lemma prefix_indexed_plain : forall N rest, plain N = true -> tail_ok rest ->
  String.prefix "indexed " (N ++ rest) = false.
Proof. intros N rest HN Hr. apply prefix_plain_tail; auto. Qed.

Lemma name_truthy_some : forall n s, ABITypeM.name_truthy n = Some s -> n = Some s.
Proof.
  intros [n|] s H; simpl in H; [|discriminate].
  destruct (String.eqb n "") eqn:E; [discriminate|]. congruence.
Qed.

Lemma name_plain : forall i s, name_ok (ABITypeM.name i) = true ->
  ABITypeM.name_truthy (ABITypeM.name i) = Some s -> plain s = true.
Proof.
  intros i s Hok Hn. apply name_truthy_some in Hn. rewrite Hn in Hok. exact Hok.
Qed.

(** A named input: the space switches to the name, which is then read. *)
Lemma loop_space_name : forall T N rest fuel res idx,
  plain N = true -> tail_ok rest -> String.length (N ++ rest) < fuel ->
  loop (S fuel) res T idx EmptyString WType (String " "%char (N ++ rest)) =
  loop (fuel - String.length N) res T idx N WName rest.
Proof.
  intros T N rest fuel res idx HN Hr Hf.
  cbn [loop]. simpl Ascii.eqb.
  rewrite prefix_indexed_plain by assumption.
  now rewrite loop_plain_name.
Qed.

(** [" indexed "] after a type: the flag is set and the name follows. *)
Lemma loop_indexed : forall f res T idx nm wo X,
  loop (S f) res T idx nm wo (String " "%char ("indexed " ++ X)) =
  loop f res T "indexed" nm WName X.
Proof. intros f res T idx nm wo [|c X]; reflexivity. Qed.

(** One [ABIType.signature] chunk of a method signature. *)
Lemma loop_input : forall i rest fuel res,
  input_ok i = true -> tail_ok rest ->
  String.length (ABITypeM.signature i ++ rest) < fuel ->
  exists fuel' wo, String.length rest < fuel' /\
    loop fuel res EmptyString EmptyString EmptyString WType (ABITypeM.signature i ++ rest) =
    loop fuel' res (ABITypeM.canonical_type i) EmptyString (name_or_empty i) wo rest.
Proof.
  intros i rest fuel res Hok Hr Hf.
  unfold input_ok in Hok. apply andb_prop in Hok as [HT Hn].
  unfold ABITypeM.signature, name_or_empty in *.
  destruct (ABITypeM.name_truthy (ABITypeM.name i)) as [N|] eqn:E.
  - pose proof (name_plain i N Hn E) as HN.
    rewrite str_app_assoc in *.
    destruct (loop_type (ABITypeM.canonical_type i) ((" " ++ N) ++ rest) fuel res
                EmptyString EmptyString HT Hf) as (f1 & Hf1 & Hl).
    rewrite Hl. cbn [append] in *.
    destruct f1 as [|f2]; [simpl in Hf1; lia|].
    rewrite loop_space_name by (auto; simpl in Hf1; lia).
    exists (f2 - String.length N), WName. split.
    + simpl in Hf1. rewrite str_length_app in Hf1. lia.
    + reflexivity.
  - destruct (loop_type _ rest fuel res EmptyString EmptyString HT Hf) as (f1 & Hf1 & Hl).
    exists f1, WType. auto.
Qed.

(** One [EventABIType.signature] chunk of an event signature. *)
Lemma loop_event_input : forall i rest fuel res,
  event_input_ok i = true -> tail_ok rest ->
  String.length (ABITypeM.event_signature i ++ rest) < fuel ->
  exists fuel' wo, String.length rest < fuel' /\
    loop fuel res EmptyString EmptyString EmptyString WType (ABITypeM.event_signature i ++ rest) =
    loop fuel' res (ABITypeM.canonical_type i)
         (if ABITypeM.indexed i then "indexed" else EmptyString) (name_or_empty i) wo rest.
Proof.
  intros i rest fuel res Hok Hr Hf.
  unfold event_input_ok, input_ok in Hok.
  apply andb_prop in Hok as [Hok Hix]. apply andb_prop in Hok as [HT Hn].
  unfold ABITypeM.event_signature, name_or_empty in *.
  destruct (ABITypeM.name_truthy (ABITypeM.name i)) as [N|] eqn:E;
    destruct (ABITypeM.indexed i); simpl in Hix; try discriminate.
  - pose proof (name_plain i N Hn E) as HN.
    rewrite !str_app_assoc in *.
    destruct (loop_type (ABITypeM.canonical_type i) (" indexed" ++ " " ++ N ++ rest) fuel res
                EmptyString EmptyString HT Hf) as (f1 & Hf1 & Hl).
    rewrite Hl.
    destruct f1 as [|f2]; [simpl in Hf1; lia|].
    change (" indexed" ++ " " ++ N ++ rest) with (String " "%char ("indexed " ++ N ++ rest)) in *.
    rewrite loop_indexed.
    simpl in Hf1.
    rewrite loop_plain_name by (auto; lia).
    exists (f2 - String.length N), WName. split.
    + rewrite str_length_app in Hf1. lia.
    + reflexivity.
  - pose proof (name_plain i N Hn E) as HN.
    rewrite str_app_assoc in *.
    destruct (loop_type (ABITypeM.canonical_type i) ((" " ++ N) ++ rest) fuel res
                EmptyString EmptyString HT Hf) as (f1 & Hf1 & Hl).
    rewrite Hl. cbn [append] in *.
    destruct f1 as [|f2]; [simpl in Hf1; lia|].
    rewrite loop_space_name by (auto; simpl in Hf1; lia).
    exists (f2 - String.length N), WName. split.
    + simpl in Hf1. rewrite str_length_app in Hf1. lia.
    + reflexivity.
  - destruct (loop_type _ rest fuel res EmptyString EmptyString HT Hf) as (f1 & Hf1 & Hl).
    exists f1, WType. auto.
Qed.

End SigLoop.

(** ** [parse_signature] on a whole display signature *)
Module SigParse.
Import PyStr Utils PyStrFacts SigFacts SigLoop SigDefs.

Lemma loop_end : forall f res T idx nm wo, String.eqb T EmptyString = false ->
  loop (S f) res T idx nm wo EmptyString = Ok (res ++ [(T, idx, nm)])%list.
Proof. intros f res T idx nm wo H. simpl. now rewrite H. Qed.

Lemma loop_comma : forall f res T idx nm wo c r, Ascii.eqb c " "%char = false ->
  loop (S f) res T idx nm wo (String ","%char (String " "%char (String c r))) =
  loop f (res ++ [(T, idx, nm)])%list EmptyString EmptyString EmptyString WType (String c r).
Proof.
  intros f res T idx nm wo c r H.
  cbn [loop]. rewrite Ascii.eqb_refl. cbn [skip_spaces].
  rewrite Ascii.eqb_refl. cbn [skip_spaces]. rewrite H. reflexivity.
Qed.

Section Inputs.
Variable sigf : ABIType -> string.
Variable okf : ABIType -> bool.
Variable tripf : ABIType -> triple.
Hypothesis chunk : forall i rest fuel res,
  okf i = true -> tail_ok rest -> String.length (sigf i ++ rest) < fuel ->
  exists fuel' wo, String.length rest < fuel' /\
    loop fuel res EmptyString EmptyString EmptyString WType (sigf i ++ rest) =
    loop fuel' res (fst (fst (tripf i))) (snd (fst (tripf i))) (snd (tripf i)) wo rest.
Hypothesis first_ok : forall i, okf i = true ->
  exists c r, sigf i = String c r /\ Ascii.eqb c " "%char = false.
Hypothesis type_ne : forall i, okf i = true -> String.eqb (fst (fst (tripf i))) EmptyString = false.

Lemma loop_inputs : forall l res fuel, l <> [] -> forallb okf l = true ->
  String.length (join ", " (map sigf l)) < fuel ->
  loop fuel res EmptyString EmptyString EmptyString WType (join ", " (map sigf l)) =
  Ok (res ++ map tripf l)%list.
Proof.
  induction l as [|x l IH]; intros res fuel Hne Hok Hf; [congruence|].
  simpl in Hok. apply andb_prop in Hok as [Hx Hl].
  destruct l as [|y ys].
  - change (join ", " (map sigf [x])) with (sigf x) in *.
    rewrite <- (str_app_nil_r (sigf x)) in Hf |- *.
    destruct (chunk x EmptyString fuel res Hx (or_introl eq_refl) Hf) as (f1 & wo & Hf1 & Hl1).
    rewrite Hl1. destruct f1 as [|f2]; [simpl in Hf1; lia|].
    rewrite loop_end by (apply type_ne; exact Hx).
    simpl. destruct (tripf x) as [[a b] c]. reflexivity.
  - change (join ", " (map sigf (x :: y :: ys)))
      with (sigf x ++ String ","%char (String " "%char (join ", " (map sigf (y :: ys))))) in *.
    destruct (chunk x _ fuel res Hx (or_intror (ex_intro _ _ eq_refl)) Hf)
      as (f1 & wo & Hf1 & Hl1).
    rewrite Hl1.
    assert (Hy : okf y = true) by (simpl in Hl; now apply andb_prop in Hl as [Hy _]).
    destruct (first_ok y Hy) as (c & r & Hyc & Hc).
    assert (Hj : exists r', join ", " (map sigf (y :: ys)) = String c r').
    { destruct (join_first ", " (sigf y) (map sigf ys)) as [r0 Hr0].
      change (map sigf (y :: ys)) with (sigf y :: map sigf ys).
      rewrite Hr0, Hyc. eexists; reflexivity. }
    destruct Hj as [r' Hj]. rewrite Hj in Hf1 |- *.
    destruct f1 as [|f2]; [simpl in Hf1; lia|].
    rewrite loop_comma by exact Hc.
    rewrite <- Hj. rewrite IH.
    + change (map tripf (x :: y :: ys)) with (tripf x :: map tripf (y :: ys)).
      destruct (tripf x) as [[a b] c0]. simpl. now rewrite <- app_assoc.
    + discriminate.
    + exact Hl.
    + rewrite Hj. simpl in Hf1 |- *. lia.
Qed.

Lemma parse_inputs : forall l, forallb okf l = true ->
  _parse_signature_inputs (join ", " (map sigf l)) = Ok (map tripf l).
Proof.
  intros [|x l] Hok; [reflexivity|].
  unfold _parse_signature_inputs.
  assert (Hx : okf x = true) by (simpl in Hok; now apply andb_prop in Hok as [Hx _]).
  destruct (first_ok x Hx) as (c & r & Hxc & _).
  destruct (join_first ", " (sigf x) (map sigf l)) as [r0 Hr0].
  assert (Hne : String.eqb (join ", " (map sigf (x :: l))) EmptyString = false).
  { change (map sigf (x :: l)) with (sigf x :: map sigf l).
    rewrite Hr0, Hxc. reflexivity. }
  rewrite Hne. apply loop_inputs; auto; try discriminate; lia.
Qed.
End Inputs.

Lemma no_gt_app : forall a b, no_gt (a ++ b) = no_gt a && no_gt b.
Proof. intros a b. apply all_chars_app. Qed.

Lemma no_gt_join : forall l, forallb no_gt l = true -> no_gt (join ", " l) = true.
Proof.
  induction l as [|x l IH]; intros H; [reflexivity|].
  simpl in H. apply andb_prop in H as [Hx Hl].
  destruct l as [|y l]; [exact Hx|].
  change (join ", " (x :: y :: l)) with (x ++ ", " ++ join ", " (y :: l)).
  rewrite !no_gt_app, Hx, IH by exact Hl. reflexivity.
Qed.

Lemma name_no_gt : forall i N, name_ok (ABITypeM.name i) = true ->
  ABITypeM.name_truthy (ABITypeM.name i) = Some N -> no_gt N = true.
Proof. intros i N H1 H2. apply plain_no_gt. exact (name_plain i N H1 H2). Qed.

Lemma signature_no_gt : forall i, input_ok i = true -> no_gt (ABITypeM.signature i) = true.
Proof.
  intros i H. unfold input_ok in H. apply andb_prop in H as [HT Hn].
  unfold ABITypeM.signature.
  destruct (ABITypeM.name_truthy (ABITypeM.name i)) as [N|] eqn:E.
  - rewrite !no_gt_app, simple_type_no_gt, (name_no_gt i N Hn E) by exact HT. reflexivity.
  - now apply simple_type_no_gt.
Qed.

Lemma event_signature_no_gt : forall i, event_input_ok i = true ->
  no_gt (ABITypeM.event_signature i) = true.
Proof.
  intros i H. unfold event_input_ok, input_ok in H.
  apply andb_prop in H as [H _]. apply andb_prop in H as [HT Hn].
  unfold ABITypeM.event_signature.
  pose proof (simple_type_no_gt _ HT) as HgT.
  destruct (ABITypeM.name_truthy (ABITypeM.name i)) as [N|] eqn:E;
    destruct (ABITypeM.indexed i);
    rewrite ?no_gt_app, ?HgT, ?(name_no_gt i N Hn E); reflexivity.
Qed.

Lemma forallb_no_gt : forall (f : ABIType -> string) (ok : ABIType -> bool) l,
  (forall i, ok i = true -> no_gt (f i) = true) ->
  forallb ok l = true -> forallb no_gt (map f l) = true.
Proof.
  intros f ok l Hf. induction l as [|x l IH]; simpl; [reflexivity|].
  intros H. apply andb_prop in H as [Hx Hl]. now rewrite Hf, IH.
Qed.

Lemma lstrip_first : forall p s, first_char (fun c => negb (p c)) s = true -> lstrip_by p s = s.
Proof.
  intros p [|c s] H; [reflexivity|]. simpl in *. apply negb_true_iff in H. now rewrite H.
Qed.

(** The part before the [" -> "]: name, then the text between the parentheses. *)
Lemma std_sig_parts : forall nm ins, plain nm = true ->
  py_find "(" (nm ++ "(" ++ ins ++ ")") = Z.of_nat (String.length nm) /\
  strip (py_slice (nm ++ "(" ++ ins ++ ")") None (Some (Z.of_nat (String.length nm)))) = nm /\
  py_slice (strip (py_slice (nm ++ "(" ++ ins ++ ")") (Some (Z.of_nat (String.length nm))) None))
           (Some 1%Z) (Some (-1)%Z) = ins.
Proof.
  intros nm ins Hnm. split; [|split].
  - unfold py_find. now rewrite find_paren by (apply plain_no_paren, Hnm).
  - rewrite py_slice_prefix. now apply strip_plain.
  - rewrite py_slice_suffix.
    assert (Hs : strip ("(" ++ ins ++ ")") = "(" ++ ins ++ ")").
    { unfold strip. apply strip_by_fixed; [reflexivity|].
      change ("(" ++ ins ++ ")") with (String "("%char (ins ++ ")")).
      cbn [rev_str]. rewrite rev_str_app. reflexivity. }
    rewrite Hs. apply py_slice_inner.
Qed.

Lemma split_arrow_none : forall s, no_gt s = true -> split_sub " -> " s = [s].
Proof.
  intros s H. unfold split_sub. cbn [split_sub_fuel].
  now rewrite (find_sub_none _ " -> " s H eq_refl).
Qed.

Lemma split_arrow : forall x O, no_gt x = true -> no_gt O = true ->
  split_sub " -> " (x ++ ")" ++ " -> " ++ O) = [x ++ ")"; O].
Proof.
  intros x O Hx HO. unfold split_sub. cbn [split_sub_fuel].
  rewrite find_arrow by exact Hx.
  rewrite <- str_app_assoc.
  replace (String.length x + 1) with (String.length (x ++ ")")) by (rewrite str_length_app; reflexivity).
  rewrite substring_app_l.
  rewrite drop_app. change (drop (String.length " -> ") (" -> " ++ O)) with O.
  destruct (String.length ((x ++ ")") ++ " -> " ++ O)) as [|n] eqn:En.
  { rewrite !str_length_app in En. simpl in En. lia. }
  cbn [split_sub_fuel].
  now rewrite (find_sub_none _ " -> " O HO eq_refl).
Qed.

Lemma parse_signature_noarrow : forall nm ins, plain nm = true -> no_gt ins = true ->
  parse_signature (nm ++ "(" ++ ins ++ ")") =
  (inputs <- _parse_signature_inputs ins ;; Ok (nm, inputs, [])).
Proof.
  intros nm ins Hnm Hins.
  destruct (std_sig_parts nm ins Hnm) as (H1 & H2 & H3).
  unfold parse_signature.
  rewrite split_arrow_none.
  2:{ rewrite !no_gt_app, Hins, (plain_no_gt nm Hnm). reflexivity. }
  cbv beta zeta iota delta [hd].
  rewrite H1, H2, H3. reflexivity.
Qed.

Lemma parse_signature_arrow : forall nm ins O, plain nm = true -> no_gt ins = true ->
  no_gt O = true ->
  parse_signature (nm ++ "(" ++ ins ++ ")" ++ " -> " ++ O) =
  (inputs <- _parse_signature_inputs ins ;;
   Ok (nm, inputs,
       if String.eqb O EmptyString then []
       else map strip (split_char ","%char (strip_by is_paren O)))).
Proof.
  intros nm ins O Hnm Hins HO.
  destruct (std_sig_parts nm ins Hnm) as (H1 & H2 & H3).
  unfold parse_signature.
  replace (nm ++ "(" ++ ins ++ ")" ++ " -> " ++ O)
    with ((nm ++ "(" ++ ins) ++ ")" ++ " -> " ++ O) by (now rewrite !str_app_assoc).
  rewrite split_arrow.
  2:{ rewrite !no_gt_app, Hins, (plain_no_gt nm Hnm). reflexivity. }
  2:{ exact HO. }
  cbv beta zeta iota delta [hd].
  replace ((nm ++ "(" ++ ins) ++ ")") with (nm ++ "(" ++ ins ++ ")") by (now rewrite !str_app_assoc).
  rewrite H1, H2, H3. reflexivity.
Qed.

End SigParse.

(** ** [from_signature] after [signature] *)
Module SigRoundTrip.
Import PyStr Utils PyStrFacts SigFacts SigLoop SigParse SigDefs.


Lemma out_ok_parts : forall T, out_ok T = true -> T <> EmptyString /\ plain T = true.
Proof.
  intros T H. unfold out_ok in H. apply andb_prop in H as [H1 H2]. split; [|exact H2].
  intros ->. discriminate.
Qed.

Lemma forallb_output_map : forall outs, forallb output_ok outs = true ->
  forallb out_ok (map ABITypeM.canonical_type outs) = true.
Proof. induction outs as [|o outs IH]; simpl; [reflexivity|]. intros H.
  apply andb_prop in H as [H1 H2]. change (out_ok (ABITypeM.canonical_type o) = true) in H1.
  now rewrite H1, IH.
Qed.

Lemma first_unparen : forall s, plain s = true -> s <> EmptyString ->
  first_char (fun c => negb (is_paren c)) s = true.
Proof.
  intros s H Hne. eapply first_char_impl; [apply plain_not_paren|]. now apply first_char_plain.
Qed.

Lemma first_unparen_rev : forall s, plain s = true -> s <> EmptyString ->
  first_char (fun c => negb (is_paren c)) (rev_str s) = true.
Proof.
  intros s H Hne. eapply first_char_impl; [apply plain_not_paren|]. now apply first_char_rev_plain.
Qed.

(** One output: [" -> T"] reads back as [[T]]. *)
Lemma read_one_output : forall T, out_ok T = true ->
  (if String.eqb T EmptyString then []
   else map strip (split_char ","%char (strip_by is_paren T))) = [T].
Proof.
  intros T H. pose proof H as H0. apply out_ok_parts in H0 as [Hne Hp].
  unfold out_ok in H. apply andb_prop in H as [H _]. apply negb_true_iff in H. rewrite H.
  rewrite strip_by_fixed;
    [| apply first_unparen; assumption | apply first_unparen_rev; assumption].
  rewrite split_char_none by (apply plain_no_comma, Hp).
  simpl. now rewrite strip_plain.
Qed.

(** Several outputs: [" -> (T1, T2, ...)"] reads back as [[T1; T2; ...]]. *)
Lemma read_many_outputs : forall T1 T2 Ts, forallb out_ok (T1 :: T2 :: Ts) = true ->
  (if String.eqb ("(" ++ join ", " (T1 :: T2 :: Ts) ++ ")") EmptyString then []
   else map strip (split_char ","%char (strip_by is_paren ("(" ++ join ", " (T1 :: T2 :: Ts) ++ ")"))))
  = T1 :: T2 :: Ts.
Proof.
  intros T1 T2 Ts H.
  assert (Hall : forall T, In T (T1 :: T2 :: Ts) -> T <> EmptyString /\ plain T = true).
  { intros T HT. apply out_ok_parts. rewrite forallb_forall in H. now apply H. }
  destruct (Hall T1 (or_introl eq_refl)) as [Hne1 Hp1].
  change (String.eqb ("(" ++ join ", " (T1 :: T2 :: Ts) ++ ")") EmptyString) with false.
  cbv iota.
  set (J := join ", " (T1 :: T2 :: Ts)).
  assert (HJ : strip_by is_paren ("(" ++ J ++ ")") = J).
  { unfold strip_by, rstrip_by.
    change (lstrip_by is_paren ("(" ++ J ++ ")")) with (lstrip_by is_paren (J ++ ")")).
    rewrite (lstrip_first is_paren (J ++ ")")).
    2:{ apply first_char_app. destruct (join_first ", " T1 (T2 :: Ts)) as [r Hr].
        unfold J. rewrite Hr. apply first_char_app. now apply first_unparen. }
    rewrite rev_str_app.
    change (rev_str ")" ++ rev_str J) with (String ")"%char (rev_str J)).
    change (lstrip_by is_paren (String ")"%char (rev_str J))) with (lstrip_by is_paren (rev_str J)).
    rewrite (lstrip_first is_paren (rev_str J)).
    2:{ destruct (join_last ", " (T2 :: Ts) T1) as [r Hr].
        unfold J. rewrite Hr, rev_str_app. apply first_char_app.
        destruct (Hall _ (last_In (T2 :: Ts) T1)) as [HneL HpL].
        now apply first_unparen_rev. }
    apply rev_str_involutive. }
  rewrite HJ. unfold J.
  assert (Hrest : forallb plain (T2 :: Ts) = true).
  { apply forallb_forall. intros T HT. now apply (Hall T (or_intror HT)). }
  rewrite split_join by assumption.
  cbn [map]. rewrite strip_plain by exact Hp1. f_equal.
  assert (Hmap : forall l, (forall T, In T l -> T <> EmptyString /\ plain T = true) ->
            map strip (map (String " "%char) l) = l).
  { induction l as [|T l IH]; intros Hl; [reflexivity|].
    cbn [map]. destruct (Hl T (or_introl eq_refl)) as [HneT HpT].
    rewrite strip_space_plain by assumption.
    rewrite IH; [reflexivity|]. intros T' HT'. apply Hl. now right. }
  apply (Hmap (T2 :: Ts)). intros T HT. apply Hall. now right.
Qed.

Lemma canonical_plain : forall n T b,
  ABITypeM.canonical_type (mkABIType n (TStr T) None b) = T.
Proof. intros n T b. simpl. now rewrite andb_false_r. Qed.

Lemma type_ne_of : forall i, simple_type (ABITypeM.canonical_type i) = true ->
  String.eqb (ABITypeM.canonical_type i) EmptyString = false.
Proof.
  intros i H. destruct (simple_type_first _ H) as (c & r & Hc & _). now rewrite Hc.
Qed.

Lemma parse_method_inputs : forall ins, forallb input_ok ins = true ->
  _parse_signature_inputs (join ", " (map ABITypeM.signature ins)) = Ok (map trip_m ins).
Proof.
  apply parse_inputs.
  - intros i rest fuel res Hi Hr Hf. exact (loop_input i rest fuel res Hi Hr Hf).
  - intros i Hi. unfold input_ok in Hi. apply andb_prop in Hi as [HT _].
    destruct (simple_type_first _ HT) as (c & r & Hc & Hsp).
    unfold ABITypeM.signature. rewrite Hc.
    destruct (ABITypeM.name_truthy (ABITypeM.name i)); eexists _, _; split; eauto; reflexivity.
  - intros i Hi. unfold input_ok in Hi. apply andb_prop in Hi as [HT _]. now apply type_ne_of.
Qed.

Lemma parse_event_inputs : forall ins, forallb event_input_ok ins = true ->
  _parse_signature_inputs (join ", " (map ABITypeM.event_signature ins)) = Ok (map trip_e ins).
Proof.
  apply parse_inputs.
  - intros i rest fuel res Hi Hr Hf. exact (loop_event_input i rest fuel res Hi Hr Hf).
  - intros i Hi. unfold event_input_ok, input_ok in Hi.
    apply andb_prop in Hi as [Hi _]. apply andb_prop in Hi as [HT _].
    destruct (simple_type_first _ HT) as (c & r & Hc & Hsp).
    unfold ABITypeM.event_signature. rewrite Hc.
    destruct (ABITypeM.indexed i), (ABITypeM.name_truthy (ABITypeM.name i));
      eexists _, _; split; eauto; reflexivity.
  - intros i Hi. unfold event_input_ok, input_ok in Hi.
    apply andb_prop in Hi as [Hi _]. apply andb_prop in Hi as [HT _]. now apply type_ne_of.
Qed.

Lemma method_roundtrip : forall m, method_ok m = true ->
  MethodABI.from_signature (MethodABI.signature m) =
  Ok (MethodABI.mk (MethodABI.name m) "nonpayable"
        (map recon_input (MethodABI.inputs m)) (map recon_output (MethodABI.outputs m))).
Proof.
  intros [nm sm ins outs] H. unfold method_ok in H.
  cbn [MethodABI.name MethodABI.inputs MethodABI.outputs] in *.
  apply andb_prop in H as [H Houts]. apply andb_prop in H as [Hnm Hins].
  pose proof (parse_method_inputs ins Hins) as Hparse.
  pose proof (no_gt_join _ (forallb_no_gt _ _ _ signature_no_gt Hins)) as Hng.
  unfold MethodABI.signature, MethodABI.from_signature.
  cbn [MethodABI.name MethodABI.inputs MethodABI.outputs].
  destruct outs as [|o1 [|o2 os]].
  - change (")" ++ EmptyString) with ")".
    rewrite parse_signature_noarrow by assumption. rewrite Hparse.
    cbn [bind]. rewrite map_map. reflexivity.
  - pose proof (forallb_output_map _ Houts) as Ho. cbn [map forallb] in Ho.
    rewrite andb_true_r in Ho.
    rewrite parse_signature_arrow.
    2: exact Hnm. 2: exact Hng.
    2:{ apply plain_no_gt. now apply out_ok_parts. }
    rewrite Hparse. cbn [bind]. rewrite read_one_output by exact Ho.
    rewrite map_map. reflexivity.
  - pose proof (forallb_output_map _ Houts) as Ho.
    change (map ABITypeM.canonical_type (o1 :: o2 :: os))
      with (ABITypeM.canonical_type o1 :: ABITypeM.canonical_type o2 :: map ABITypeM.canonical_type os)
      in *.
    rewrite parse_signature_arrow.
    2: exact Hnm. 2: exact Hng.
    2:{ rewrite !no_gt_app. simpl no_gt at 1. rewrite no_gt_join; [reflexivity|].
        apply forallb_forall. intros T HT. apply plain_no_gt.
        rewrite forallb_forall in Ho. now apply out_ok_parts, Ho. }
    rewrite Hparse. cbn [bind]. rewrite read_many_outputs by exact Ho.
    cbn [map]. rewrite !map_map. reflexivity.
Qed.

Lemma event_roundtrip : forall e, event_ok e = true ->
  EventABI.from_signature (EventABI.signature e) =
  Ok (EventABI.mk (EventABI.name e) (map recon_event_input (EventABI.inputs e)) false).
Proof.
  intros [nm ins anon] H. unfold event_ok in H.
  cbn [EventABI.name EventABI.inputs] in *.
  apply andb_prop in H as [Hnm Hins].
  pose proof (parse_event_inputs ins Hins) as Hparse.
  pose proof (no_gt_join _ (forallb_no_gt _ _ _ event_signature_no_gt Hins)) as Hng.
  unfold EventABI.signature, EventABI.from_signature.
  cbn [EventABI.name EventABI.inputs].
  rewrite parse_signature_noarrow by assumption. rewrite Hparse.
  cbn [bind]. rewrite map_map. f_equal. f_equal.
  apply map_ext. intros i. unfold recon_event_input, trip_e.
  destruct (ABITypeM.indexed i); reflexivity.
Qed.

End SigRoundTrip.

Module SignatureClaims.
Import SigRoundTrip.




End SignatureClaims.

(** ** Event topics *)
Module TopicsFacts.
Import Topics.

Section Facts.
Variable L : EthLib.

Lemma map_result_ok {A B : Type} (f : A -> result B) (l : list A) (ys : list B) :
  map_result f l = Ok ys -> Forall2 (fun x y => f x = Ok y) l ys.
Proof.
  revert ys; induction l as [|x xs IH]; intros ys H; simpl in H.
  - injection H as <-; constructor.
  - destruct (f x) as [y|e] eqn:Ef; simpl in H; [|discriminate].
    destruct (map_result f xs) as [ys'|e] eqn:Er; simpl in H; [|discriminate].
    injection H as <-; constructor; auto.
Qed.

Lemma map_result_err {A B : Type} (f : A -> result B) (l : list A) (err : PyError) :
  map_result f l = Err err -> exists x, In x l /\ f x = Err err.
Proof.
  induction l as [|x xs IH]; intros H; simpl in H; [discriminate|].
  destruct (f x) as [y|e] eqn:Ef; simpl in H.
  - destruct (map_result f xs) as [ys'|e] eqn:Er; simpl in H; [discriminate|].
    injection H as ->. destruct (IH eq_refl) as (x' & Hin & Hx).
    exists x'; split; [right|]; auto.
  - injection H as ->. exists x; split; [left|]; auto.
Qed.

(** A list value is encoded element by element. *)
Lemma encode_list (ty : TypeField) (l : list PyVal) :
  encode_topic_value L ty (VList l) =
  (ts <- map_result (encode_topic_value L ty) l ;; Ok (TList ts)).
Proof.
  cbn [encode_topic_value]. f_equal.
  induction l as [|v vs IH]; [reflexivity|].
  cbv beta iota fix. cbn [map_result]. rewrite <- IH. reflexivity.
Qed.

Lemma encode_list_ok (ty : TypeField) (l : list PyVal) (t : Topic) :
  encode_topic_value L ty (VList l) = Ok t ->
  exists ts, t = TList ts /\ Forall2 (fun v t' => encode_topic_value L ty v = Ok t') l ts.
Proof.
  rewrite encode_list.
  destruct (map_result _ l) as [ts|e] eqn:E; simpl; intros H; [|discriminate].
  injection H as <-. exists ts; split; [reflexivity|]. now apply map_result_ok.
Qed.

Lemma encode_list_err (ty : TypeField) (l : list PyVal) (err : PyError) :
  encode_topic_value L ty (VList l) = Err err ->
  exists v, In v l /\ encode_topic_value L ty v = Err err.
Proof.
  rewrite encode_list.
  destruct (map_result _ l) as [ts|e] eqn:E; simpl; intros H; [discriminate|].
  injection H as ->. now apply map_result_err.
Qed.

Section Collect.
Variable m : PyDict.

Lemma collect_ok (ipts : list ABIType) (topics ts : list Topic) :
  collect_topics L m topics ipts = Ok ts ->
  exists es, ts = (topics ++ es)%list /\
    Forall2 (fun ipt t => topic_for L m ipt = Ok t) (filter ABITypeM.indexed ipts) es.
Proof.
  revert topics; induction ipts as [|i is IH]; intros topics H; simpl in H.
  - injection H as <-. exists []; split; [now rewrite app_nil_r | constructor].
  - simpl. destruct (ABITypeM.indexed i) eqn:Ei; simpl in H.
    + destruct (topic_for L m i) as [t|e] eqn:Et; simpl in H; [|discriminate].
      destruct (IH _ H) as (es & -> & Hf).
      exists (t :: es); split; [now rewrite <- app_assoc | constructor; auto].
    + exact (IH _ H).
Qed.

Lemma collect_err (ipts : list ABIType) (topics : list Topic) (err : PyError) :
  collect_topics L m topics ipts = Err err ->
  exists ipt, In ipt ipts /\ ABITypeM.indexed ipt = true /\ topic_for L m ipt = Err err.
Proof.
  revert topics; induction ipts as [|i is IH]; intros topics H; simpl in H; [discriminate|].
  destruct (ABITypeM.indexed i) eqn:Ei; simpl in H.
  - destruct (topic_for L m i) as [t|e] eqn:Et; simpl in H.
    + destruct (IH _ H) as (ipt & Hin & Hx); exists ipt; split; [right|]; auto.
    + injection H as ->. exists i; split; [left; reflexivity | auto].
  - destruct (IH _ H) as (ipt & Hin & Hx); exists ipt; split; [right|]; auto.
Qed.

Lemma collect_none (ipts : list ABIType) (topics : list Topic) :
  (forall ipt, In ipt ipts -> ABITypeM.indexed ipt = true -> topic_for L m ipt = Ok TNone) ->
  collect_topics L m topics ipts =
  Ok (topics ++ repeat TNone (List.length (filter ABITypeM.indexed ipts)))%list.
Proof.
  revert topics; induction ipts as [|i is IH]; intros topics H; simpl.
  - now rewrite app_nil_r.
  - destruct (ABITypeM.indexed i) eqn:Ei; simpl.
    + rewrite (H i (or_introl eq_refl) Ei); simpl.
      rewrite IH by (intros; apply H; [right|]; assumption).
      now rewrite <- app_assoc.
    + apply IH; intros; apply H; [right|]; assumption.
Qed.

End Collect.

Lemma pop_rev_nones (k : nat) (r : list Topic) :
  pop_trailing_rev (repeat TNone k ++ r)%list = pop_trailing_rev r.
Proof. induction k; simpl; auto. Qed.

Lemma pop_rev_last (l : list Topic) (x : Topic) :
  x <> TNone -> pop_trailing_rev (rev (l ++ [x]))%list = Ok (l ++ [x])%list.
Proof.
  intros Hx. rewrite rev_app_distr. simpl.
  destruct x; [contradiction| |]; now rewrite rev_involutive.
Qed.

(** Every list is a part without trailing wildcards, then wildcards. *)
Lemma strip_trailing (l : list Topic) :
  exists tail k, l = (tail ++ repeat TNone k)%list /\ (tail = [] \/ last tail TNone <> TNone).
Proof.
  induction l as [|x l IH] using rev_ind.
  - exists [], 0; auto.
  - destruct IH as (tail & k & -> & Ht).
    destruct x as [| s | ts].
    + exists tail, (S k); split; [|exact Ht].
      rewrite <- app_assoc. f_equal. simpl. now rewrite repeat_cons.
    + exists ((tail ++ repeat TNone k) ++ [THex s])%list, 0; split.
      * now rewrite app_nil_r.
      * right. rewrite last_last. discriminate.
    + exists ((tail ++ repeat TNone k) ++ [TList ts])%list, 0; split.
      * now rewrite app_nil_r.
      * right. rewrite last_last. discriminate.
Qed.

(** The pop loop on a list headed by a hash: it stops at the hash at the
    latest, and removes exactly the trailing wildcards. *)
Lemma pop_head (h : string) (entries : list Topic) :
  exists tail k,
    pop_trailing (THex h :: entries) = Ok (THex h :: tail) /\
    entries = (tail ++ repeat TNone k)%list /\
    (tail = [] \/ last tail TNone <> TNone).
Proof.
  destruct (strip_trailing entries) as (tail & k & -> & Ht).
  exists tail, k; split; [|split; auto].
  unfold pop_trailing. rewrite app_comm_cons, rev_app_distr, rev_repeat, pop_rev_nones.
  destruct Ht as [-> | Hl].
  - reflexivity.
  - destruct (exists_last (l := tail)) as (t' & a & ->).
    { intros ->; apply Hl; reflexivity. }
    rewrite last_last in Hl. rewrite app_comm_cons. now apply pop_rev_last.
Qed.

Lemma pop_nones (h : string) (k : nat) :
  pop_trailing (THex h :: repeat TNone k) = Ok [THex h].
Proof.
  unfold pop_trailing. cbn [rev]. rewrite rev_repeat, pop_rev_nones. reflexivity.
Qed.

End Facts.
End TopicsFacts.

Module TopicsClaims.
Import Topics TopicsFacts.

(** C5: [encode_topics] returns the hex keccak hash of the selector, then
    one entry per indexed input in declaration order (a wildcard when the
    input's name is falsy or not supplied, else its encoded value; a list
    value is encoded element by element), with exactly the trailing
    wildcards removed; it raises only what encoding a supplied value raises;
    with no supplied values (or only [None]s) the result is the hash alone. *)
Theorem encode_topics_shape (L : EthLib) (e : EventABI.t) (m : PyDict) :
  match encode_topics L e m with
  | Ok ts =>
      exists entries tail k,
        Forall2 (fun ipt t => topic_for L m ipt = Ok t)
                (filter ABITypeM.indexed (EventABI.inputs e)) entries /\
        ts = THex (keccak_hex L (text_bytes (EventABI.selector e))) :: tail /\
        entries = (tail ++ repeat TNone k)%list /\
        (tail = [] \/ last tail TNone <> TNone)
  | Err err =>
      exists ipt, In ipt (EventABI.inputs e) /\ ABITypeM.indexed ipt = true /\
                  topic_for L m ipt = Err err
  end /\
  ((forall ipt n, In ipt (EventABI.inputs e) -> ABITypeM.indexed ipt = true ->
      ABITypeM.name_truthy (ABITypeM.name ipt) = Some n ->
      dict_get m n = None \/ dict_get m n = Some VNone) ->
   encode_topics L e m = Ok [THex (keccak_hex L (text_bytes (EventABI.selector e)))]) /\
  (forall ty l t, encode_topic_value L ty (VList l) = Ok t ->
     exists ts, t = TList ts /\ Forall2 (fun v t' => encode_topic_value L ty v = Ok t') l ts).
Proof.
  split; [|split].
  - unfold encode_topics.
    destruct (collect_topics L m _ (EventABI.inputs e)) as [ts0|err] eqn:Ec; simpl.
    + destruct (collect_ok L m _ _ _ Ec) as (es & -> & Hf).
      destruct (pop_head (keccak_hex L (text_bytes (EventABI.selector e))) es)
        as (tail & k & Hp & Hes & Ht).
      simpl. rewrite Hp. exists es, tail, k; auto.
    + exact (collect_err L m _ _ _ Ec).
  - intros Hnone. unfold encode_topics.
    rewrite collect_none.
    + simpl. apply pop_nones.
    + intros ipt Hin Hidx. unfold topic_for.
      destruct (ABITypeM.name_truthy (ABITypeM.name ipt)) as [n|] eqn:Hn; [|reflexivity].
      destruct (Hnone ipt n Hin Hidx Hn) as [-> | ->]; reflexivity.
  - intros ty l t H. exact (encode_list_ok L ty l t H).
Qed.

(** C10: the list [encode_topics] returns always starts with the hex hash of
    the selector, a string; the trailing-wildcard loop never reaches an empty
    list (on a list headed by a hash it stops at the hash at the latest), so
    every error [encode_topics] raises comes from encoding a supplied value. *)
Theorem encode_topics_nonempty (L : EthLib) (e : EventABI.t) (m : PyDict) :
  (forall ts, encode_topics L e m = Ok ts ->
     exists tail, ts = THex (keccak_hex L (text_bytes (EventABI.selector e))) :: tail) /\
  (forall h entries, exists tail, pop_trailing (THex h :: entries) = Ok (THex h :: tail)) /\
  (forall err, encode_topics L e m = Err err ->
     exists ipt, In ipt (EventABI.inputs e) /\ ABITypeM.indexed ipt = true /\
                 topic_for L m ipt = Err err).
Proof.
  unfold encode_topics.
  split; [|split].
  - intros ts H.
    destruct (collect_topics L m _ (EventABI.inputs e)) as [ts0|err] eqn:Ec;
      simpl in H; [|discriminate].
    destruct (collect_ok L m _ _ _ Ec) as (es & -> & _).
    destruct (pop_head (keccak_hex L (text_bytes (EventABI.selector e))) es)
      as (tail & k & Hp & _ & _).
    simpl in H. rewrite Hp in H. injection H as <-. eauto.
  - intros h entries.
    destruct (pop_head h entries) as (tail & k & Hp & _ & _). eauto.
  - intros err H.
    destruct (collect_topics L m _ (EventABI.inputs e)) as [ts0|err'] eqn:Ec; simpl in H.
    + destruct (collect_ok L m _ _ _ Ec) as (es & -> & _).
      destruct (pop_head (keccak_hex L (text_bytes (EventABI.selector e))) es)
        as (tail & k & Hp & _ & _).
      simpl in H. rewrite Hp in H. discriminate.
    + injection H as ->. exact (collect_err L m _ _ _ Ec).
Qed.

(** C6, counterexample: a list value is always read as alternatives and
    encoded element by element, whatever the type, so the value of a
    dynamic array type ([uint256[]], dynamic for the grammar) is never
    hashed as a whole: for every library the result, if any, is a list of
    two topics; with the stand-in library, packing one [uint256] element as
    a [uint256[]] fails. *)
Lemma dynamic_array_value_not_hashed :
  (forall (L : EthLib) (t : Topic),
     encode_topic_value L (TStr "uint256[]") (VList [VInt 1; VInt 2]) = Ok t ->
     exists t1 t2, t = TList [t1; t2]) /\
  is_dynamic lib0 "uint256[]" = Ok true /\
  encode_topic_value lib0 (TStr "uint256[]") (VList [VInt 1; VInt 2]) = Err EncodingError.
Proof.
  split; [|split; reflexivity].
  intros L t H.
  destruct (encode_list_ok L _ _ _ H) as (ts & -> & Hf).
  inversion Hf as [|v1 t1 l1 ts1 H1 Hf1]; subst.
  inversion Hf1 as [|v2 t2 l2 ts2 H2 Hf2]; subst.
  inversion Hf2; subst. eauto.
Qed.

(** C6 (amended): how [encode_topic_value] encodes one supplied value that
    is neither [None] nor a list. For the type [string] (dynamic for the
    grammar) a [str] value is packed and hashed, which is the keccak hash of
    its bytes when packing a text yields its bytes, and any other value is
    first replaced by its [to_hex] text. Any other dynamic type [t] packs the
    value as [t] and hashes it. A static type hands the value to [HashStr32]
    validation, with no hashing, whatever the type. A list value is encoded
    element by element into a list for every type, and the type given is the
    input's own [type] field. A [None] value stays a [None] wildcard. *)
Theorem encode_topic_value_rules (L : EthLib) :
  (forall s, is_dynamic L "string" = Ok true ->
     encode_packed L "string" (VStr s) = Ok (text_bytes s) ->
     encode_topic_value L (TStr "string") (VStr s) = Ok (THex (keccak_hex L (text_bytes s)))) /\
  (forall v, scalar v = true -> is_str v = false -> is_dynamic L "string" = Ok true ->
     encode_topic_value L (TStr "string") v =
       (h <- to_hex L v ;; b <- encode_packed L "string" (VStr h) ;; Ok (THex (keccak_hex L b)))) /\
  (forall t v, String.eqb t "string" = false -> scalar v = true -> is_dynamic L t = Ok true ->
     encode_topic_value L (TStr t) v = (b <- encode_packed L t v ;; Ok (THex (keccak_hex L b)))) /\
  (forall ty1 ty2 v, scalar v = true ->
     is_dynamic L (abi_type_str L ty1) = Ok false -> is_dynamic L (abi_type_str L ty2) = Ok false ->
     encode_topic_value L ty1 v = (h <- hashstr32 L v ;; Ok (THex h)) /\
     encode_topic_value L ty1 v = encode_topic_value L ty2 v) /\
  (forall ty l t, encode_topic_value L ty (VList l) = Ok t ->
     exists ts, t = TList ts /\ Forall2 (fun v t' => encode_topic_value L ty v = Ok t') l ts) /\
  (forall m ipt n v, ABITypeM.name_truthy (ABITypeM.name ipt) = Some n -> dict_get m n = Some v ->
     topic_for L m ipt = encode_topic_value L (ABITypeM.type ipt) v) /\
  (forall ty, encode_topic_value L ty VNone = Ok TNone).
Proof.
  split; [|split; [|split; [|split; [|split; [|split]]]]].
  - intros s Hd Hp. cbn [encode_topic_value abi_type_str]. rewrite Hd. cbn.
    rewrite Hp. reflexivity.
  - intros v Hs Hstr Hd.
    destruct v; try discriminate; cbn [encode_topic_value abi_type_str]; rewrite Hd; cbn;
      destruct (to_hex L _); reflexivity.
  - intros t v Ht Hs Hd.
    assert (Hst : is_string_type (TStr t) = false) by exact Ht.
    destruct v; try discriminate; cbn [encode_topic_value abi_type_str]; rewrite Hd; cbn [bind];
      rewrite Hst; reflexivity.
  - intros ty1 ty2 v Hs H1 H2.
    destruct v; try discriminate; cbn [encode_topic_value]; rewrite H1; cbn [bind]; rewrite H2; split; reflexivity.
  - intros ty l t H. exact (encode_list_ok L ty l t H).
  - intros m ipt n v Hn Hv. unfold topic_for. now rewrite Hn, Hv.
  - intros ty. reflexivity.
Qed.

End TopicsClaims.

(** ** ABI list lookup *)
Module ABIListFacts.
Import ABIList.

Lemma find_lookup_spec {A : Type} (p : A -> bool) (l : list A) :
  lookup_spec p l (or_key_error (find p l)).
Proof.
  induction l as [|a l IH]; simpl.
  - split; reflexivity.
  - destruct (p a) eqn:Ea; simpl.
    + exists [], l; repeat split; auto.
    + destruct (find p l) as [x|] eqn:Ef; simpl in *.
      * destruct IH as (pre & post & -> & Hx & Hpre).
        exists (a :: pre), post; repeat split; auto.
        simpl; now rewrite Ea, Hpre.
      * destruct IH as [_ Hall]; split; [reflexivity|].
        now rewrite Ea, Hall.
Qed.

Lemma hex_digit_lt (c : ascii) (d : N) : hex_digit c = Some d -> (d < 16)%N.
Proof.
  unfold hex_digit.
  destruct ((48 <=? N.of_nat (nat_of_ascii c))%N && (N.of_nat (nat_of_ascii c) <=? 57)%N) eqn:E1.
  { intros H; injection H as <-. apply andb_true_iff in E1 as [_ E1].
    apply N.leb_le in E1. lia. }
  destruct ((97 <=? N.of_nat (nat_of_ascii c))%N && (N.of_nat (nat_of_ascii c) <=? 102)%N) eqn:E2.
  { intros H; injection H as <-. apply andb_true_iff in E2 as [E0 E2].
    apply N.leb_le in E0, E2. lia. }
  destruct ((65 <=? N.of_nat (nat_of_ascii c))%N && (N.of_nat (nat_of_ascii c) <=? 70)%N) eqn:E3.
  { intros H; injection H as <-. apply andb_true_iff in E3 as [E0 E3].
    apply N.leb_le in E0, E3. lia. }
  discriminate.
Qed.

Lemma byte_of_digits (h l : N) :
  (h < 16)%N -> (l < 16)%N -> exists b, Byte.of_N (16 * h + l) = Some b.
Proof.
  intros Hh Hl. destruct (Byte.of_N (16 * h + l)) as [b|] eqn:E; [eauto|].
  apply Byte.of_N_None_iff in E. lia.
Qed.

Lemma unhexlify_ok (n : nat) (s : string) :
  String.length s <= n -> hex_text s = true -> Nat.even (String.length s) = true ->
  exists b, unhexlify s = Ok b.
Proof.
  revert s; induction n as [|n IH]; intros s Hlen Hhex Hev.
  - destruct s; [exists []; reflexivity | simpl in Hlen; lia].
  - destruct s as [|c1 [|c2 r]].
    + exists []; reflexivity.
    + discriminate Hev.
    + unfold hex_text in Hhex; cbn [PyStr.all_chars] in Hhex.
      apply andb_true_iff in Hhex as [H1 Hhex]; apply andb_true_iff in Hhex as [H2 Hr].
      unfold is_hex in H1, H2.
      destruct (hex_digit c1) as [d1|] eqn:E1; [|discriminate].
      destruct (hex_digit c2) as [d2|] eqn:E2; [|discriminate].
      destruct (byte_of_digits d1 d2 (hex_digit_lt _ _ E1) (hex_digit_lt _ _ E2)) as (b & Eb).
      destruct (IH r) as (bs & Ebs); [simpl in Hlen; lia | exact Hr | exact Hev |].
      exists (b :: bs). cbn [unhexlify]. rewrite E1, E2, Eb. simpl. now rewrite Ebs.
Qed.

Lemma unhexlify_bad (n : nat) (s : string) :
  String.length s <= n -> hex_text s = false -> unhexlify s = Err ValueError.
Proof.
  revert s; induction n as [|n IH]; intros s Hlen Hhex.
  - destruct s; [discriminate | simpl in Hlen; lia].
  - destruct s as [|c1 [|c2 r]].
    + discriminate.
    + reflexivity.
    + unfold hex_text in Hhex; cbn [PyStr.all_chars] in Hhex.
      cbn [unhexlify]. unfold is_hex in Hhex.
      destruct (hex_digit c1) as [d1|] eqn:E1; [|reflexivity].
      destruct (hex_digit c2) as [d2|] eqn:E2; [|reflexivity].
      destruct (byte_of_digits d1 d2 (hex_digit_lt _ _ E1) (hex_digit_lt _ _ E2)) as (b & Eb).
      rewrite Eb. simpl in Hhex. rewrite (IH r); [reflexivity | simpl in Hlen; lia | exact Hhex].
Qed.

Lemma prefix_two_one (a b c : ascii) (t : string) :
  String.prefix (String a (String b t)) (String c EmptyString) = false.
Proof. simpl. destruct (ascii_dec a c); reflexivity. Qed.

Lemma prefixed_shape (key : string) :
  is_0x_prefixed key = true -> exists c1 c2 r, key = String c1 (String c2 r).
Proof.
  unfold is_0x_prefixed, PyStr.startswith.
  destruct key as [|c1 [|c2 r]]; intros H; [discriminate | | eauto].
  rewrite !prefix_two_one in H. discriminate.
Qed.

(** [HexBytes(key)] for a prefixed key succeeds exactly when the text after
    the prefix is made of hex digits, and raises [ValueError] otherwise. *)
Lemma hexstr_prefixed (key : string) :
  is_0x_prefixed key = true ->
  (hex_text (PyStr.drop 2 key) = true -> exists b, hexstr_to_bytes key = Ok b) /\
  (hex_text (PyStr.drop 2 key) = false -> hexstr_to_bytes key = Err ValueError).
Proof.
  intros Hp. pose proof Hp as Hp'.
  apply prefixed_shape in Hp' as (c1 & c2 & r & ->).
  unfold hexstr_to_bytes. rewrite Hp. cbn [PyStr.drop String.length].
  rewrite Nat.odd_succ, Nat.even_succ.
  destruct (Nat.odd (String.length r)) eqn:Eo; split; intros Hr.
  - apply (unhexlify_ok (String.length (String "0" r))); [lia | exact Hr |].
    cbn [String.length]. now rewrite Nat.even_succ.
  - apply (unhexlify_bad (String.length (String "0" r))); [lia | exact Hr].
  - apply (unhexlify_ok (String.length r)); [lia | exact Hr |].
    rewrite <- Nat.negb_odd, Eo. reflexivity.
  - apply (unhexlify_bad (String.length r)); [lia | exact Hr].
Qed.

End ABIListFacts.

Module ABIListClaims.
Import ABIList ABIListFacts.

(** C8, counterexample: a 0x-prefixed key that is not hex text does not
    raise [KeyError]: [HexBytes] raises [ValueError] first, for every list. *)
Lemma getitem_str_bad_hex_value_error :
  (forall (A : Type) (abi_name abi_selector : A -> string) (self : @ABIList.t A),
     getitem_str abi_name abi_selector self "0xzz" = Err ValueError) /\
  getitem_str MethodABI.name MethodABI.selector methods0 "0xzz" = Err ValueError.
Proof. split; [intros; reflexivity | reflexivity]. Qed.

(** C8 (amended): [ABIList.__getitem_str]. A key containing "(" finds the
    first entry whose selector equals it. Otherwise a 0x-prefixed key whose
    remaining text is hex finds the first entry whose hash, cut to the
    configured id size, equals the key's bytes cut the same way; with no hash
    function it raises [KeyError]; if the remaining text is not hex,
    [HexBytes] raises [ValueError]. Any other key finds the first entry with
    that name. A bytes key ([__getitem_bytes]) goes through the same hash
    comparison, and raises [KeyError] with no hash function. A search that
    finds nothing raises [KeyError]. *)
Theorem getitem_str_spec {A : Type} (abi_name abi_selector : A -> string)
    (self : @ABIList.t A) (key : string) :
  (PyStr.contains_sub "(" key = true ->
     lookup_spec (fun a => String.eqb (abi_selector a) key) (items self)
                 (getitem_str abi_name abi_selector self key)) /\
  (PyStr.contains_sub "(" key = false -> is_0x_prefixed key = true ->
     if hex_text (PyStr.drop 2 key) then
       exists b, hexstr_to_bytes key = Ok b /\
         match selector_hash_fn self with
         | Some hash_fn =>
             lookup_spec (fun a => bytes_eqb (py_take (selector_id_size self) (hash_fn (abi_selector a)))
                                             (py_take (selector_id_size self) b))
                         (items self) (getitem_str abi_name abi_selector self key)
         | None => getitem_str abi_name abi_selector self key = Err KeyError
         end
     else getitem_str abi_name abi_selector self key = Err ValueError) /\
  (PyStr.contains_sub "(" key = false -> is_0x_prefixed key = false ->
     lookup_spec (fun a => String.eqb (abi_name a) key) (items self)
                 (getitem_str abi_name abi_selector self key)) /\
  (forall b : list Byte.byte,
     match selector_hash_fn self with
     | Some hash_fn =>
         lookup_spec (fun a => bytes_eqb (py_take (selector_id_size self) (hash_fn (abi_selector a)))
                                         (py_take (selector_id_size self) b))
                     (items self) (getitem_bytes abi_selector self b)
     | None => getitem_bytes abi_selector self b = Err KeyError
     end).
Proof.
  split; [|split; [|split]]; [unfold getitem_str ..|].
  - intros Hp. rewrite Hp. apply find_lookup_spec.
  - intros Hp Hx. rewrite Hp, Hx.
    destruct (hexstr_prefixed key Hx) as [Hok Hbad].
    destruct (hex_text (PyStr.drop 2 key)) eqn:Eh.
    + destruct (Hok eq_refl) as (b & Eb). exists b; split; [exact Eb|].
      rewrite Eb. simpl. unfold getitem_bytes.
      destruct (selector_hash_fn self); [apply find_lookup_spec | reflexivity].
    + now rewrite (Hbad eq_refl).
  - intros Hp Hx. rewrite Hp, Hx. apply find_lookup_spec.
  - intros b. unfold getitem_bytes.
    destruct (selector_hash_fn self); [apply find_lookup_spec | reflexivity].
Qed.

End ABIListClaims.

(** ** AST search *)
Module ASTFacts.
Import SourceMap AST.

Lemma node_ind (P : ASTNode -> Prop)
    (H : forall s ks, Forall P ks -> P (mkNode s ks)) : forall n, P n.
Proof.
  refine (fix IH n := match n with
                      | mkNode s ks => H s ks _
                      end).
  induction ks as [|k ks IHks]; constructor; [apply IH | exact IHks].
Qed.

Lemma children_nil (s : SourceMapItem) : children (mkNode s []) = [].
Proof. reflexivity. Qed.

Lemma children_cons (s : SourceMapItem) (k : ASTNode) (ks : list ASTNode) :
  children (mkNode s (k :: ks)) = (iter_nodes k ++ children (mkNode s ks))%list.
Proof. reflexivity. Qed.

Lemma in_children (s : SourceMapItem) (ks : list ASTNode) (c : ASTNode) :
  In c (children (mkNode s ks)) -> exists k, In k ks /\ In c (iter_nodes k).
Proof.
  induction ks as [|k ks IH]; [intros []|].
  rewrite children_cons. intros H. apply in_app_or in H as [H|H].
  - exists k; split; [left|]; auto.
  - destruct (IH H) as (k' & Hk & Hc). exists k'; split; [right|]; auto.
Qed.

Lemma children_incl (s : SourceMapItem) (ks : list ASTNode) (k : ASTNode) :
  In k ks -> incl (iter_nodes k) (children (mkNode s ks)).
Proof.
  induction ks as [|k' ks IH]; [intros []|].
  intros [<-|H]; rewrite children_cons.
  - apply incl_appl, incl_refl.
  - apply incl_appr, IH, H.
Qed.

(** Everything below a node below [n] is below [n]. *)
Lemma descendant_incl (n c : ASTNode) :
  In c (iter_nodes n) -> incl (iter_nodes c) (iter_nodes n).
Proof.
  revert c. induction n as [s ks IH] using node_ind. intros c [<-|Hc].
  - apply incl_refl.
  - destruct (in_children s ks c Hc) as (k & Hk & Hck).
    rewrite Forall_forall in IH.
    apply incl_tl. eapply incl_tran; [apply (IH k Hk c Hck)|].
    apply children_incl, Hk.
Qed.

Lemma height_cons (s : SourceMapItem) (k : ASTNode) (ks : list ASTNode) :
  height (mkNode s (k :: ks)) = S (Nat.max (height k) (pred (height (mkNode s ks)))).
Proof. reflexivity. Qed.

Lemma height_pos (n : ASTNode) : 1 <= height n.
Proof. destruct n; simpl; lia. Qed.

Lemma height_kid (s : SourceMapItem) (ks : list ASTNode) (k : ASTNode) :
  In k ks -> height k < height (mkNode s ks).
Proof.
  induction ks as [|k' ks IH]; [intros []|].
  rewrite height_cons. pose proof (height_pos (mkNode s ks)).
  intros [<-|Hin]; [lia|]. specialize (IH Hin). lia.
Qed.

Lemma height_children (n c : ASTNode) : In c (children n) -> height c < height n.
Proof.
  revert c. induction n as [s ks IH] using node_ind. intros c Hc.
  destruct (in_children s ks c Hc) as (k & Hk & [<-|Hck]).
  - now apply height_kid.
  - rewrite Forall_forall in IH.
    specialize (IH k Hk c Hck). pose proof (height_kid s ks k Hk). lia.
Qed.

Lemma first_some_app {X Y : Type} (g : X -> option Y) (a b : list X) :
  first_some g (a ++ b)%list = match first_some g a with Some y => Some y | None => first_some g b end.
Proof. induction a as [|x a IH]; simpl; [reflexivity|]. destruct (g x); auto. Qed.

Lemma first_some_none {X Y : Type} (g : X -> option Y) (l : list X) :
  (forall x, In x l -> g x = None) -> first_some g l = None.
Proof.
  induction l as [|x l IH]; intros H; simpl; [reflexivity|].
  rewrite (H x (or_introl eq_refl)). apply IH. intros; apply H; right; auto.
Qed.

Lemma find_app {X : Type} (p : X -> bool) (a b : list X) :
  find p (a ++ b)%list = match find p a with Some x => Some x | None => find p b end.
Proof. induction a as [|x a IH]; simpl; [reflexivity|]. destruct (p x); auto. Qed.

Lemma find_none_intro {X : Type} (p : X -> bool) (l : list X) :
  (forall x, In x l -> p x = false) -> find p l = None.
Proof.
  induction l as [|x l IH]; intros H; simpl; [reflexivity|].
  rewrite (H x (or_introl eq_refl)). apply IH. intros; apply H; right; auto.
Qed.

Section Search.
Variable src : SourceMapItem.
Let p (n : ASTNode) : bool := src_matches (node_src n) src.

(** Searching each node of [children] in turn, each search covering the
    node and everything below it, is a pre-order search of [children]. *)
Lemma first_some_preorder (g : ASTNode -> option ASTNode) (s : SourceMapItem) (ks : list ASTNode) :
  (forall c, In c (children (mkNode s ks)) -> g c = find p (iter_nodes c)) ->
  first_some g (children (mkNode s ks)) = find p (children (mkNode s ks)).
Proof.
  induction ks as [|k ks IH]; intros Hg; [reflexivity|].
  rewrite children_cons, first_some_app, find_app.
  assert (Hk : g k = find p (iter_nodes k)).
  { apply Hg. rewrite children_cons. apply in_or_app; left; left; reflexivity. }
  destruct (find p (iter_nodes k)) as [x|] eqn:Ef.
  - unfold iter_nodes at 1. simpl first_some. now rewrite Hk.
  - rewrite first_some_none.
    + apply IH. intros c Hc. apply Hg. rewrite children_cons. apply in_or_app; right; exact Hc.
    + intros c Hc. rewrite Hg by (rewrite children_cons; apply in_or_app; left; exact Hc).
      apply find_none_intro. intros y Hy.
      apply (find_none _ _ Ef). exact (descendant_incl k c Hc y Hy).
Qed.

Lemma get_node_fuel_preorder (f : nat) (n : ASTNode) :
  height n <= f -> get_node_fuel f n src = find p (iter_nodes n).
Proof.
  revert n; induction f as [|f IH]; intros n Hh.
  - pose proof (height_pos n). lia.
  - destruct n as [s ks]. cbn [get_node_fuel]. unfold iter_nodes. cbn [find].
    fold (p (mkNode s ks)).
    destruct (p (mkNode s ks)); [reflexivity|].
    apply first_some_preorder. intros c Hc.
    apply IH. pose proof (height_children _ _ Hc). lia.
Qed.

End Search.

End ASTFacts.

Module ASTClaims.
Import SourceMap AST ASTFacts.

(** C9, counterexample: a query whose length is absent or 0 does not match
    a node with the same start and another length. [contract_n] has the node
    [fn2_n] at start 104 with length 8, yet searching for start 104 with no
    length, or with length 0, finds nothing. *)
Lemma get_node_length_not_optional :
  In fn2_n (iter_nodes contract_n) /\ start (node_src fn2_n) = Some 104%Z /\
  get_node contract_n (range 104 None) = None /\
  get_node contract_n (range 104 (Some 0%Z)) = None.
Proof. vm_compute. repeat split; auto 10. Qed.

(** C9 (amended): [get_node] returns the first node, in pre-order from the
    node searched, whose start equals the query's start (an absent start
    only equal to an absent start) and whose length equals the query's
    length, an absent length being read as 0 on both sides; [None] when no
    node matches. On the sample tree, the query (104, 8) finds the node at
    104 with length 8, and the query (50, 8) finds nothing. *)
Theorem get_node_first_in_preorder :
  (forall (self : ASTNode) (src : SourceMapItem),
     get_node self src = find (fun n => src_matches (node_src n) src) (iter_nodes self)) /\
  get_node contract_n (range 104 (Some 8%Z)) = Some fn2_n /\
  get_node contract_n (range 50 (Some 8%Z)) = None.
Proof.
  split; [|split; reflexivity].
  intros self src. unfold get_node.
  apply get_node_fuel_preorder. reflexivity.
Qed.

End ASTClaims.

(** ** ABIList membership, [get] and lookups by ABI object *)
Module ABIListOpsProofs.
Import ABIList ABIListOps ABIListFacts.

Lemma unhexlify_err (n : nat) (s : string) (e : PyError) :
  String.length s <= n -> unhexlify s = Err e -> e = ValueError.
Proof.
  revert s; induction n as [|n IH]; intros s Hlen H.
  - destruct s; [discriminate | simpl in Hlen; lia].
  - destruct s as [|c1 [|c2 r]]; cbn [unhexlify] in H.
    + discriminate.
    + now injection H.
    + destruct (hex_digit c1), (hex_digit c2); try (injection H; auto; fail).
      destruct (Byte.of_N _); [|now injection H].
      destruct (unhexlify r) eqn:Er; [discriminate|].
      injection H as <-. apply (IH r); [simpl in Hlen; lia | exact Er].
Qed.

Lemma hexstr_err (s : string) (e : PyError) : hexstr_to_bytes s = Err e -> e = ValueError.
Proof.
  unfold hexstr_to_bytes. intros H.
  eapply unhexlify_err; [apply le_n | exact H].
Qed.

Lemma or_key_error_err {A : Type} (o : option A) (e : PyError) :
  or_key_error o = Err e -> e = KeyError.
Proof. destruct o; simpl; intros H; [discriminate | now injection H]. Qed.

Lemma getitem_bytes_err {A : Type} (abi_selector : A -> string) (self : @t A)
    (b : list Byte.byte) (e : PyError) :
  getitem_bytes abi_selector self b = Err e -> e = KeyError.
Proof.
  unfold getitem_bytes. destruct (selector_hash_fn self).
  - apply or_key_error_err.
  - intros H; now injection H.
Qed.

(** [__getitem_str] raises [KeyError], or the [ValueError] of [HexBytes]. *)
Lemma getitem_str_err {A : Type} (abi_name abi_selector : A -> string) (self : @t A)
    (key : string) (e : PyError) :
  getitem_str abi_name abi_selector self key = Err e -> e = KeyError \/ e = ValueError.
Proof.
  unfold getitem_str.
  destruct (PyStr.contains_sub "(" key); [intros H; left; exact (or_key_error_err _ _ H)|].
  destruct (is_0x_prefixed key); [|intros H; left; exact (or_key_error_err _ _ H)].
  destruct (hexstr_to_bytes key) as [b|e'] eqn:Eb; simpl.
  - intros H; left; exact (getitem_bytes_err _ _ _ _ H).
  - intros H; injection H as <-. right; exact (hexstr_err _ _ Eb).
Qed.

Lemma find_sub_app_some (sub a b : string) (i : nat) :
  PyStr.find_sub sub b = Some i -> exists j, PyStr.find_sub sub (a ++ b) = Some j.
Proof.
  induction a as [|c a IH]; intros H; [now exists i|].
  change (String c a ++ b) with (String c (a ++ b)).
  rewrite SigFacts.find_sub_cons.
  destruct (String.prefix sub (String c (a ++ b))); [now exists O|].
  destruct (IH H) as [j Hj]. rewrite Hj. now exists (S j).
Qed.

(** A selector [name(types)] contains ["("]. *)
Lemma contains_paren (nm r : string) : PyStr.contains_sub "(" (nm ++ "(" ++ r) = true.
Proof.
  unfold PyStr.contains_sub.
  destruct (find_sub_app_some "(" nm ("(" ++ r) O) as [j Hj].
  - apply SigFacts.find_sub_prefix, SigFacts.prefix_app.
  - now rewrite Hj.
Qed.

Lemma lookup_spec_find {A : Type} (p : A -> bool) (l : list A) :
  lookup_spec p l (or_key_error (find p l)) /\
  contains_of (or_key_error (find p l)) = Ok (existsb p l).
Proof.
  split; [apply find_lookup_spec|].
  destruct (find p l) as [a|] eqn:Ef; simpl.
  - apply find_some in Ef as [Hin Hp].
    replace (existsb p l) with true; [reflexivity|].
    symmetry. apply existsb_exists. eauto.
  - replace (existsb p l) with false; [reflexivity|].
    symmetry. apply not_true_iff_false. intros Hx.
    apply existsb_exists in Hx as (x & Hin & Hp).
    rewrite (find_none _ _ Ef x Hin) in Hp. discriminate.
Qed.

Lemma py_take_idem {X : Type} (n : Z) (l : list X) :
  (0 <= n)%Z -> py_take n (py_take n l) = py_take n l.
Proof.
  intros Hn. unfold py_take. replace (0 <=? n)%Z with true by (symmetry; apply Z.leb_le; lia).
  rewrite firstn_firstn, Nat.min_id. reflexivity.
Qed.

Lemma bytes_eqb_refl (b : list Byte.byte) : bytes_eqb b b = true.
Proof. unfold bytes_eqb. destruct (list_eq_dec Byte.byte_eq_dec b b); congruence. Qed.

(** X1: [key in abi_list] for a [str] key answers whether [abi_list[key]]
    succeeds, except for a 0x-prefixed key without "(" whose text after the
    prefix is not hex: that membership test raises [ValueError]. *)
Theorem contains_str_spec {A : Type} (abi_name abi_selector : A -> string)
    (self : @t A) (key : string) :
  contains_str abi_name abi_selector self key =
  if negb (PyStr.contains_sub "(" key) && is_0x_prefixed key && negb (hex_text (PyStr.drop 2 key))
  then Err ValueError
  else Ok (match getitem_str abi_name abi_selector self key with Ok _ => true | Err _ => false end).
Proof.
  unfold contains_str.
  destruct (PyStr.contains_sub "(" key) eqn:Ep; cbn [negb andb].
  - unfold getitem_str. rewrite Ep.
    destruct (find _ (items self)); reflexivity.
  - destruct (is_0x_prefixed key) eqn:Ex; cbn [andb].
    + destruct (hexstr_prefixed key Ex) as [Hok Hbad].
      destruct (hex_text (PyStr.drop 2 key)) eqn:Eh; cbn [negb].
      * destruct (Hok eq_refl) as (b & Eb).
        destruct (getitem_str abi_name abi_selector self key) as [a|e] eqn:Eg; [reflexivity|].
        pose proof Eg as Eg'. unfold getitem_str in Eg'. rewrite Ep, Ex, Eb in Eg'.
        simpl in Eg'. rewrite (getitem_bytes_err _ _ _ _ Eg'). reflexivity.
      * unfold getitem_str. rewrite Ep, Ex, (Hbad eq_refl). reflexivity.
    + unfold getitem_str. rewrite Ep, Ex. destruct (find _ (items self)); reflexivity.
Qed.

(** X2: [abi_list.get(key, default)] for a [str] key returns the entry
    [abi_list[key]] finds, and [default] exactly when that lookup raises
    [KeyError]; the [ValueError] of a malformed 0x key propagates. *)
Theorem get_str_spec {A : Type} (abi_name abi_selector : A -> string)
    (self : @t A) (key : string) (default : option A) :
  get_str abi_name abi_selector self key default =
  match getitem_str abi_name abi_selector self key with
  | Ok a => Ok (Some a)
  | Err KeyError => Ok default
  | Err e => Err e
  end.
Proof.
  unfold get_str, contains_str.
  destruct (getitem_str abi_name abi_selector self key) as [a|e] eqn:Eg; simpl.
  - reflexivity.
  - destruct (getitem_str_err _ _ _ _ _ Eg) as [-> | ->]; reflexivity.
Qed.

(** X3: looking an entry up by a [MethodABI] or an [EventABI] object, or
    testing [obj in abi_list], compares selectors only: the lookup returns the
    first entry whose selector equals [obj.selector] (raising [KeyError] if
    there is none), and membership is [True] exactly when such an entry
    exists. *)
Theorem lookup_by_abi_object {A : Type} (abi_name abi_selector : A -> string)
    (self : @t A) (m : MethodABI.t) (e : EventABI.t) :
  lookup_spec (fun a => String.eqb (abi_selector a) (MethodABI.selector m)) (items self)
              (getitem_method abi_name abi_selector self m) /\
  contains_method abi_name abi_selector self m =
    Ok (existsb (fun a => String.eqb (abi_selector a) (MethodABI.selector m)) (items self)) /\
  lookup_spec (fun a => String.eqb (abi_selector a) (EventABI.selector e)) (items self)
              (getitem_event abi_name abi_selector self e) /\
  contains_event abi_name abi_selector self e =
    Ok (existsb (fun a => String.eqb (abi_selector a) (EventABI.selector e)) (items self)).
Proof.
  unfold contains_method, contains_event, getitem_method, getitem_event, getitem_str.
  unfold MethodABI.selector, EventABI.selector. rewrite !contains_paren.
  destruct (lookup_spec_find (fun a => String.eqb (abi_selector a) (MethodABI.name m ++ "(" ++
             PyStr.join "," (map ABITypeM.canonical_type (MethodABI.inputs m)) ++ ")"))
           (items self)) as [H1 H2].
  destruct (lookup_spec_find (fun a => String.eqb (abi_selector a) (EventABI.name e ++ "(" ++
             PyStr.join "," (map ABITypeM.canonical_type (EventABI.inputs e)) ++ ")"))
           (items self)) as [H3 H4].
  repeat split; assumption.
Qed.

(** X4: with a hash function and a non-negative id size, an entry of the
    list is found both by the full hash of its selector and by that hash cut
    to the id size; both lookups return the same entry, the first whose cut
    hash matches, and [in] answers [True]. *)
Theorem getitem_bytes_by_hash {A : Type} (abi_selector : A -> string) (self : @t A)
    (hash_fn : string -> list Byte.byte) (a : A)
    (Hh : selector_hash_fn self = Some hash_fn)
    (Hn : (0 <= selector_id_size self)%Z)
    (Ha : In a (items self)) :
  exists a',
    getitem_bytes abi_selector self (hash_fn (abi_selector a)) = Ok a' /\
    getitem_bytes abi_selector self
      (py_take (selector_id_size self) (hash_fn (abi_selector a))) = Ok a' /\
    first_match (fun x => bytes_eqb (py_take (selector_id_size self) (hash_fn (abi_selector x)))
                                    (py_take (selector_id_size self) (hash_fn (abi_selector a))))
                (items self) a' /\
    contains_bytes abi_selector self (hash_fn (abi_selector a)) = Ok true.
Proof.
  set (n := selector_id_size self).
  set (p := fun x => bytes_eqb (py_take n (hash_fn (abi_selector x)))
                               (py_take n (hash_fn (abi_selector a)))).
  assert (Hf : find p (items self) <> None).
  { intros Hn'. pose proof (find_none _ _ Hn' a Ha) as Hp.
    unfold p in Hp. rewrite bytes_eqb_refl in Hp. discriminate. }
  destruct (find p (items self)) as [a'|] eqn:Ef; [|congruence].
  pose proof (find_lookup_spec p (items self)) as Hs. rewrite Ef in Hs.
  exists a'. unfold contains_bytes, getitem_bytes. rewrite Hh. fold n.
  rewrite (py_take_idem n _ Hn). fold p. rewrite Ef. repeat split; exact Hs.
Qed.

Lemma getitem_bytes_by_hash_witness :
  selector_hash_fn methods0 = Some list_byte_of_string /\
  (0 <= selector_id_size methods0)%Z /\ In transfer_m (items methods0) /\
  exists a',
    getitem_bytes MethodABI.selector methods0 (list_byte_of_string (MethodABI.selector transfer_m)) = Ok a' /\
    getitem_bytes MethodABI.selector methods0
      (py_take (selector_id_size methods0) (list_byte_of_string (MethodABI.selector transfer_m))) = Ok a' /\
    first_match (fun x => bytes_eqb (py_take (selector_id_size methods0) (list_byte_of_string (MethodABI.selector x)))
                                    (py_take (selector_id_size methods0) (list_byte_of_string (MethodABI.selector transfer_m))))
                (items methods0) a' /\
    contains_bytes MethodABI.selector methods0 (list_byte_of_string (MethodABI.selector transfer_m)) = Ok true.
Proof.
  split; [reflexivity|]. split; [simpl; lia|]. split; [left; reflexivity|].
  apply (getitem_bytes_by_hash MethodABI.selector methods0 list_byte_of_string transfer_m);
    [reflexivity | simpl; lia | left; reflexivity].
Defined.

End ABIListOpsProofs.

(** ** ContractType's method lists *)
Module ContractProofs.
Import Contract.

Lemma select_methods (abi : list ABI) (q : MethodABI.t -> bool) :
  select (fun a => match a with AMethod m => if q m then Some m else None | _ => None end) abi =
  filter q (select (fun a => match a with AMethod m => Some m | _ => None end) abi).
Proof.
  induction abi as [|a abi IH]; [reflexivity|].
  destruct a; simpl; try exact IH.
  destruct (q m); simpl; rewrite IH; reflexivity.
Qed.

Lemma filter_partition_length {X : Type} (q : X -> bool) (l : list X) :
  List.length (filter (fun x => negb (q x)) l) + List.length (filter q l) = List.length l.
Proof.
  induction l as [|x l IH]; [reflexivity|]. simpl.
  destruct (q x); simpl; lia.
Qed.

(** X5: [view_methods] and [mutable_methods] split [methods]: each keeps the
    methods of [abi] in their order, the first those that are not stateful
    (state mutability "view" or "pure"), the second the others, so together
    they hold as many entries as [methods]; all three use 4-byte ids and the
    contract's hash function. *)
Theorem view_mutable_partition (selector_hash_fn : string -> list Byte.byte) (abi : list ABI) :
  ABIList.items (view_methods selector_hash_fn abi) =
    filter (fun m => negb (is_stateful m)) (ABIList.items (methods selector_hash_fn abi)) /\
  ABIList.items (mutable_methods selector_hash_fn abi) =
    filter is_stateful (ABIList.items (methods selector_hash_fn abi)) /\
  List.length (ABIList.items (view_methods selector_hash_fn abi)) +
  List.length (ABIList.items (mutable_methods selector_hash_fn abi)) =
    List.length (ABIList.items (methods selector_hash_fn abi)) /\
  ABIList.selector_id_size (view_methods selector_hash_fn abi) = 4%Z /\
  ABIList.selector_id_size (mutable_methods selector_hash_fn abi) = 4%Z /\
  ABIList.selector_hash_fn (view_methods selector_hash_fn abi) = Some selector_hash_fn /\
  ABIList.selector_hash_fn (mutable_methods selector_hash_fn abi) = Some selector_hash_fn /\
  ABIList.selector_id_size (methods selector_hash_fn abi) = 4%Z /\
  ABIList.selector_hash_fn (methods selector_hash_fn abi) = Some selector_hash_fn.
Proof.
  unfold view_methods, mutable_methods, methods, _get_abis. cbn [ABIList.items].
  rewrite <- (select_methods abi (fun m => negb (is_stateful m))).
  rewrite <- (select_methods abi is_stateful).
  assert (E : select (fun a => match a with
                               | AMethod m => if is_stateful m then None else Some m
                               | _ => None end) abi =
              select (fun a => match a with
                               | AMethod m => if negb (is_stateful m) then Some m else None
                               | _ => None end) abi).
  { induction abi as [|a abi IH]; [reflexivity|].
    destruct a; simpl; try exact IH. destruct (is_stateful m); simpl; now rewrite IH. }
  rewrite E. repeat split.
  rewrite (select_methods abi (fun m => negb (is_stateful m))), (select_methods abi is_stateful).
  apply filter_partition_length.
Qed.

End ContractProofs.

(** ** PCMap *)
Module PCMapProofs.
Import PCMap.

Section Assoc.
Context {K V : Type}.
Variable eqb : K -> K -> bool.
Hypothesis eqb_iff : forall x y, eqb x y = true <-> x = y.

Lemma assoc_get_set (d : list (K * V)) (k k' : K) (v : V) :
  assoc_get eqb (assoc_set eqb d k v) k' = if eqb k k' then Some v else assoc_get eqb d k'.
Proof.
  induction d as [|[k0 v0] d IH]; simpl.
  - destruct (eqb k k'); reflexivity.
  - destruct (eqb k0 k) eqn:E0.
    + apply eqb_iff in E0. subst k0. simpl. destruct (eqb k k'); reflexivity.
    + simpl. rewrite IH.
      destruct (eqb k0 k') eqn:E1, (eqb k k') eqn:E2; try reflexivity.
      apply eqb_iff in E1, E2. subst. rewrite (proj2 (eqb_iff k' k') eq_refl) in E0.
      discriminate.
Qed.

Lemma assoc_set_in (d : list (K * V)) (k : K) (v : V) : In (k, v) (assoc_set eqb d k v).
Proof.
  induction d as [|[k0 v0] d IH]; simpl; [left; reflexivity|].
  destruct (eqb k0 k) eqn:E0; [apply eqb_iff in E0; subst; left; reflexivity | right; exact IH].
Qed.

End Assoc.

Lemma Z_eqb_iff : forall x y : Z, Z.eqb x y = true <-> x = y.
Proof. exact Z.eqb_eq. Qed.

Lemma String_eqb_iff : forall x y : string, String.eqb x y = true <-> x = y.
Proof. exact String.eqb_eq. Qed.

Section Parse.
Variable py_str : PyVal -> string.

Lemma parse_into_each (entries : root_t) :
  forall results res, parse_into py_str results entries = Ok res ->
  forall k v, In (k, v) entries -> exists it, parse_value py_str v = Ok it.
Proof.
  induction entries as [|[k0 v0] rest IH]; intros results res H k v Hin; [destruct Hin|].
  cbn [parse_into] in H.
  destruct (parse_value py_str v0) as [it0|e] eqn:E0; [|discriminate].
  cbn [bind] in H. destruct (py_int (VStr k0)) as [z0|e]; [|discriminate].
  cbn [bind] in H.
  destruct Hin as [Hin|Hin]; [injection Hin as <- <-; eauto|].
  exact (IH _ _ H k v Hin).
Qed.

(** An entry whose [value["location"]] raises makes [parse] raise. *)
Lemma parse_fails_on (root : root_t) (k : string) (v : RawVal) (e : PyError) :
  In (k, v) root -> get_location v = Err e -> forall res, parse py_str root <> Ok res.
Proof.
  intros Hin Hv res H.
  destruct (parse_into_each root [] res H k v Hin) as [it Hit].
  unfold parse_value in Hit. rewrite Hv in Hit. discriminate.
Qed.

(** The item [parse] keeps for [pc] comes from the last entry of the root
    whose key reads as [pc]. *)
Lemma parse_into_lookup (entries : root_t) :
  forall results res, parse_into py_str results entries = Ok res ->
  forall pc,
  (forall k v,
     find (fun kv : string * RawVal =>
             match py_int (VStr (fst kv)) with Ok z => Z.eqb z pc | Err _ => false end)
          (rev entries) = Some (k, v) ->
     exists it, parse_value py_str v = Ok it /\ assoc_get Z.eqb res pc = Some it) /\
  (find (fun kv : string * RawVal =>
           match py_int (VStr (fst kv)) with Ok z => Z.eqb z pc | Err _ => false end)
        (rev entries) = None ->
   assoc_get Z.eqb res pc = assoc_get Z.eqb results pc).
Proof.
  induction entries as [|[k0 v0] rest IH]; intros results res H pc.
  - cbn [parse_into] in H. injection H as <-. split; [intros k v Hf; discriminate | auto].
  - cbn [parse_into] in H.
    destruct (parse_value py_str v0) as [it0|e] eqn:E0; [|discriminate].
    cbn [bind] in H. destruct (py_int (VStr k0)) as [z0|e] eqn:Ez; [|discriminate].
    cbn [bind] in H.
    destruct (IH _ _ H pc) as [IH1 IH2].
    cbn [rev]. rewrite ASTFacts.find_app.
    destruct (find _ (rev rest)) as [[k v]|] eqn:Ef.
    + split; [|intros Hn; discriminate].
      intros k' v' Hs. injection Hs as <- <-. exact (IH1 k v eq_refl).
    + specialize (IH2 eq_refl).
      rewrite (assoc_get_set Z.eqb Z_eqb_iff) in IH2.
      cbn [find fst]. rewrite Ez.
      destruct (Z.eqb z0 pc).
      * split; [|intros Hn; discriminate].
        intros k v Hs. injection Hs as <- <-. eauto.
      * split; [intros k v Hs; discriminate | auto].
Qed.

End Parse.

(** What [parse] builds from one value: the first four entries of its
    "location" list, as they are. *)
Lemma parse_value_fields (py_str : PyVal -> string) (d : list (string * PyVal))
    (xs : list (option Z)) (it : PCMapItem)
    (Hloc : assoc_get String.eqb d "location" = Some (VList (map opt_int xs)))
    (Hlen : 4 <= List.length xs)
    (Hp : parse_value py_str (RDict d) = Ok it) :
  line_start it = nth 0 xs None /\ column_start it = nth 1 xs None /\
  line_end it = nth 2 xs None /\ column_end it = nth 3 xs None.
Proof.
  destruct xs as [|a [|b [|c [|e rest]]]]; cbn [List.length] in Hlen; try lia.
  unfold parse_value, get_location in Hp. rewrite Hloc in Hp. cbn [bind] in Hp.
  destruct a, b, c, e; cbn in Hp; injection Hp as <-; repeat split.
Qed.

(** X6: after a successful [parse], the item for [pc] comes from the last
    root entry whose key reads as [pc]; when that entry's "location" is a
    list of at least four optional ints, the item holds the first four as
    they are and its [location] gives each of them, with a missing one or a
    0 read as -1; when it is [None], [location] is [(-1, -1, -1, -1)]. *)
Theorem parse_item_location (py_str : PyVal -> string) (root : root_t) (res : list (Z * PCMapItem))
    (H : parse py_str root = Ok res) (pc : Z) (k : string) (d : list (string * PyVal))
    (Hf : find (fun kv : string * RawVal =>
                  match py_int (VStr (fst kv)) with Ok z => Z.eqb z pc | Err _ => false end)
               (rev root) = Some (k, RDict d)) :
  let dflt := fun o : option Z =>
                match o with Some z => if Z.eqb z 0 then (-1)%Z else z | None => (-1)%Z end in
  (assoc_get String.eqb d "location" = Some VNone ->
     exists it, assoc_get Z.eqb res pc = Some it /\ location it = ((-1)%Z, (-1)%Z, (-1)%Z, (-1)%Z)) /\
  (forall xs, assoc_get String.eqb d "location" = Some (VList (map opt_int xs)) ->
     4 <= List.length xs ->
     exists it, assoc_get Z.eqb res pc = Some it /\
       line_start it = nth 0 xs None /\ column_start it = nth 1 xs None /\
       line_end it = nth 2 xs None /\ column_end it = nth 3 xs None /\
       location it = (dflt (nth 0 xs None), dflt (nth 1 xs None),
                      dflt (nth 2 xs None), dflt (nth 3 xs None))).
Proof.
  intros dflt.
  destruct (parse_into_lookup py_str root [] res H pc) as [H1 _].
  destruct (H1 k (RDict d) Hf) as (it & Hp & Hg).
  split.
  - intros Hl. exists it. split; [exact Hg|].
    unfold parse_value, get_location in Hp. rewrite Hl in Hp. cbn [bind] in Hp.
    injection Hp as <-. reflexivity.
  - intros xs Hl Hlen. exists it. split; [exact Hg|].
    destruct (parse_value_fields py_str d xs it Hl Hlen Hp) as (E1 & E2 & E3 & E4).
    repeat split; try assumption.
    unfold location. rewrite E1, E2, E3, E4. reflexivity.
Qed.

Definition loc_root : root_t :=
  [("7", RDict [("location", VNone)]);
   ("07", RDict [("location", VList [VInt 12; VInt 0; VNone; VInt 4])]);
   ("8", RDict [("location", VNone)])].

Lemma parse_item_location_witness :
  parse py_str0 loc_root =
    Ok [(7%Z, mkPCMapItem (Some 12%Z) (Some 0%Z) None (Some 4%Z) None);
        (8%Z, mkPCMapItem None None None None None)] /\
  exists it, assoc_get Z.eqb [(7%Z, mkPCMapItem (Some 12%Z) (Some 0%Z) None (Some 4%Z) None);
                              (8%Z, mkPCMapItem None None None None None)] 7%Z = Some it /\
    line_start it = Some 12%Z /\ column_start it = Some 0%Z /\
    line_end it = None /\ column_end it = Some 4%Z /\
    location it = (12%Z, (-1)%Z, (-1)%Z, 4%Z).
Proof.
  split; [vm_compute; reflexivity|].
  exact (proj2 (parse_item_location py_str0 loc_root _
           (eq_refl : parse py_str0 loc_root =
              Ok [(7%Z, mkPCMapItem (Some 12%Z) (Some 0%Z) None (Some 4%Z) None);
                  (8%Z, mkPCMapItem None None None None None)])
           7%Z "07" [("location", VList [VInt 12; VInt 0; VNone; VInt 4])] eq_refl)
           [Some 12%Z; Some 0%Z; None; Some 4%Z] eq_refl (le_n 4)).
Defined.

(** X7: if some entry of the root is a dict without a "location" key, or is
    not a dict at all, [parse] never returns: it raises. *)
Theorem parse_missing_location (py_str : PyVal -> string) (root : root_t) (k : string) (v : RawVal)
    (Hin : In (k, v) root)
    (Hv : match v with
          | RDict d => assoc_get String.eqb d "location" = None
          | RVal _ => True
          end) :
  forall res, parse py_str root <> Ok res.
Proof.
  destruct v as [d|w].
  - apply (parse_fails_on py_str root k (RDict d) KeyError Hin). simpl. now rewrite Hv.
  - apply (parse_fails_on py_str root k (RVal w) TypeError Hin). reflexivity.
Qed.

Lemma parse_missing_location_witness :
  In ("5", RDict [("dev", VStr "x")]) [("4", RDict [("location", VNone)]); ("5", RDict [("dev", VStr "x")])] /\
  assoc_get String.eqb [("dev", VStr "x")] "location" = None /\
  forall res, parse py_str0 [("4", RDict [("location", VNone)]); ("5", RDict [("dev", VStr "x")])] <> Ok res.
Proof.
  split; [right; left; reflexivity|]. split; [reflexivity|].
  exact (parse_missing_location py_str0 [("4", RDict [("location", VNone)]); ("5", RDict [("dev", VStr "x")])]
           "5" (RDict [("dev", VStr "x")]) (or_intror (or_introl eq_refl)) eq_refl).
Defined.

(** X8: when [parse] succeeds, the item it maps [pc] to is built from the
    last root entry whose key [int()] reads as [pc] (keys such as "7" and
    "07" collapse into one, the later winning); [pc] is absent when no key
    reads as it. *)
Theorem parse_lookup (py_str : PyVal -> string) (root : root_t) (res : list (Z * PCMapItem))
    (H : parse py_str root = Ok res) (pc : Z) :
  (forall k v,
     find (fun kv : string * RawVal =>
             match py_int (VStr (fst kv)) with Ok z => Z.eqb z pc | Err _ => false end)
          (rev root) = Some (k, v) ->
     exists it, parse_value py_str v = Ok it /\ assoc_get Z.eqb res pc = Some it) /\
  (find (fun kv : string * RawVal =>
           match py_int (VStr (fst kv)) with Ok z => Z.eqb z pc | Err _ => false end)
        (rev root) = None ->
   assoc_get Z.eqb res pc = None).
Proof.
  destruct (parse_into_lookup py_str root [] res H pc) as [H1 H2].
  split; [exact H1 | intros Hn; rewrite (H2 Hn); reflexivity].
Qed.

Definition dup_root : root_t :=
  [("7", RDict [("location", VList [VInt 1; VInt 2; VInt 1; VInt 9])]);
   ("07", RDict [("location", VNone); ("dev", VStr "inlined")])].

Lemma parse_lookup_witness :
  parse py_str0 dup_root =
    Ok [(7%Z, mkPCMapItem None None None None (Some "inlined"))] /\
  exists it, parse_value py_str0 (RDict [("location", VNone); ("dev", VStr "inlined")]) = Ok it /\
             assoc_get Z.eqb [(7%Z, mkPCMapItem None None None None (Some "inlined"))] 7%Z = Some it.
Proof.
  split; [vm_compute; reflexivity|].
  exact (proj1 (parse_lookup py_str0 dup_root _ (eq_refl : parse py_str0 dup_root =
           Ok [(7%Z, mkPCMapItem None None None None (Some "inlined"))]) 7%Z)
           "07" (RDict [("location", VNone); ("dev", VStr "inlined")]) eq_refl).
Defined.

(** X9: after [pcmap[pc] = value], [pcmap[pc']] for a [pc'] with the same
    [str()] returns [value], a list wrapped as [{"location": value}], and
    other keys keep their entries; [pc' in pcmap] becomes [True] for that
    key and is unchanged for the others. *)
Theorem setitem_getitem (root : root_t) (pc pc' : PC) (value : RawVal) :
  getitem (setitem root pc value) pc' =
    (if String.eqb (pc_key pc) (pc_key pc')
     then Ok (match value with RVal (VList l) => RDict [("location", VList l)] | _ => value end)
     else getitem root pc') /\
  contains (setitem root pc value) pc' = String.eqb (pc_key pc) (pc_key pc') || contains root pc'.
Proof.
  unfold getitem, contains, setitem.
  rewrite (assoc_get_set String.eqb String_eqb_iff).
  destruct (String.eqb (pc_key pc) (pc_key pc')); split; reflexivity.
Qed.

(** X10: [pcmap[pc] = value] stores a value that is neither a list nor a
    dict (for instance [None]) as it is, and [parse] then raises. *)
Theorem setitem_unwrapped_parse_fails (py_str : PyVal -> string) (root : root_t) (pc : PC) (v : PyVal)
    (Hv : forall l, v <> VList l) :
  getitem (setitem root pc (RVal v)) pc = Ok (RVal v) /\
  forall res, parse py_str (setitem root pc (RVal v)) <> Ok res.
Proof.
  assert (E : match RVal v with RVal (VList l) => RDict [("location", VList l)] | _ => RVal v end
              = RVal v) by (destruct v; try reflexivity; exfalso; eapply Hv; reflexivity).
  split.
  - unfold getitem, setitem. rewrite E.
    rewrite (assoc_get_set String.eqb String_eqb_iff), String.eqb_refl. reflexivity.
  - apply (parse_fails_on py_str _ (pc_key pc) (RVal v) TypeError); [|reflexivity].
    unfold setitem. rewrite E.
    apply (assoc_set_in String.eqb String_eqb_iff).
Qed.

Lemma setitem_unwrapped_parse_fails_witness :
  (forall l, VNone <> VList l) /\
  getitem (setitem dup_root (PCInt 12) (RVal VNone)) (PCInt 12) = Ok (RVal VNone) /\
  forall res, parse py_str0 (setitem dup_root (PCInt 12) (RVal VNone)) <> Ok res.
Proof.
  assert (Hv : forall l, VNone <> VList l) by discriminate.
  split; [exact Hv|].
  exact (setitem_unwrapped_parse_fails py_str0 dup_root (PCInt 12) VNone Hv).
Defined.

End PCMapProofs.

(** ** PCMap: [__setitem__] under an int pc, then [parse] *)
Module PCMapRoundTrip.
Import PCMap PCMapProofs.

Lemma digit_char (n : N) :
  PyStr.is_digit (ascii_of_N (48 + n mod 10)) = true /\
  PyStr.digit_val (ascii_of_N (48 + n mod 10)) = Z.of_N (n mod 10).
Proof.
  assert (Hm : (n mod 10 < 10)%N) by (apply N.mod_lt; discriminate).
  unfold PyStr.is_digit, PyStr.digit_val, nat_of_ascii.
  rewrite N_ascii_embedding by lia.
  remember (n mod 10)%N as r eqn:Er; clear Er.
  assert (r = 0 \/ r = 1 \/ r = 2 \/ r = 3 \/ r = 4 \/ r = 5 \/ r = 6 \/ r = 7 \/ r = 8 \/ r = 9)%N
    as Hr by lia.
  repeat destruct Hr as [->|Hr]; subst; split; reflexivity.
Qed.

Lemma digits_N_digits (f : nat) (n : N) (acc : string) :
  PyStr.all_chars PyStr.is_digit acc = true ->
  PyStr.all_chars PyStr.is_digit (digits_N f n acc) = true.
Proof.
  revert n acc; induction f as [|f IH]; intros n acc H; [exact H|].
  cbn [digits_N].
  assert (Hacc : PyStr.all_chars PyStr.is_digit (String (ascii_of_N (48 + n mod 10)) acc) = true)
    by (cbn [PyStr.all_chars]; rewrite (proj1 (digit_char n)); exact H).
  destruct (N.div n 10 =? 0)%N; [exact Hacc | apply IH, Hacc].
Qed.

Lemma digits_val_digit (n : N) (acc : string) (a : Z) (b : bool) :
  PyStr.digits_val (String (ascii_of_N (48 + n mod 10)) acc) a b =
  PyStr.digits_val acc (a * 10 + Z.of_N (n mod 10))%Z true.
Proof.
  destruct (digit_char n) as [Hd Hv].
  cbn [PyStr.digits_val]. rewrite Hd, Hv. reflexivity.
Qed.

Lemma N_of_nat_succ (f : nat) : N.of_nat (S f) = N.succ (N.of_nat f).
Proof. destruct f; reflexivity. Qed.

Lemma digits_N_S (f : nat) (n : N) (acc : string) :
  digits_N (S f) n acc =
  if (n / 10 =? 0)%N then String (ascii_of_N (48 + n mod 10)) acc
  else digits_N f (n / 10) (String (ascii_of_N (48 + n mod 10)) acc).
Proof. reflexivity. Qed.

Lemma digits_N_val (f : nat) :
  forall n acc, (n < 2 ^ N.of_nat f)%N ->
  PyStr.digits_val (digits_N (S f) n acc) 0 false = PyStr.digits_val acc (Z.of_N n) true.
Proof.
  induction f as [|f IH]; intros n acc Hn.
  - cbn [N.of_nat] in Hn. rewrite N.pow_0_r in Hn.
    assert (n = 0%N) as -> by lia.
    reflexivity.
  - pose proof (N.div_mod n 10 ltac:(discriminate)) as Hdm.
    rewrite digits_N_S. destruct (n / 10 =? 0)%N eqn:E.
    + rewrite digits_val_digit. apply N.eqb_eq in E. f_equal. lia.
    + rewrite IH.
      * rewrite digits_val_digit. f_equal. lia.
      * rewrite N_of_nat_succ, N.pow_succ_r' in Hn.
        apply N.Div0.div_lt_upper_bound. lia.
Qed.

Lemma pos_size_nat_bound (p : positive) : (N.pos p < 2 ^ N.of_nat (Pos.size_nat p))%N.
Proof.
  induction p as [p IH|p IH|]; cbn [Pos.size_nat].
  - rewrite N_of_nat_succ, N.pow_succ_r'. lia.
  - rewrite N_of_nat_succ, N.pow_succ_r'. lia.
  - reflexivity.
Qed.

Lemma size_nat_bound (n : N) : (n < 2 ^ N.of_nat (N.size_nat n))%N.
Proof. destruct n as [|p]; [reflexivity | apply pos_size_nat_bound]. Qed.

Lemma digit_not_sign (c : ascii) :
  PyStr.is_digit c = true -> Ascii.eqb c "-"%char = false /\ Ascii.eqb c "+"%char = false.
Proof.
  intros H. split; destruct (Ascii.eqb c _) eqn:E; try reflexivity;
    apply Ascii.eqb_eq in E; subst c; discriminate.
Qed.

(** [int(str(z)) == z] *)
Lemma py_int_str_of_Z (z : Z) : py_int (VStr (str_of_Z z)) = Ok z.
Proof.
  set (n := Z.to_N (Z.abs z)).
  set (ds := digits_N (S (N.size_nat n)) n EmptyString).
  assert (Hval : PyStr.digits_val ds 0 false = Some (Z.of_N n)).
  { unfold ds. rewrite (digits_N_val _ n EmptyString (size_nat_bound n)). reflexivity. }
  assert (Hdig : PyStr.all_chars PyStr.is_digit ds = true) by (apply digits_N_digits; reflexivity).
  assert (Hplain : forall s, PyStr.all_chars PyStr.is_digit s = true -> plain s = true).
  { intros s. apply SigFacts.all_chars_impl. intros c Hc.
    unfold plain_char. unfold PyStr.is_digit in Hc. apply andb_true_iff in Hc as [H1 H2].
    apply Nat.leb_le in H1, H2.
    destruct (PyStr.is_space c) eqn:Es;
      [unfold PyStr.is_space in Es; apply orb_true_iff in Es as [Es|Es];
       apply andb_true_iff in Es as [Es1 Es2]; apply Nat.leb_le in Es1, Es2; lia|].
    destruct (Ascii.eqb c ","%char) eqn:E1;
      [apply Ascii.eqb_eq in E1; subst c; cbv in H1; lia|].
    destruct (Ascii.eqb c "("%char) eqn:E2;
      [apply Ascii.eqb_eq in E2; subst c; cbv in H1; lia|].
    destruct (Ascii.eqb c ")"%char) eqn:E3;
      [apply Ascii.eqb_eq in E3; subst c; cbv in H1; lia|].
    destruct (Ascii.eqb c ">"%char) eqn:E4;
      [apply Ascii.eqb_eq in E4; subst c; cbv in H2; lia|].
    reflexivity. }
  unfold py_int, PyStr.py_int_of_str, str_of_Z. fold n. fold ds.
  destruct (z <? 0)%Z eqn:Ez.
  - rewrite SigFacts.strip_plain.
    2:{ change ("-" ++ ds) with (String "-"%char ds). unfold plain. cbn [PyStr.all_chars].
        pose proof (Hplain ds Hdig) as Hp. unfold plain in Hp. rewrite Hp. reflexivity. }
    change ("-" ++ ds) with (String "-"%char ds). cbn [Ascii.eqb Bool.eqb].
    rewrite Hval. cbn [option_map]. f_equal. unfold n. apply Z.ltb_lt in Ez. lia.
  - rewrite SigFacts.strip_plain by exact (Hplain ds Hdig).
    destruct ds as [|c r] eqn:Eds; [discriminate Hval|].
    cbn [PyStr.all_chars] in Hdig. apply andb_true_iff in Hdig as [Hc _].
    destruct (digit_not_sign c Hc) as [-> ->]. rewrite Hval.
    f_equal. unfold n. apply Z.ltb_ge in Ez. lia.
Qed.

Lemma parse_value_list (py_str : PyVal -> string) (xs : list (option Z)) :
  4 <= List.length xs ->
  parse_value py_str (RDict [("location", VList (map opt_int xs))]) =
  Ok (mkPCMapItem (nth 0 xs None) (nth 1 xs None) (nth 2 xs None) (nth 3 xs None) None).
Proof.
  intros Hlen.
  destruct xs as [|a [|b [|c [|e rest]]]]; cbn [List.length] in Hlen; try lia.
  destruct a, b, c, e; reflexivity.
Qed.

Lemma assoc_set_in_inv {V : Type} (d : list (string * V)) (k0 : string) (v0 : V) (k : string) (v : V) :
  NoDup (map fst d) -> In (k, v) (assoc_set String.eqb d k0 v0) ->
  (k = k0 /\ v = v0) \/ (In (k, v) d /\ k <> k0).
Proof.
  induction d as [|[k1 v1] d IH]; intros Hnd Hin; cbn [assoc_set] in Hin.
  - destruct Hin as [Hin|[]]. injection Hin as <- <-. left; auto.
  - cbn [map fst] in Hnd. apply NoDup_cons_iff in Hnd as [Hk1 Hnd].
    destruct (String.eqb k1 k0) eqn:E.
    + apply String.eqb_eq in E. subst k1.
      destruct Hin as [Hin|Hin]; [injection Hin as <- <-; left; auto|].
      right. split; [right; exact Hin|].
      intros ->. apply Hk1. apply (in_map fst) in Hin. exact Hin.
    + destruct Hin as [Hin|Hin].
      * injection Hin as <- <-. right. split; [left; reflexivity|].
        intros ->. rewrite String.eqb_refl in E. discriminate.
      * destruct (IH Hnd Hin) as [H|[H1 H2]]; [left; exact H | right; split; [right|]; assumption].
Qed.

(** X11: after [pcmap[pc] = [l0, c0, l1, c1, ...]] for an int [pc], when
    the map's keys are distinct and no other key reads as [pc] under
    [int()], a successful [parse] maps [pc] to an item with those four line
    and column values and no [dev]. *)
Theorem setitem_then_parse (py_str : PyVal -> string) (root : root_t) (z : Z)
    (xs : list (option Z)) (res : list (Z * PCMapItem))
    (Hlen : 4 <= List.length xs)
    (Hnd : NoDup (map fst root))
    (Hkeys : forall k v, In (k, v) root -> py_int (VStr k) = Ok z -> k = str_of_Z z)
    (Hp : parse py_str (setitem root (PCInt z) (RVal (VList (map opt_int xs)))) = Ok res) :
  assoc_get Z.eqb res z =
    Some (mkPCMapItem (nth 0 xs None) (nth 1 xs None) (nth 2 xs None) (nth 3 xs None) None).
Proof.
  set (w := RDict [("location", VList (map opt_int xs))]).
  set (root' := setitem root (PCInt z) (RVal (VList (map opt_int xs)))).
  set (P := fun kv : string * RawVal =>
              match py_int (VStr (fst kv)) with Ok z' => Z.eqb z' z | Err _ => false end).
  assert (Hw : In (str_of_Z z, w) root') by apply (assoc_set_in String.eqb String_eqb_iff).
  assert (Hf : find P (rev root') = Some (str_of_Z z, w)).
  { destruct (find P (rev root')) as [[k v]|] eqn:Ef.
    - apply find_some in Ef as [Hin HP]. apply in_rev in Hin.
      unfold P in HP. cbn [fst] in HP.
      destruct (py_int (VStr k)) as [z'|] eqn:Ek; [|discriminate].
      apply Z.eqb_eq in HP. subst z'.
      destruct (assoc_set_in_inv root (str_of_Z z) w k v Hnd Hin) as [[-> ->]|[Hin' Hne]];
        [reflexivity|].
      exfalso. exact (Hne (Hkeys k v Hin' Ek)).
    - exfalso. apply in_rev in Hw. pose proof (find_none _ _ Ef _ Hw) as Hn.
      unfold P in Hn. cbn [fst] in Hn. rewrite py_int_str_of_Z, Z.eqb_refl in Hn.
      discriminate. }
  destruct (parse_into_lookup py_str root' [] res Hp z) as [H1 _].
  destruct (H1 _ _ Hf) as (it & Hit & Hget).
  unfold w in Hit. rewrite (parse_value_list py_str xs Hlen) in Hit.
  injection Hit as <-. exact Hget.
Qed.

Lemma setitem_then_parse_witness :
  4 <= List.length [Some 3%Z; Some 0%Z; Some 3%Z; Some 14%Z] /\
  NoDup (map fst dup_root) /\
  (forall k v, In (k, v) dup_root -> py_int (VStr k) = Ok 12%Z -> k = str_of_Z 12) /\
  parse py_str0 (setitem dup_root (PCInt 12) (RVal (VList (map opt_int [Some 3%Z; Some 0%Z; Some 3%Z; Some 14%Z]))))
    = Ok [(7%Z, mkPCMapItem None None None None (Some "inlined"));
          (12%Z, mkPCMapItem (Some 3%Z) (Some 0%Z) (Some 3%Z) (Some 14%Z) None)] /\
  assoc_get Z.eqb [(7%Z, mkPCMapItem None None None None (Some "inlined"));
                   (12%Z, mkPCMapItem (Some 3%Z) (Some 0%Z) (Some 3%Z) (Some 14%Z) None)] 12%Z =
    Some (mkPCMapItem (Some 3%Z) (Some 0%Z) (Some 3%Z) (Some 14%Z) None).
Proof.
  assert (Hlen : 4 <= List.length [Some 3%Z; Some 0%Z; Some 3%Z; Some 14%Z]) by (simpl; lia).
  assert (Hnd : NoDup (map fst dup_root)).
  { constructor; [simpl; intros [H|[]]; discriminate | constructor; [intros []|constructor]]. }
  assert (Hk : forall k v, In (k, v) dup_root -> py_int (VStr k) = Ok 12%Z -> k = str_of_Z 12).
  { intros k v [H|[H|[]]]; injection H as <- <-; vm_compute; discriminate. }
  assert (Hp : parse py_str0 (setitem dup_root (PCInt 12) (RVal (VList (map opt_int [Some 3%Z; Some 0%Z; Some 3%Z; Some 14%Z]))))
    = Ok [(7%Z, mkPCMapItem None None None None (Some "inlined"));
          (12%Z, mkPCMapItem (Some 3%Z) (Some 0%Z) (Some 3%Z) (Some 14%Z) None)])
    by (vm_compute; reflexivity).
  split; [exact Hlen|]. split; [exact Hnd|]. split; [exact Hk|]. split; [exact Hp|].
  exact (setitem_then_parse py_str0 dup_root 12 _ _ Hlen Hnd Hk Hp).
Defined.

End PCMapRoundTrip.

(** ** SourceMap.parse: one item per step *)
Module SourceMapCount.
Import SourceMap.

Lemma parse_rows_length (rows : list string) :
  forall prev items, parse_rows rows prev = Ok items -> List.length items = List.length rows.
Proof.
  induction rows as [|row rows IH]; intros prev items H; cbn [parse_rows] in H.
  - injection H as <-. reflexivity.
  - destruct (parse_str row prev) as [it|e]; [|discriminate]. cbn [bind] in H.
    destruct (parse_rows rows (Some it)) as [its|e] eqn:E; [|discriminate].
    cbn [bind] in H. injection H as <-. cbn [List.length]. f_equal. exact (IH _ _ E).
Qed.

Lemma split_char_length (c : ascii) (s : string) :
  List.length (PyStr.split_char c s) = S (count_char c s).
Proof.
  induction s as [|d r IH]; [reflexivity|]. cbn [PyStr.split_char count_char].
  destruct (Ascii.eqb c d).
  - cbn [List.length]. rewrite IH. reflexivity.
  - destruct (PyStr.split_char c r) as [|w ws]; [discriminate IH|].
    cbn [List.length] in *. rewrite IH. reflexivity.
Qed.

(** X12: a successful [SourceMap.parse] yields one item per
    ";"-separated step of the stripped text: one more than the number of
    ";", so an empty source map still yields one item. *)
Theorem parse_item_count (root : string) (items : list SourceMapItem)
    (H : parse root = Ok items) :
  List.length items = S (count_char ";"%char (PyStr.strip root)).
Proof.
  unfold parse in H. rewrite (parse_rows_length _ _ _ H). apply split_char_length.
Qed.

Lemma parse_item_count_witness :
  parse "" = Ok [mkItem None None None (VStr "")] /\
  List.length [mkItem None None None (VStr "")] = S (count_char ";"%char (PyStr.strip "")) /\
  parse "1:2:1;;3:4::o;" = Ok [mkItem (Some 1%Z) (Some 2%Z) (Some 1%Z) (VStr "");
                              mkItem (Some 1%Z) (Some 2%Z) (Some 1%Z) (VStr "");
                              mkItem (Some 3%Z) (Some 4%Z) (Some 1%Z) (VStr "o");
                              mkItem (Some 3%Z) (Some 4%Z) (Some 1%Z) (VStr "o")] /\
  List.length [mkItem (Some 1%Z) (Some 2%Z) (Some 1%Z) (VStr "");
               mkItem (Some 1%Z) (Some 2%Z) (Some 1%Z) (VStr "");
               mkItem (Some 3%Z) (Some 4%Z) (Some 1%Z) (VStr "o");
               mkItem (Some 3%Z) (Some 4%Z) (Some 1%Z) (VStr "o")] =
    S (count_char ";"%char (PyStr.strip "1:2:1;;3:4::o;")).
Proof.
  assert (H1 : parse "" = Ok [mkItem None None None (VStr "")]) by (vm_compute; reflexivity).
  assert (H2 : parse "1:2:1;;3:4::o;" = Ok [mkItem (Some 1%Z) (Some 2%Z) (Some 1%Z) (VStr "");
                              mkItem (Some 1%Z) (Some 2%Z) (Some 1%Z) (VStr "");
                              mkItem (Some 3%Z) (Some 4%Z) (Some 1%Z) (VStr "o");
                              mkItem (Some 3%Z) (Some 4%Z) (Some 1%Z) (VStr "o")])
    by (vm_compute; reflexivity).
  split; [exact H1|]. split; [exact (parse_item_count "" _ H1)|].
  split; [exact H2|]. exact (parse_item_count _ _ H2).
Defined.

End SourceMapCount.

(** ** [parse_signature] on malformed input *)
Module SigEdge.
Import PyStr Utils PyStrFacts SigDefs SigFacts SigParse.

Definition spaces (s : string) : bool := all_chars (fun c => Ascii.eqb c " "%char) s.

Lemma skip_spaces_spaces : forall sp, spaces sp = true -> skip_spaces sp = Err IndexError.
Proof.
  induction sp as [|c sp IH]; intros H; [reflexivity|].
  cbn [spaces all_chars] in H. unfold spaces in IH.
  apply andb_prop in H as [Hc H]. cbn [skip_spaces]. rewrite Hc. exact (IH H).
Qed.

Lemma skip_spaces_shape : forall t sp,
  exists t2, skip_spaces (t ++ String ","%char sp) = Ok (t2 ++ String ","%char sp).
Proof.
  induction t as [|c r IH]; intros sp.
  - exists EmptyString. reflexivity.
  - cbn [append skip_spaces]. destruct (Ascii.eqb c " "%char).
    + exact (IH sp).
    + exists (String c r). reflexivity.
Qed.

Lemma read_tuple_spaces : forall sp acc, spaces sp = true -> read_tuple sp acc = Err IndexError.
Proof.
  induction sp as [|c sp IH]; intros acc H; [reflexivity|].
  cbn [spaces all_chars] in H. unfold spaces in IH.
  apply andb_prop in H as [Hc H]. apply Ascii.eqb_eq in Hc. subst c.
  cbn [read_tuple]. exact (IH _ H).
Qed.

Lemma read_tuple_shape : forall t sp acc, spaces sp = true ->
  read_tuple (t ++ String ","%char sp) acc = Err IndexError \/
  exists a t2, read_tuple (t ++ String ","%char sp) acc = Ok (a, t2 ++ String ","%char sp).
Proof.
  induction t as [|c r IH]; intros sp acc Hsp.
  - left. cbn [append read_tuple]. exact (read_tuple_spaces _ _ Hsp).
  - cbn [append read_tuple]. destruct (Ascii.eqb c ")"%char).
    + right. eexists; exists r. reflexivity.
    + apply IH, Hsp.
Qed.

Lemma drop_prefix_comma : forall p r y,
  all_chars (fun c => negb (Ascii.eqb c ","%char)) p = true ->
  String.prefix p (r ++ String ","%char y) = true ->
  exists t2, drop (String.length p) (r ++ String ","%char y) = t2 ++ String ","%char y.
Proof.
  induction p as [|a p IH]; intros r y Hp Hpre.
  - exists r. reflexivity.
  - cbn [all_chars] in Hp. apply andb_prop in Hp as [Ha Hp].
    destruct r as [|b r].
    + cbn in Hpre. destruct (ascii_dec a ","%char); [subst; discriminate|discriminate].
    + cbn [append String.prefix] in Hpre. destruct (ascii_dec a b); [|discriminate].
      cbn [String.length drop append]. exact (IH r y Hp Hpre).
Qed.

(** The input loop never gets past a comma followed only by spaces. *)
Lemma loop_trailing_comma : forall fuel res ty idx nm wo t sp, spaces sp = true ->
  loop fuel res ty idx nm wo (t ++ String ","%char sp) = Err IndexError.
Proof.
  induction fuel as [|f IH]; intros res ty idx nm wo t sp Hsp; [reflexivity|].
  destruct t as [|c r].
  - cbn [append loop]. rewrite Ascii.eqb_refl, (skip_spaces_spaces _ Hsp). reflexivity.
  - cbn [append loop]. destruct (Ascii.eqb c ","%char).
    + destruct (skip_spaces_shape r sp) as [t2 E]. rewrite E.
      cbn [bind]. apply IH, Hsp.
    + destruct (Ascii.eqb c " "%char).
      * destruct (String.prefix "indexed " (r ++ String ","%char sp)) eqn:Ep.
        -- destruct (drop_prefix_comma "indexed " r sp eq_refl Ep) as [t2 Ht2].
           change 8 with (String.length "indexed "). rewrite Ht2. apply IH, Hsp.
        -- apply IH, Hsp.
      * destruct (Ascii.eqb c "("%char).
        -- destruct (read_tuple_shape r sp "(" Hsp) as [-> | (a & t2 & ->)]; [reflexivity|].
           cbn [bind fst snd]. apply IH, Hsp.
        -- destruct wo; apply IH, Hsp.
Qed.

Lemma spaces_no_gt : forall sp, spaces sp = true -> no_gt (String ","%char sp) = true.
Proof.
  intros sp H. unfold no_gt. cbn [all_chars]. unfold spaces in H.
  apply (all_chars_impl (fun c => Ascii.eqb c " "%char) _ sp); [|exact H].
  intros c Hc. apply Ascii.eqb_eq in Hc. now subst c.
Qed.

(** X13: when the name is plain (no whitespace and none of [, ( ) >]) and
    the inputs hold no [>], an input list that ends in a comma followed only
    by spaces, as in ["f(uint256 a, )"] or ["f(,)"], makes [parse_signature] fail with
    IndexError (the space-skipping loop runs off the end of the input), and
    so both [MethodABI.from_signature] and [EventABI.from_signature] fail. *)
Theorem trailing_comma_index_error (nm ins sp : string)
    (Hnm : plain nm = true) (Hins : no_gt ins = true) (Hsp : spaces sp = true) :
  parse_signature (nm ++ "(" ++ (ins ++ "," ++ sp) ++ ")") = Err IndexError /\
  MethodABI.from_signature (nm ++ "(" ++ (ins ++ "," ++ sp) ++ ")") = Err IndexError /\
  EventABI.from_signature (nm ++ "(" ++ (ins ++ "," ++ sp) ++ ")") = Err IndexError.
Proof.
  assert (Hp : parse_signature (nm ++ "(" ++ (ins ++ "," ++ sp) ++ ")") = Err IndexError).
  { rewrite parse_signature_noarrow by
      (exact Hnm || (rewrite no_gt_app, Hins; exact (spaces_no_gt _ Hsp))).
    unfold _parse_signature_inputs.
    replace (String.eqb (ins ++ "," ++ sp) EmptyString) with false by (destruct ins; reflexivity).
    change ("," ++ sp) with (String ","%char sp).
    rewrite (loop_trailing_comma _ _ _ _ _ _ ins sp Hsp). reflexivity. }
  split; [exact Hp|].
  unfold MethodABI.from_signature, EventABI.from_signature. rewrite Hp. split; reflexivity.
Qed.

Lemma trailing_comma_index_error_witness :
  plain "transfer" = true /\ no_gt "address to" = true /\ spaces " " = true /\
  parse_signature ("transfer" ++ "(" ++ ("address to" ++ "," ++ " ") ++ ")") = Err IndexError /\
  MethodABI.from_signature ("transfer" ++ "(" ++ ("address to" ++ "," ++ " ") ++ ")") = Err IndexError /\
  EventABI.from_signature ("transfer" ++ "(" ++ ("address to" ++ "," ++ " ") ++ ")") = Err IndexError.
Proof.
  assert (H1 : plain "transfer" = true) by reflexivity.
  assert (H2 : no_gt "address to" = true) by reflexivity.
  assert (H3 : spaces " " = true) by reflexivity.
  split; [exact H1|]. split; [exact H2|]. split; [exact H3|].
  exact (trailing_comma_index_error "transfer" "address to" " " H1 H2 H3).
Defined.

Lemma plain_app : forall a b, plain (a ++ b) = plain a && plain b.
Proof. intros a b. apply all_chars_app. Qed.

(** X14: a non-empty signature with no whitespace and none of [, ( ) >]
    loses its last character: the name is [s[:-1]] and the inputs are empty, so
    [MethodABI.from_signature "transfer"] builds a method named
    ["transfe"] with no inputs or outputs. *)
Theorem no_paren_drops_last (nm : string) (c : ascii)
    (Hnm : plain nm = true) (Hc : plain_char c = true) :
  parse_signature (nm ++ String c EmptyString) = Ok (nm, [], []) /\
  MethodABI.from_signature (nm ++ String c EmptyString) = Ok (MethodABI.mk nm "nonpayable" [] []) /\
  EventABI.from_signature (nm ++ String c EmptyString) = Ok (EventABI.mk nm [] false).
Proof.
  set (s := nm ++ String c EmptyString).
  assert (Hs : plain s = true) by (unfold s; rewrite plain_app, Hnm; cbn; now rewrite Hc).
  assert (Hlen : String.length s = S (String.length nm))
    by (unfold s; rewrite str_length_app; cbn; lia).
  assert (Hfind : py_find "(" s = (-1)%Z).
  { unfold py_find. now rewrite (find_sub_none _ "(" s (plain_no_paren s Hs) eq_refl). }
  assert (Hname : py_slice s None (Some (-1)%Z) = nm).
  { unfold py_slice, slice_bound. rewrite Hlen.
    replace (Z.to_nat (if (-1 <? 0)%Z then Z.max 0 (-1 + Z.of_nat (S (String.length nm)))
                       else Z.min (-1) (Z.of_nat (S (String.length nm)))))
      with (String.length nm) by (cbn [Z.ltb Z.compare]; lia).
    rewrite Nat.sub_0_r. apply substring_app_l. }
  assert (Hrest : py_slice s (Some (-1)%Z) None = String c EmptyString).
  { unfold py_slice, slice_bound. rewrite Hlen.
    replace (Z.to_nat (if (-1 <? 0)%Z then Z.max 0 (-1 + Z.of_nat (S (String.length nm)))
                       else Z.min (-1) (Z.of_nat (S (String.length nm)))))
      with (String.length nm + 0) by (cbn [Z.ltb Z.compare]; lia).
    replace (S (String.length nm) - (String.length nm + 0)) with 1 by lia.
    unfold s. rewrite substring_shift. reflexivity. }
  assert (Hc1 : strip (String c EmptyString) = String c EmptyString)
    by (apply strip_plain; cbn; now rewrite Hc).
  assert (Hp : parse_signature s = Ok (nm, [], [])).
  { unfold parse_signature.
    rewrite split_arrow_none by (apply plain_no_gt, Hs).
    cbv beta zeta iota delta [hd].
    rewrite Hfind, Hname, Hrest, Hc1, (strip_plain nm Hnm). reflexivity. }
  split; [exact Hp|].
  unfold MethodABI.from_signature, EventABI.from_signature. rewrite Hp. split; reflexivity.
Qed.

Lemma no_paren_drops_last_witness :
  plain "transfe" = true /\ plain_char "r"%char = true /\
  parse_signature ("transfe" ++ String "r"%char EmptyString) = Ok ("transfe", [], []) /\
  MethodABI.from_signature ("transfe" ++ String "r"%char EmptyString) =
    Ok (MethodABI.mk "transfe" "nonpayable" [] []) /\
  EventABI.from_signature ("transfe" ++ String "r"%char EmptyString) =
    Ok (EventABI.mk "transfe" [] false).
Proof.
  assert (H1 : plain "transfe" = true) by reflexivity.
  assert (H2 : plain_char "r"%char = true) by reflexivity.
  split; [exact H1|]. split; [exact H2|].
  exact (no_paren_drops_last "transfe" "r"%char H1 H2).
Defined.

End SigEdge.

(** ** AST line lookup *)
Module ASTLinesProofs.
Import ASTLines.

Lemma lnode_ind (P : LNode -> Prop)
    (H : forall t a b c d ks, Forall P ks -> P (lnode t a b c d ks)) : forall n, P n.
Proof.
  refine (fix IH n := match n with
                      | lnode t a b c d ks => H t a b c d ks _
                      end).
  induction ks as [|k ks IHks]; constructor; [apply IH | exact IHks].
Qed.

Lemma lchildren_cons t a b c d k ks :
  children (lnode t a b c d (k :: ks)) = ((k :: children k) ++ children (lnode t a b c d ks))%list.
Proof. reflexivity. Qed.

Lemma lin_children t a b c d ks x :
  In x (children (lnode t a b c d ks)) -> exists k, In k ks /\ In x (k :: children k).
Proof.
  induction ks as [|k ks IH]; [intros []|].
  rewrite lchildren_cons. intros H. apply in_app_or in H as [H|H].
  - exists k; split; [left|]; auto.
  - destruct (IH H) as (k' & Hk & Hx). exists k'; split; [right|]; auto.
Qed.

Lemma lchildren_incl t a b c d ks k :
  In k ks -> incl (k :: children k) (children (lnode t a b c d ks)).
Proof.
  induction ks as [|k' ks IH]; [intros []|].
  intros [<-|H]; rewrite lchildren_cons.
  - apply incl_appl, incl_refl.
  - apply incl_appr, IH, H.
Qed.

(** Everything below a node below [n] is below [n]. *)
Lemma ldescendant_incl (n x : LNode) :
  In x (children n) -> incl (children x) (children n).
Proof.
  revert x. induction n as [t a b c d ks IH] using lnode_ind. intros x Hx.
  destruct (lin_children t a b c d ks x Hx) as (k & Hk & Hxk).
  eapply incl_tran; [|apply (lchildren_incl t a b c d ks k Hk)].
  destruct Hxk as [<-|Hxk]; [apply incl_tl, incl_refl|].
  rewrite Forall_forall in IH. apply incl_tl, (IH k Hk x Hxk).
Qed.

Lemma lheight_cons t a b c d k ks :
  height (lnode t a b c d (k :: ks)) = S (Nat.max (height k) (pred (height (lnode t a b c d ks)))).
Proof. reflexivity. Qed.

Lemma lheight_pos (n : LNode) : 1 <= height n.
Proof. destruct n; simpl; lia. Qed.

Lemma lheight_kid t a b c d ks k : In k ks -> height k < height (lnode t a b c d ks).
Proof.
  induction ks as [|k' ks IH]; [intros []|].
  rewrite lheight_cons. pose proof (lheight_pos (lnode t a b c d ks)).
  intros [<-|Hin]; [lia|]. specialize (IH Hin). lia.
Qed.

Lemma lheight_children (n x : LNode) : In x (children n) -> height x < height n.
Proof.
  revert x. induction n as [t a b c d ks IH] using lnode_ind. intros x Hx.
  destruct (lin_children t a b c d ks x Hx) as (k & Hk & [<-|Hxk]).
  - now apply lheight_kid.
  - rewrite Forall_forall in IH.
    specialize (IH k Hk x Hxk). pose proof (lheight_kid t a b c d ks k Hk). lia.
Qed.

(** A node of height 1 has no children. *)
Lemma lheight_leaf (n : LNode) : height n = 1 -> children n = [].
Proof.
  destruct n as [t a b c d [|k ks]]; [reflexivity|].
  rewrite lheight_cons. pose proof (lheight_pos k). lia.
Qed.

(** A node of height at least 3 has a kid with children of its own. *)
Lemma lheight_deep (n : LNode) : 3 <= height n -> exists k, In k (children n) /\ children k <> [].
Proof.
  destruct n as [t a b c d ks]. induction ks as [|k ks IH]; [cbn; lia|].
  rewrite lheight_cons. intros H.
  destruct (Nat.le_gt_cases 2 (height k)) as [Hk|Hk].
  - exists k. split; [rewrite lchildren_cons; left; reflexivity|].
    destruct k as [t' a' b' c' d' [|g gs]]; [cbn in Hk; lia|].
    rewrite lchildren_cons. discriminate.
  - destruct IH as (k' & Hk' & Hc); [lia|].
    exists k'. split; [|exact Hc]. rewrite lchildren_cons. right. apply in_or_app. now right.
Qed.

Lemma flat_map_ext_in {X Y : Type} (f g : X -> list Y) (l : list X) :
  (forall x, In x l -> f x = g x) -> flat_map f l = flat_map g l.
Proof.
  induction l as [|x l IH]; intros H; [reflexivity|]. cbn [flat_map].
  rewrite (H x (or_introl eq_refl)), IH; [reflexivity|]. intros; apply H; right; auto.
Qed.

Lemma iter_nodes_fuel_indep (f g : nat) (n : LNode) :
  height n <= f -> height n <= g -> iter_nodes_fuel f n = iter_nodes_fuel g n.
Proof.
  revert g n. induction f as [|f IH]; intros g n Hf Hg; [pose proof (lheight_pos n); lia|].
  destruct g as [|g]; [pose proof (lheight_pos n); lia|].
  cbn [iter_nodes_fuel]. f_equal. apply flat_map_ext_in. intros x Hx.
  pose proof (lheight_children n x Hx). apply IH; lia.
Qed.

(** The recursion of [iter_nodes]: [self], then [iter_nodes] of each child. *)
Lemma iter_nodes_eq (n : LNode) : iter_nodes n = n :: flat_map iter_nodes (children n).
Proof.
  unfold iter_nodes at 1. pose proof (lheight_pos n).
  destruct (height n) as [|h] eqn:Eh; [lia|]. cbn [iter_nodes_fuel]. f_equal.
  apply flat_map_ext_in. intros x Hx. pose proof (lheight_children n x Hx).
  apply iter_nodes_fuel_indep; lia.
Qed.

Lemma in_iter_nodes (h : nat) (n x : LNode) :
  height n <= h -> In x (iter_nodes n) <-> In x (n :: children n).
Proof.
  revert n. induction h as [|h IH]; intros n Hh; [pose proof (lheight_pos n); lia|].
  rewrite iter_nodes_eq. split.
  - intros [<-|Hx]; [left; reflexivity|]. right.
    apply in_flat_map in Hx as (c & Hc & Hxc).
    pose proof (lheight_children n c Hc).
    apply (IH c) in Hxc; [|lia].
    destruct Hxc as [<-|Hxc]; [exact Hc|]. exact (ldescendant_incl n c Hc x Hxc).
  - intros [<-|Hx]; [left; reflexivity|]. right.
    apply in_flat_map. exists x. split; [exact Hx|]. rewrite iter_nodes_eq. left; reflexivity.
Qed.

Lemma flat_map_length_ge {X Y : Type} (f : X -> list Y) (l : list X) :
  (forall x, In x l -> f x <> []) -> List.length l <= List.length (flat_map f l).
Proof.
  induction l as [|x l IH]; intros H; [reflexivity|]. cbn [flat_map List.length].
  rewrite length_app. destruct (f x) as [|y ys] eqn:E; [now elim (H x (or_introl eq_refl))|].
  cbn [List.length]. assert (List.length l <= List.length (flat_map f l)); [|lia].
  apply IH. intros; apply H; right; auto.
Qed.

Lemma flat_map_length_gt {X Y : Type} (f : X -> list Y) (l : list X) (x0 : X) :
  (forall x, In x l -> f x <> []) -> In x0 l -> 2 <= List.length (f x0) ->
  List.length l < List.length (flat_map f l).
Proof.
  induction l as [|x l IH]; intros H Hin H2; [destruct Hin|]. cbn [flat_map List.length].
  rewrite length_app. destruct Hin as [<-|Hin].
  - pose proof (flat_map_length_ge f l (fun y Hy => H y (or_intror Hy))). lia.
  - specialize (IH (fun y Hy => H y (or_intror Hy)) Hin H2).
    destruct (f x) as [|y ys] eqn:E; [now elim (H x (or_introl eq_refl))|].
    cbn [List.length]. lia.
Qed.

Lemma line_match_iff (x : LNode) (ln : list Z) :
  List.length ln = 4 -> line_match x ln = true <-> line_numbers x = ln.
Proof.
  intros Hl. destruct x as [t a b c d ks].
  destruct ln as [|p [|q [|r [|s [|u ln]]]]]; cbn in Hl; try lia.
  unfold line_match. cbn [line_numbers combine forallb].
  rewrite !andb_true_iff, !Z.eqb_eq. split.
  - intros (Ha & Hb & Hc & Hd & _). now subst.
  - intros H. injection H as -> -> -> ->. tauto.
Qed.

Lemma map_result_ok_intro {A B : Type} (f : A -> result B) (g : A -> B) (l : list A) :
  (forall x, In x l -> f x = Ok (g x)) -> map_result f l = Ok (map g l).
Proof.
  induction l as [|x l IH]; intros H; [reflexivity|]. cbn [map_result map].
  rewrite (H x (or_introl eq_refl)). cbn [bind]. rewrite IH; [reflexivity|].
  intros; apply H; right; auto.
Qed.

Lemma concat_map_filter {X : Type} (p : X -> bool) (f : X -> list X) (l : list X) :
  concat (map (fun c => filter p (f c)) l) = filter p (flat_map f l).
Proof.
  induction l as [|x l IH]; [reflexivity|]. cbn [map concat flat_map].
  rewrite filter_app, IH. reflexivity.
Qed.

Lemma get_nodes_at_line_fuel_filter (f : nat) (n : LNode) (ln : list Z) :
  height n <= f ->
  get_nodes_at_line_fuel f n ln =
  if Nat.eqb (List.length ln) 4 then Ok (filter (fun x => line_match x ln) (iter_nodes n))
  else Err ValueError.
Proof.
  revert n. induction f as [|f IH]; intros n Hf; [pose proof (lheight_pos n); lia|].
  cbn [get_nodes_at_line_fuel]. destruct (Nat.eqb (List.length ln) 4) eqn:El; [|reflexivity].
  cbn [negb].
  rewrite (map_result_ok_intro _ (fun c => filter (fun x => line_match x ln) (iter_nodes c))).
  - cbn [bind]. rewrite concat_map_filter, (iter_nodes_eq n). cbn [filter].
    destruct (line_match n ln); reflexivity.
  - intros c Hc. pose proof (lheight_children n c Hc). rewrite IH by lia. reflexivity.
Qed.

Lemma get_nodes_at_line_filter (n : LNode) (ln : list Z) :
  get_nodes_at_line n ln =
  if Nat.eqb (List.length ln) 4 then Ok (filter (fun x => line_match x ln) (iter_nodes n))
  else Err ValueError.
Proof. apply get_nodes_at_line_fuel_filter. lia. Qed.

Lemma match_filter {X Y : Type} (p : X -> bool) (l : list X) (A B : Y) :
  match filter p l with [] => A | _ :: _ => B end = if existsb p l then B else A.
Proof.
  induction l as [|x l IH]; [reflexivity|]. cbn [filter existsb].
  destruct (p x); [reflexivity | exact IH].
Qed.

Lemma existsb_iter_nodes (q : LNode -> bool) (n : LNode) :
  existsb q (iter_nodes n) = existsb q (n :: children n).
Proof.
  apply eq_true_iff_eq. rewrite !existsb_exists. split; intros (x & Hx & Hq); exists x;
    (split; [|exact Hq]).
  - apply (in_iter_nodes (height n)) in Hx; [exact Hx | lia].
  - apply (in_iter_nodes (height n)); [lia | exact Hx].
Qed.

(** X15: [iter_nodes] yields [self] and every node below it and nothing
    else; it yields them each once exactly when no node lies two levels
    below [self] (then it is [self] followed by [children]); as soon as one
    does, some node is yielded more than once, since [children] already
    lists the nodes below each child and [iter_nodes] walks each of them
    again. *)
Theorem iter_nodes_spec (n : LNode) :
  (forall x, In x (iter_nodes n) <-> In x (n :: children n)) /\
  List.length (n :: children n) <= List.length (iter_nodes n) /\
  (height n <= 2 -> iter_nodes n = n :: children n) /\
  (3 <= height n -> List.length (n :: children n) < List.length (iter_nodes n)).
Proof.
  assert (Hne : forall x, In x (children n) -> iter_nodes x <> []).
  { intros x _. rewrite iter_nodes_eq. discriminate. }
  split; [intros x; apply (in_iter_nodes (height n)); lia|].
  split; [rewrite iter_nodes_eq; cbn [List.length];
          pose proof (flat_map_length_ge _ _ Hne); lia|].
  split.
  - intros Hh. rewrite iter_nodes_eq. f_equal.
    transitivity (flat_map (fun x => [x]) (children n)).
    + apply flat_map_ext_in. intros x Hx. pose proof (lheight_children n x Hx).
      pose proof (lheight_pos x). rewrite iter_nodes_eq, (lheight_leaf x) by lia. reflexivity.
    + generalize (children n) as l. induction l as [|x l IH]; [reflexivity|].
      cbn [flat_map app]. now rewrite IH.
  - intros Hh. destruct (lheight_deep n Hh) as (k & Hk & Hkc).
    rewrite iter_nodes_eq. cbn [List.length]. apply (proj1 (Nat.succ_lt_mono _ _)).
    apply (flat_map_length_gt _ _ k Hne Hk).
    rewrite iter_nodes_eq. cbn [List.length].
    destruct (children k) as [|g gs]; [congruence|].
    pose proof (flat_map_length_ge iter_nodes (g :: gs)
      (fun x Hx => ltac:(rewrite iter_nodes_eq; discriminate))). cbn [List.length] in *. lia.
Qed.

(** X16: [get_nodes_at_line] raises ValueError unless it is given four
    numbers; given four, it yields, in [iter_nodes] order, the nodes whose
    [line_numbers] are exactly those four numbers: [self] or nodes below it. *)
Theorem get_nodes_at_line_spec (n : LNode) (ln : list Z) :
  get_nodes_at_line n ln =
    (if Nat.eqb (List.length ln) 4 then Ok (filter (fun x => line_match x ln) (iter_nodes n))
     else Err ValueError) /\
  (List.length ln = 4 -> forall res, get_nodes_at_line n ln = Ok res ->
     forall x, In x res <-> In x (n :: children n) /\ line_numbers x = ln).
Proof.
  split; [apply get_nodes_at_line_filter|].
  intros Hl res H x. rewrite get_nodes_at_line_filter in H.
  replace (Nat.eqb (List.length ln) 4) with true in H by (symmetry; apply Nat.eqb_eq, Hl).
  injection H as <-. rewrite filter_In, (in_iter_nodes (height n)), (line_match_iff x ln Hl) by lia.
  reflexivity.
Qed.

(** X17: [get_defining_function] returns [None] when the node has no
    [FunctionDef] child, whatever it is given, even a wrong number of line
    numbers; otherwise a wrong number raises ValueError, and four numbers
    give the first function that is itself at those line numbers or has a
    node below it that is. *)
Theorem get_defining_function_spec (n : LNode) (ln : list Z) :
  (functions n = [] -> get_defining_function n ln = Ok None) /\
  (functions n <> [] -> List.length ln <> 4 -> get_defining_function n ln = Err ValueError) /\
  (List.length ln = 4 ->
     get_defining_function n ln =
     Ok (find (fun f => existsb (fun x => line_match x ln) (f :: children f)) (functions n))).
Proof.
  unfold get_defining_function. split; [|split].
  - intros ->. reflexivity.
  - intros Hf Hl. destruct (functions n) as [|f fs]; [congruence|]. cbn [first_defining].
    rewrite get_nodes_at_line_filter.
    replace (Nat.eqb (List.length ln) 4) with false by (symmetry; apply Nat.eqb_neq, Hl).
    reflexivity.
  - intros Hl. induction (functions n) as [|f fs IH]; [reflexivity|]. cbn [first_defining find].
    rewrite get_nodes_at_line_filter.
    replace (Nat.eqb (List.length ln) 4) with true by (symmetry; apply Nat.eqb_eq, Hl).
    cbn [bind]. rewrite match_filter, existsb_iter_nodes.
    destruct (existsb _ (f :: children f)); [reflexivity | exact IH].
Qed.

End ASTLinesProofs.

(** ** Payable methods, and the signatures of errors, constructors and structs *)
Module EntryProofs.
Import PyStr Utils SigDefs SigParse SigRoundTrip Contract.

Lemma in_select_method (q : MethodABI.t -> bool) (abi : list ABI) (m : MethodABI.t) :
  In m (select (fun a => match a with AMethod m => if q m then Some m else None | _ => None end) abi)
  <-> In (AMethod m) abi /\ q m = true.
Proof.
  induction abi as [|a abi IH]; cbn [select In]; [tauto|].
  destruct a; try (rewrite IH; split; [intros [? ?]; split; auto | intros [[? | ?] ?]; [discriminate | auto]]).
  destruct (q m0) eqn:Eq; cbn [In]; rewrite IH; split.
  - intros [<- | [H1 H2]]; split; auto.
  - intros [[E | H1] H2]; [injection E as ->; left; reflexivity | right; auto].
  - intros [H1 H2]; split; auto.
  - intros [[E | H1] H2]; [injection E as ->; congruence | auto].
Qed.

Lemma payable_stateful (m : MethodABI.t) : MethodABI.is_payable m = true -> is_stateful m = true.
Proof.
  unfold MethodABI.is_payable, is_stateful. intros H. apply String.eqb_eq in H. rewrite H.
  reflexivity.
Qed.

(** X18: a payable method is stateful: [view_methods] never lists it, and
    [mutable_methods] lists every payable method of the ABI. *)
Theorem payable_not_view (selector_hash_fn : string -> list Byte.byte) (abi : list ABI)
    (m : MethodABI.t) (Hp : MethodABI.is_payable m = true) :
  is_stateful m = true /\
  ~ In m (ABIList.items (view_methods selector_hash_fn abi)) /\
  (In (AMethod m) abi -> In m (ABIList.items (mutable_methods selector_hash_fn abi))).
Proof.
  pose proof (payable_stateful m Hp) as Hs.
  unfold view_methods, mutable_methods, _get_abis. cbn [ABIList.items].
  split; [exact Hs|]. split.
  - intros H.
    assert (E : forall l : list ABI,
      select (fun a => match a with
                       | AMethod m => if is_stateful m then None else Some m
                       | _ => None end) l =
      select (fun a => match a with
                       | AMethod m => if negb (is_stateful m) then Some m else None
                       | _ => None end) l).
    { induction l as [|a l IH]; [reflexivity|].
      destruct a; cbn [select]; try exact IH. destruct (is_stateful m0); cbn; now rewrite IH. }
    rewrite E in H. apply in_select_method in H as [_ H]. rewrite Hs in H. discriminate.
  - intros Hin. apply in_select_method. split; assumption.
Qed.

Definition deposit_m : MethodABI.t := MethodABI.mk "deposit" "payable" [] [].

Lemma payable_not_view_witness :
  MethodABI.is_payable deposit_m = true /\
  is_stateful deposit_m = true /\
  ~ In deposit_m (ABIList.items (view_methods (fun _ => []) (AMethod deposit_m :: abi0))) /\
  (In (AMethod deposit_m) (AMethod deposit_m :: abi0) ->
   In deposit_m (ABIList.items (mutable_methods (fun _ => []) (AMethod deposit_m :: abi0)))).
Proof.
  assert (H : MethodABI.is_payable deposit_m = true) by reflexivity.
  split; [exact H|]. exact (payable_not_view (fun _ => []) (AMethod deposit_m :: abi0) deposit_m H).
Defined.

Lemma parse_entry_signature (nm : string) (ins : list ABIType) :
  plain nm = true -> forallb input_ok ins = true ->
  parse_signature (nm ++ "(" ++ join ", " (map ABITypeM.signature ins) ++ ")") =
  Ok (nm, map trip_m ins, []).
Proof.
  intros Hnm Hins.
  rewrite parse_signature_noarrow.
  - rewrite parse_method_inputs by exact Hins. reflexivity.
  - exact Hnm.
  - exact (no_gt_join _ (forallb_no_gt _ _ _ signature_no_gt Hins)).
Qed.


Definition unauthorized_ins : list ABIType :=
  [mkABIType (Some "caller") (TStr "address") None false; uint256_t].


End EntryProofs.

(** ** Contract ids *)
Module ContractIdsProofs.
Import Contract ContractIds.

Lemma select_app {X Y : Type} (k : X -> option Y) (a b : list X) :
  select k (a ++ b)%list = (select k a ++ select k b)%list.
Proof. induction a as [|x a IH]; [reflexivity|]. cbn [select app]. destruct (k x); now rewrite IH. Qed.

Lemma select_rev {X Y : Type} (k : X -> option Y) (l : list X) :
  rev (select k l) = select k (rev l).
Proof.
  induction l as [|x l IH]; [reflexivity|]. cbn [rev select]. rewrite select_app, <- IH.
  cbn [select]. destruct (k x); [reflexivity|]. now rewrite app_nil_r.
Qed.

Lemma select_select {X Y W : Type} (f : X -> option Y) (g : Y -> option W) (l : list X) :
  select g (select f l) = select (fun x => match f x with Some y => g y | None => None end) l.
Proof.
  induction l as [|x l IH]; [reflexivity|]. cbn [select].
  destruct (f x); [cbn [select]; destruct (g y)|]; now rewrite IH.
Qed.

Lemma map_select {X Y W : Type} (f : X -> option Y) (h : Y -> W) (l : list X) :
  map h (select f l) = select (fun x => option_map h (f x)) l.
Proof.
  induction l as [|x l IH]; [reflexivity|]. cbn [select]. destruct (f x); cbn; now rewrite IH.
Qed.

Lemma find_select {X Y : Type} (k : X -> option Y) (p : Y -> bool) (l : list X) :
  find p (select k l) =
  match find (fun x => match k x with Some y => p y | None => false end) l with
  | Some x => k x
  | None => None
  end.
Proof.
  induction l as [|x l IH]; [reflexivity|]. cbn [select find].
  destruct (k x) as [y|] eqn:E; cbn [find]; [|exact IH].
  destruct (p y); [now rewrite E | exact IH].
Qed.

Lemma find_ext_in {X : Type} (p q : X -> bool) (l : list X) :
  (forall x, In x l -> p x = q x) -> find p l = find q l.
Proof.
  induction l as [|x l IH]; intros H; [reflexivity|]. cbn [find].
  rewrite (H x (or_introl eq_refl)). destruct (q x); [reflexivity|].
  apply IH. intros; apply H; right; auto.
Qed.

(** A lookup in a dict built by a comprehension gives the last value paired
    with the key. *)
Lemma dict_of_get {V : Type} (pairs : list (string * V)) (k : string) :
  PCMap.assoc_get String.eqb (dict_of pairs) k =
  option_map snd (find (fun p => String.eqb (fst p) k) (rev pairs)).
Proof.
  unfold dict_of.
  assert (G : forall d0, PCMap.assoc_get String.eqb
     (fold_left (fun d '(k0, v) => PCMap.assoc_set String.eqb d k0 v) pairs d0) k =
     match find (fun p => String.eqb (fst p) k) (rev pairs) with
     | Some p => Some (snd p)
     | None => PCMap.assoc_get String.eqb d0 k
     end).
  { induction pairs as [|[k0 v] pairs IH]; intros d0; [reflexivity|].
    cbn [fold_left rev]. rewrite IH, ASTFacts.find_app.
    destruct (find _ (rev pairs)); [reflexivity|].
    rewrite (PCMapProofs.assoc_get_set _ PCMapProofs.String_eqb_iff). cbn [find fst snd].
    destruct (String.eqb k0 k); reflexivity. }
  rewrite G. destruct (find _ (rev pairs)); reflexivity.
Qed.

Section Ids.
Variable selector_hash_fn : string -> list Byte.byte.
Variable hex : list Byte.byte -> string.

(** X20: [selector_identifiers] maps a selector to the id of the last entry
    of the ABI with that selector (constructors, methods, events, errors and
    structs have one): the first four bytes of the hash for a method or an
    error, the whole hash otherwise; a selector no entry has is not a key. *)
Theorem selector_identifiers_get (abi : list ABI) (s : string) :
  PCMap.assoc_get String.eqb (selector_identifiers selector_hash_fn hex abi) s =
  match find (fun a => match selector_of a with Some s' => String.eqb s' s | None => false end)
             (rev abi) with
  | Some a => Some (get_id selector_hash_fn hex a s)
  | None => None
  end.
Proof.
  unfold selector_identifiers, _abi_identifiers.
  rewrite dict_of_get, select_select, select_rev, find_select.
  rewrite (find_ext_in _ (fun a => match selector_of a with
                                   | Some s' => String.eqb s' s | None => false end)).
  - destruct (find _ (rev abi)) as [a|] eqn:Ef; [|reflexivity].
    apply find_some in Ef as [_ Ha].
    destruct (selector_of a) as [s'|] eqn:Es; [|discriminate]. apply String.eqb_eq in Ha. subst s'.
    cbn. rewrite Es. reflexivity.
  - intros a _. destruct (selector_of a) eqn:Es; cbn; rewrite ?Es; reflexivity.
Qed.

(** X21: [identifier_lookup] maps an id to the last entry of the ABI with
    that id; entries of different kinds can share one, such as a method and
    an error with the same selector, and only the last is kept. *)
Theorem identifier_lookup_get (abi : list ABI) (i : string) :
  PCMap.assoc_get String.eqb (identifier_lookup selector_hash_fn hex abi) i =
  find (fun a => match selector_of a with
                 | Some s => String.eqb (get_id selector_hash_fn hex a s) i
                 | None => false end) (rev abi).
Proof.
  unfold identifier_lookup, _abi_identifiers.
  rewrite dict_of_get, map_select, select_rev, find_select.
  rewrite (find_ext_in _ (fun a => match selector_of a with
                                   | Some s => String.eqb (get_id selector_hash_fn hex a s) i
                                   | None => false end)).
  - destruct (find _ (rev abi)) as [a|] eqn:Ef; [|reflexivity].
    apply find_some in Ef as [_ Ha].
    destruct (selector_of a) as [s|]; [reflexivity | discriminate].
  - intros a _. destruct (selector_of a); reflexivity.
Qed.

(** X22: [method_identifiers] has a key for each selector of a method of
    the ABI and no other, and maps it to the hex of the first four bytes of
    the selector's hash. *)
Theorem method_identifiers_get (abi : list ABI) (s : string) :
  PCMap.assoc_get String.eqb (method_identifiers selector_hash_fn hex abi) s =
  if existsb (fun a => match a with
                       | AMethod m => String.eqb (MethodABI.selector m) s
                       | _ => false end) abi
  then Some (hex (firstn 4 (selector_hash_fn s))) else None.
Proof.
  set (q := fun a => match a with
                     | AMethod m => String.eqb (MethodABI.selector m) s
                     | _ => false end).
  unfold method_identifiers, _abi_identifiers.
  rewrite dict_of_get, select_select, select_rev, find_select.
  rewrite (find_ext_in _ q).
  - destruct (find q (rev abi)) as [a|] eqn:Ef.
    + pose proof (find_some _ _ Ef) as [Hin Ha]. apply in_rev in Hin.
      replace (existsb q abi) with true by (symmetry; apply existsb_exists; eauto).
      destruct a; try discriminate. cbn in Ha |- *. apply String.eqb_eq in Ha. now subst s.
    + destruct (existsb q abi) eqn:Ee; [|reflexivity].
      apply existsb_exists in Ee as (a & Hin & Ha).
      apply in_rev in Hin. rewrite (find_none _ _ Ef a Hin) in Ha. discriminate.
  - intros a _. destruct a; reflexivity.
Qed.

End Ids.

End ContractIdsProofs.

(** ** [stringify_dict_for_hash] does not depend on key order *)
Module JsonHashProofs.
Import JsonHash.

Lemma compare_lt_trans (a b c : string) :
  String.compare a b = Lt -> String.compare b c = Lt -> String.compare a c = Lt.
Proof.
  revert b c. induction a as [|x a IH]; intros [|y b] [|z c] H1 H2; cbn in *;
    try discriminate; try reflexivity.
  destruct (Ascii.compare x y) eqn:Exy; try discriminate;
  destruct (Ascii.compare y z) eqn:Eyz; try discriminate.
  - apply Ascii.compare_eq_iff in Exy, Eyz. subst.
    replace (Ascii.compare z z) with Eq by (unfold Ascii.compare; symmetry; apply N.compare_refl).
    exact (IH _ _ H1 H2).
  - apply Ascii.compare_eq_iff in Exy. subst. now rewrite Eyz.
  - apply Ascii.compare_eq_iff in Eyz. subst. now rewrite Exy.
  - unfold Ascii.compare in *. rewrite N.compare_lt_iff in Exy, Eyz.
    replace (N.compare (N_of_ascii x) (N_of_ascii z)) with Lt; [reflexivity|].
    symmetry. apply N.compare_lt_iff. lia.
Qed.

Lemma ltb_asym (a b : string) : String.ltb a b = true -> String.ltb b a = false.
Proof.
  unfold String.ltb. rewrite (String.compare_antisym b a).
  destruct (String.compare a b); cbn; congruence.
Qed.

Lemma ltb_total (a b : string) : a <> b -> String.ltb a b = false -> String.ltb b a = true.
Proof.
  unfold String.ltb. rewrite (String.compare_antisym b a). intros Hne.
  destruct (String.compare a b) eqn:E; cbn; try congruence.
  apply String.compare_eq_iff in E. contradiction.
Qed.

Lemma ltb_trans (a b c : string) :
  String.ltb a b = true -> String.ltb b c = true -> String.ltb a c = true.
Proof.
  unfold String.ltb.
  destruct (String.compare a b) eqn:E1; try discriminate.
  destruct (String.compare b c) eqn:E2; try discriminate.
  now rewrite (compare_lt_trans a b c E1 E2).
Qed.

Lemma ltb_not_trans (q a b : string) :
  String.ltb q a = false -> String.ltb q b = true -> String.ltb a b = true.
Proof.
  intros H1 H2. destruct (String.eqb_spec q a) as [<-|Hne]; [exact H2|].
  exact (ltb_trans a q b (ltb_total q a Hne H1) H2).
Qed.

Lemma insert_item_comm {X : Type} (a b : string * X) (l : list (string * X)) :
  fst a <> fst b -> insert_item a (insert_item b l) = insert_item b (insert_item a l).
Proof.
  intros Hab.
  assert (Hone : forall T (u v : T),
    (if String.ltb (fst b) (fst a) then u else v) = (if String.ltb (fst a) (fst b) then v else u)).
  { intros T u v. destruct (String.ltb (fst b) (fst a)) eqn:E1.
    - now rewrite (ltb_asym _ _ E1).
    - now rewrite (ltb_total _ _ (fun E => Hab (eq_sym E)) E1). }
  induction l as [|q l IH].
  - cbn [insert_item]. apply Hone.
  - cbn [insert_item].
    destruct (String.ltb (fst q) (fst b)) eqn:Eqb, (String.ltb (fst q) (fst a)) eqn:Eqa;
      cbn [insert_item]; rewrite ?Eqa, ?Eqb.
    + now rewrite IH.
    + rewrite (ltb_not_trans _ _ _ Eqa Eqb). cbn [insert_item]. rewrite ?Eqb. reflexivity.
    + assert (Hba : String.ltb (fst b) (fst a) = true) by exact (ltb_not_trans _ _ _ Eqb Eqa).
      rewrite Hba. cbn [insert_item]. rewrite ?Eqa. reflexivity.
    + cbn [insert_item]. rewrite ?Eqa, ?Eqb. apply Hone.
Qed.

Lemma sort_items_perm {X : Type} (l1 l2 : list (string * X)) :
  Permutation l1 l2 -> NoDup (map fst l1) -> sort_items l1 = sort_items l2.
Proof.
  intros H. induction H as [|x l l' H IH|x y l|l l' l'' H1 IH1 H2 IH2]; intros Hnd.
  - reflexivity.
  - unfold sort_items in *. cbn [fold_right]. f_equal. apply IH.
    cbn [map] in Hnd. inversion Hnd; assumption.
  - unfold sort_items. cbn [fold_right]. apply insert_item_comm.
    cbn [map] in Hnd. inversion Hnd as [|? ? Hy _]. intros E. apply Hy. rewrite E. left; reflexivity.
  - rewrite (IH1 Hnd). apply IH2.
    exact (Permutation_NoDup (Permutation_map fst H1) Hnd).
Qed.

Lemma perm_filter {X : Type} (f : X -> bool) (l1 l2 : list X) :
  Permutation l1 l2 -> Permutation (filter f l1) (filter f l2).
Proof.
  intros H. induction H as [|x l l' H IH|x y l|l l' l'' H1 IH1 H2 IH2]; cbn [filter].
  - constructor.
  - destruct (f x); [constructor|]; exact IH.
  - destruct (f x), (f y); try constructor; apply Permutation_refl.
  - exact (perm_trans IH1 IH2).
Qed.

Lemma nodup_fst_filter {X : Type} (f : string * X -> bool) (l : list (string * X)) :
  NoDup (map fst l) -> NoDup (map fst (filter f l)).
Proof.
  induction l as [|x l IH]; intros H; [constructor|]. cbn [map] in H.
  inversion H as [|? ? Hx Hl]; subst. cbn [filter].
  destruct (f x); [|exact (IH Hl)]. cbn [map]. constructor; [|exact (IH Hl)].
  intros Hin. apply Hx. apply in_map_iff in Hin as (y & Hy & Hin).
  apply filter_In in Hin as [Hin _]. rewrite <- Hy. now apply in_map.
Qed.

Lemma dumps_sort_perm (encode_str : string -> string) (a b : list (string * JVal)) :
  Permutation a b -> NoDup (map fst a) ->
  dumps encode_str (_sort (JDict a)) = dumps encode_str (_sort (JDict b)).
Proof.
  intros Hp Hnd.
  assert (E : sort_items (map (fun '(k, x) => (k, _sort x)) a) =
              sort_items (map (fun '(k, x) => (k, _sort x)) b)).
  { apply sort_items_perm; [now apply Permutation_map|].
    rewrite map_map. replace (map (fun x => fst (let '(k, x0) := x in (k, _sort x0))) a)
      with (map fst a); [exact Hnd|]. apply map_ext. intros [k x]. reflexivity. }
  cbn [_sort]. rewrite E. reflexivity.
Qed.

(** X23: [stringify_dict_for_hash] gives the same text for two dicts with
    the same entries in different orders, whatever [include] and [exclude]
    are: the text to hash does not depend on insertion order. *)
Theorem stringify_dict_for_hash_order (encode_str : string -> string)
    (d1 d2 : list (string * JVal)) (include exclude : option (list string))
    (Hp : Permutation d1 d2) (Hnd : NoDup (map fst d1)) :
  stringify_dict_for_hash encode_str d1 include exclude =
  stringify_dict_for_hash encode_str d2 include exclude.
Proof.
  unfold stringify_dict_for_hash. apply dumps_sort_perm.
  - destruct exclude as [[|e es]|]; destruct include as [[|i is]|];
      repeat apply perm_filter; exact Hp.
  - destruct exclude as [[|e es]|]; destruct include as [[|i is]|];
      repeat apply nodup_fst_filter; exact Hnd.
Qed.

Lemma stringify_dict_for_hash_order_witness :
  Permutation [("b", JOther "1"); ("a", JStr "x"); ("c", JList [])]
              [("a", JStr "x"); ("c", JList []); ("b", JOther "1")] /\
  NoDup (map fst [("b", JOther "1"); ("a", JStr "x"); ("c", JList [])]) /\
  stringify_dict_for_hash (fun s => s) [("b", JOther "1"); ("a", JStr "x"); ("c", JList [])]
    (Some ["a"; "b"]) None = "{a:x,b:1}" /\
  stringify_dict_for_hash (fun s => s) [("b", JOther "1"); ("a", JStr "x"); ("c", JList [])]
    (Some ["a"; "b"]) None =
  stringify_dict_for_hash (fun s => s) [("a", JStr "x"); ("c", JList []); ("b", JOther "1")]
    (Some ["a"; "b"]) None.
Proof.
  assert (Hp : Permutation [("b", JOther "1"); ("a", JStr "x"); ("c", JList [])]
                           [("a", JStr "x"); ("c", JList []); ("b", JOther "1")]).
  { eapply perm_trans; [apply perm_swap|]. apply perm_skip, perm_swap. }
  assert (Hnd : NoDup (map fst [("b", JOther "1"); ("a", JStr "x"); ("c", JList [])])).
  { cbn. constructor; [cbn; intros [H|[H|[]]]; discriminate|].
    constructor; [cbn; intros [H|[]]; discriminate|].
    constructor; [intros []|constructor]. }
  split; [exact Hp|]. split; [exact Hnd|]. split; [vm_compute; reflexivity|].
  exact (stringify_dict_for_hash_order (fun s => s) _ _ (Some ["a"; "b"]) None Hp Hnd).
Defined.

End JsonHashProofs.
